(** * chess_viewer: the rule engine of the PGN replayer

    A shallow embedding of the chess rule engine of [chess_viewer.c]
    (board accesses, [is_path_clear], [is_valid_move], [is_in_check],
    [parse_san], [apply_move], [clean_line], [extract_san_token],
    [is_result_token], [build_move_list]) and the properties of it that
    the specification states.

    Conventions of the embedding.
    - A C [int] is a [Z].  Every integer the engine computes is a board
      coordinate, a difference of two of them, or a difference of two
      character codes, so no 32-bit wrap-around can occur.
    - A C [char] is an [ascii]; a NUL-terminated C string is the [string]
      of the characters before the terminator.  The <ctype.h> functions
      are those of the C locale, where no byte above 127 is a letter or
      a digit.
    - The global [char board[8][8]] is a map from index pairs to
      characters.  An access outside [0,8) x [0,8) is undefined behaviour
      in C: the embedding returns [None] there, so every function that
      touches the board is in the option monad and a result [Some _]
      means that the run stayed inside the array.  The fixed-size
      buffers of [parse_san] ([clean_san[16]], [hint_str[4]],
      [candidates[16]]) are treated the same way. *)

From Stdlib Require Import ZArith String Ascii List Bool Lia FinFun.
Import ListNotations.

Open Scope Z_scope.

(** ** Undefined behaviour as [option] *)

Definition bind {A B : Type} (x : option A) (k : A -> option B) : option B :=
  match x with
  | Some a => k a
  | None => None
  end.

Notation "x <- e ;; k" := (bind e (fun x => k))
  (at level 61, e at next level, right associativity).

(** ** Characters (<ctype.h> in the C locale) *)

Definition code (c : ascii) : Z := Z.of_N (N_of_ascii c).

Definition chr (n : Z) : ascii := ascii_of_N (Z.to_N n).

Definition isupper (c : ascii) : bool := (code "A" <=? code c) && (code c <=? code "Z").

Definition islower (c : ascii) : bool := (code "a" <=? code c) && (code c <=? code "z").

Definition isdigit (c : ascii) : bool := (code "0" <=? code c) && (code c <=? code "9").

Definition toupper (c : ascii) : ascii := if islower c then chr (code c - 32) else c.

Definition tolower (c : ascii) : ascii := if isupper c then chr (code c + 32) else c.

Definition is_nul (c : ascii) : bool := (c =? zero)%char.

(** ** The board *)

Definition BOARD_SIZE : Z := 8.

Definition Board : Type := Z -> Z -> ascii.

Definition on_board (r f : Z) : bool :=
  (0 <=? r) && (r <? BOARD_SIZE) && (0 <=? f) && (f <? BOARD_SIZE).

(** [board[r][f]] read. *)
Definition rd (b : Board) (r f : Z) : option ascii :=
  if on_board r f then Some (b r f) else None.

Definition upd (b : Board) (r f : Z) (c : ascii) : Board :=
  fun r' f' => if (r' =? r) && (f' =? f) then c else b r' f'.

(** [board[r][f] = c] write. *)
Definition wr (b : Board) (r f : Z) (c : ascii) : option Board :=
  if on_board r f then Some (upd b r f c) else None.

(** The board whose rows are the given strings, ['.'] elsewhere. *)
Definition board_of_rows (rows : list string) : Board :=
  fun r f =>
    if on_board r f then
      match String.get (Z.to_nat f) (nth (Z.to_nat r) rows EmptyString) with
      | Some c => c
      | None => "."%char
      end
    else "."%char.

Definition init_board : Board :=
  board_of_rows
    [ "rnbqkbnr"; "pppppppp"; "........"; "........";
      "........"; "........"; "PPPPPPPP"; "RNBQKBNR" ]%string.

(** The indices of a [for (i = 0; i < BOARD_SIZE; i++)] loop. *)
Definition indices : list Z := [0; 1; 2; 3; 4; 5; 6; 7].

(** The squares in the order of the nested loops over [r] then [f]. *)
Definition squares : list (Z * Z) :=
  flat_map (fun r => map (fun f => (r, f)) indices) indices.

(** Two boards hold the same character on each of the 64 squares. *)
Definition same_board (b1 b2 : Board) : Prop :=
  forall r f, on_board r f = true -> b1 r f = b2 r f.

(** ** MoveValidator *)

Definition is_white_piece (piece : ascii) : bool :=
  (code "A" <=? code piece) && (code piece <=? code "Z").

Definition sign (x : Z) : Z := if 0 <? x then 1 else if x <? 0 then -1 else 0.

(** The loop of [is_path_clear]: [n] iterations left, starting at [i]. *)
Fixpoint path_loop (b : Board) (from_r from_f dr df i : Z) (n : nat) : option bool :=
  match n with
  | O => Some true
  | S n' =>
      c <- rd b (from_r + i * dr) (from_f + i * df) ;;
      if negb (c =? ".")%char then Some false
      else path_loop b from_r from_f dr df (i + 1) n'
  end.

Definition path_steps (from_r from_f to_r to_f : Z) : Z :=
  if sign (to_r - from_r) =? 0 then Z.abs (to_f - from_f) else Z.abs (to_r - from_r).

Definition is_path_clear (b : Board) (from_r from_f to_r to_f : Z) : option bool :=
  let dr := sign (to_r - from_r) in
  let df := sign (to_f - from_f) in
  let steps := path_steps from_r from_f to_r to_f in
  path_loop b from_r from_f dr df 1 (Z.to_nat (steps - 1)).

(** The [switch (p)] of [is_valid_move]: the value of [movement_valid]
    after it.  The two [return 0] of the pawn advance are rendered as
    [movement_valid = 0], after which the function returns 0 as well. *)
Definition movement (b : Board) (p : ascii) (from_r from_f to_r to_f : Z)
    (is_white capture is_empty is_enemy : bool) : option bool :=
  let dr := Z.abs (to_r - from_r) in
  let df := Z.abs (to_f - from_f) in
  let dir := if is_white then -1 else 1 in
  if (p =? "P")%char then
    if df =? 0 then
      if capture then Some false
      else if negb is_empty then Some false
      else if (dr =? 1) && (to_r - from_r =? dir) then Some true
      else if (dr =? 2)
              && ((is_white && (from_r =? 6)) || (negb is_white && (from_r =? 1)))
              && (to_r - from_r =? 2 * dir)
      then is_path_clear b from_r from_f to_r to_f
      else Some false
    else if (df =? 1) && (dr =? 1) && (to_r - from_r =? dir) then
      if capture && is_enemy then Some true
      else if capture && is_empty then
        let ep_rank := if is_white then 3 else 4 in
        if from_r =? ep_rank then
          c <- rd b from_r to_f ;;
          Some (c =? (if is_white then "p" else "P"))%char
        else Some false
      else Some false
    else Some false
  else if (p =? "N")%char then
    Some (((dr =? 1) && (df =? 2)) || ((dr =? 2) && (df =? 1)))
  else if (p =? "B")%char then
    if (dr =? df) && (0 <? dr) then is_path_clear b from_r from_f to_r to_f
    else Some false
  else if (p =? "R")%char then
    if ((dr =? 0) || (df =? 0)) && (0 <? dr + df)
    then is_path_clear b from_r from_f to_r to_f
    else Some false
  else if (p =? "Q")%char then
    if ((dr =? df) || ((dr =? 0) || (df =? 0))) && (0 <? dr + df)
    then is_path_clear b from_r from_f to_r to_f
    else Some false
  else if (p =? "K")%char then
    Some ((dr <=? 1) && (df <=? 1) && (0 <? dr + df))
  else Some false.

Definition is_valid_move (b : Board) (piece : ascii) (from_r from_f to_r to_f : Z)
    (is_white capture : bool) : option bool :=
  let p := toupper piece in
  at_to <- rd b to_r to_f ;;
  let is_empty := (at_to =? ".")%char in
  let is_enemy := negb is_empty && negb (Bool.eqb (is_white_piece at_to) is_white) in
  movement_valid <-
    movement b p from_r from_f to_r to_f is_white capture is_empty is_enemy ;;
  if movement_valid then
    if capture then Some (is_enemy || ((p =? "P")%char && is_empty && movement_valid))
    else Some is_empty
  else Some false.

(** First square holding [king], scanning rows then files. *)
Definition find_king_pos (b : Board) (king : ascii) : option (Z * Z) :=
  find (fun s => (b (fst s) (snd s) =? king)%char) squares.

(** The second double loop of [is_in_check] over the squares left. *)
Fixpoint check_loop (b : Board) (king_r king_f : Z) (opponent_is_white : bool)
    (l : list (Z * Z)) : option bool :=
  match l with
  | [] => Some false
  | (r, f) :: l' =>
      let p := b r f in
      if (p =? ".")%char || negb (Bool.eqb (is_white_piece p) opponent_is_white)
      then check_loop b king_r king_f opponent_is_white l'
      else
        v <- is_valid_move b p r f king_r king_f opponent_is_white true ;;
        if v then Some true
        else check_loop b king_r king_f opponent_is_white l'
  end.

Definition is_in_check (b : Board) (is_white : bool) : option bool :=
  let king := if is_white then "K"%char else "k"%char in
  match find_king_pos b king with
  | None => Some false
  | Some (king_r, king_f) =>
      check_loop b king_r king_f (negb is_white) squares
  end.

(** ** BoardState: moves and their application *)

Record Move : Type := mkMove {
  from_r : Z;
  from_f : Z;
  to_r : Z;
  to_f : Z;
  promo : ascii
}.

Definition apply_move (m : Move) (is_white : bool) (b : Board) : option Board :=
  piece <- rd b (from_r m) (from_f m) ;;
  captured <- rd b (to_r m) (to_f m) ;;
  let dir := if is_white then -1 else 1 in
  b1 <- (if (toupper piece =? "P")%char && (Z.abs (from_f m - to_f m) =? 1)
            && (captured =? ".")%char
         then wr b (to_r m - dir) (to_f m) "."
         else Some b) ;;
  b2 <- wr b1 (to_r m) (to_f m)
          (if is_nul (promo m) then piece
           else if is_white then toupper (promo m) else tolower (promo m)) ;;
  b3 <- wr b2 (from_r m) (from_f m) "." ;;
  if (toupper piece =? "K")%char && (Z.abs (from_f m - to_f m) =? 2) then
    let rook_from := if to_f m >? from_f m then 7 else 0 in
    let rook_to := if to_f m >? from_f m then 5 else 3 in
    let rook := if is_white then "R"%char else "r"%char in
    b4 <- wr b3 (from_r m) rook_to rook ;;
    wr b4 (from_r m) rook_from "."
  else Some b3.

(** ** C strings *)

Definition strlen (s : string) : Z := Z.of_nat (String.length s).

(** [s[i]]; the terminator reads as NUL. *)
Definition char_at (s : string) (i : Z) : ascii :=
  match String.get (Z.to_nat i) s with
  | Some c => c
  | None => zero
  end.

(** Offset of the first [c] in [s], the result of [strchr(s, c) - s]. *)
Fixpoint strchr (s : string) (c : ascii) : option Z :=
  match s with
  | EmptyString => None
  | String d s' =>
      if (d =? c)%char then Some 0
      else match strchr s' c with
           | Some i => Some (i + 1)
           | None => None
           end
  end.

(** [strchr(s, c) != NULL] for a character [c] other than NUL. *)
Definition in_set (s : string) (c : ascii) : bool :=
  match strchr s c with
  | Some _ => true
  | None => false
  end.

(** The first [n] characters of [s]. *)
Definition prefix (s : string) (n : Z) : string := substring 0 (Z.to_nat n) s.

(** ** SanParser *)

Section SanParser.

(** Whether plain [char] is signed is implementation-defined; it decides
    the value of [c - 'a'] for bytes above 127. *)
Variable char_signed : bool.

Definition char_int (c : ascii) : Z :=
  if char_signed && (128 <=? code c) then code c - 256 else code c.

(** What [parse_san] knows of the move before it looks at the board. *)
Record Target : Type := mkTarget {
  t_promo : ascii;
  t_to_r : Z;
  t_to_f : Z;
  t_piece : ascii;
  t_hint_f : Z;
  t_hint_r : Z;
  t_capture : bool
}.

(** How the board-independent first half of [parse_san] ends. *)
Inductive Header : Type :=
| Castle (m : Move)
| Reject
| Search (t : Target).

(** [clean_san] and [len] after the trailing [+] or [#] is cut;
    undefined for an empty token ([clean_san[-1]]) and for one that
    does not fit [char clean_san[16]]. *)
Definition strip_check (san : string) : option string :=
  let len := strlen san in
  if (len =? 0) || (16 <=? len) then None
  else
    let last := char_at san (len - 1) in
    if (last =? "+")%char || (last =? "#")%char then Some (prefix san (len - 1))
    else Some san.

(** The loop that looks for the capture marker: [capture_pos]. *)
Fixpoint find_capture (clean_san : string) (i : Z) (n : nat) : Z :=
  match n with
  | O => 0
  | S n' =>
      if (char_at clean_san i =? "x")%char then i
      else find_capture clean_san (i + 1) n'
  end.

Definition parse_header (san : string) (is_white : bool) : option Header :=
  clean_san <- strip_check san ;;
  if String.eqb clean_san "O-O" || String.eqb clean_san "0-0" then
    let r := if is_white then 7 else 0 in
    Some (Castle (mkMove r 4 r 6 zero))
  else if String.eqb clean_san "O-O-O" || String.eqb clean_san "0-0-0" then
    let r := if is_white then 7 else 0 in
    Some (Castle (mkMove r 4 r 2 zero))
  else
    let '(promo, clean_san) :=
      match strchr clean_san "=" with
      | Some eq => (char_at clean_san (eq + 1), prefix clean_san eq)
      | None => (zero, clean_san)
      end in
    let len := strlen clean_san in
    if len <? 2 then Some Reject
    else
      let to_f := char_int (char_at clean_san (len - 2)) - char_int "a" in
      let to_r := char_int (char_at clean_san (len - 1)) - char_int "1" in
      let to_r := 7 - to_r in
      if (to_r <? 0) || (8 <=? to_r) || (to_f <? 0) || (8 <=? to_f) then Some Reject
      else
        let c0 := char_at clean_san 0 in
        let '(piece, hint_start) :=
          if isupper c0 && in_set "RNBQK" c0
          then (c0, 1) else ("P"%char, 0) in
        let capture_pos :=
          find_capture clean_san hint_start (Z.to_nat (len - 2 - hint_start)) in
        let capture := 0 <? capture_pos in
        let hint_len := (if 0 <? capture_pos then capture_pos else len - 2) - hint_start in
        (* [char hint_str[4]]: four or more characters leave it unterminated *)
        if 4 <=? hint_len then None
        else
          let hint_str :=
            if 0 <? hint_len
            then substring (Z.to_nat hint_start) (Z.to_nat hint_len) clean_san
            else EmptyString in
          let hl := strlen hint_str in
          let h0 := char_at hint_str 0 in
          let h1 := char_at hint_str 1 in
          let '(hint_f, hint_r) :=
            if hl =? 1 then
              if islower h0 then (char_int h0 - char_int "a", -1)
              else if isdigit h0 then (-1, 7 - (char_int h0 - char_int "1"))
              else (-1, -1)
            else if hl =? 2 then
              (char_int h0 - char_int "a", 7 - (char_int h1 - char_int "1"))
            else (-1, -1) in
          Some (Search (mkTarget promo to_r to_f piece hint_f hint_r capture)).

(** The scan that fills [candidates[16]]; [acc] holds the candidates
    found so far, in the order found. *)
Fixpoint candidate_loop (b : Board) (target_piece : ascii) (hint_f hint_r to_r to_f : Z)
    (is_white capture : bool) (acc : list (Z * Z)) (l : list (Z * Z))
    : option (list (Z * Z)) :=
  match l with
  | [] => Some acc
  | (r, f) :: l' =>
      if (b r f =? target_piece)%char then
        if ((0 <=? hint_f) && negb (f =? hint_f)) || ((0 <=? hint_r) && negb (r =? hint_r))
        then candidate_loop b target_piece hint_f hint_r to_r to_f is_white capture acc l'
        else
          v <- is_valid_move b target_piece r f to_r to_f is_white capture ;;
          if v then
            if 16 <=? Z.of_nat (length acc) then None
            else candidate_loop b target_piece hint_f hint_r to_r to_f is_white capture
                   (acc ++ [(r, f)]) l'
          else candidate_loop b target_piece hint_f hint_r to_r to_f is_white capture acc l'
      else candidate_loop b target_piece hint_f hint_r to_r to_f is_white capture acc l'
  end.

Definition target_piece_of (t : Target) (is_white : bool) : ascii :=
  if is_white then t_piece t else tolower (t_piece t).

Definition candidates (b : Board) (t : Target) (is_white : bool) : option (list (Z * Z)) :=
  candidate_loop b (target_piece_of t is_white) (t_hint_f t) (t_hint_r t)
    (t_to_r t) (t_to_f t) is_white (t_capture t) [] squares.

(** The move [*m] with its origin set to a candidate. *)
Definition move_from (t : Target) (c : Z * Z) : Move :=
  mkMove (fst c) (snd c) (t_to_r t) (t_to_f t) (t_promo t).

(** The disambiguation loop on the live board [board].  Each round
    copies the board to [temp_board], applies the candidate's move to the
    live board, tests the mover's king there, and copies [temp_board]
    back before it returns or goes on. *)
Fixpoint trial_loop (board : Board) (t : Target) (is_white : bool) (cands : list (Z * Z))
    : option (option Move * Board) :=
  match cands with
  | [] => Some (None, board)
  | c :: rest =>
      let temp_board := board in
      let temp_m := move_from t c in
      board <- apply_move temp_m is_white board ;;
      chk <- is_in_check board is_white ;;
      let board := temp_board in
      if negb chk then Some (Some temp_m, board)
      else trial_loop board t is_white rest
  end.

(** [parse_san]: [Some (Some m, b')] is a return of 1 that leaves the
    move [m] in [*m], [Some (None, b')] a return of 0 (what it has then
    written to [*m] is not kept), and [b'] is the board afterwards. *)
Definition parse_san (san : string) (is_white : bool) (b : Board)
    : option (option Move * Board) :=
  h <- parse_header san is_white ;;
  match h with
  | Castle m => Some (Some m, b)
  | Reject => Some (None, b)
  | Search t =>
      cands <- candidates b t is_white ;;
      match cands with
      | [] => Some (None, b)
      | [c] => Some (Some (move_from t c), b)
      | _ => trial_loop b t is_white cands
      end
  end.

End SanParser.

(** ** MovetextTokenizer *)

Definition MOVE_TEXT_LEN : Z := 32.

Definition MAX_MOVES : Z := 8192.

Definition RESULT_LEN : Z := 16.

Definition newline : ascii := ascii_of_nat 10.

(** The loop of [clean_line] from the read pointer on: what it still
    writes to [out].  At a [;] the inner loop runs up to the newline (or
    the end of the line) and the outer loop resumes there. *)
Fixpoint clean_loop (in_comment in_var : bool) (line : string) : string :=
  match line with
  | EmptyString => EmptyString
  | String c line' =>
      if (c =? "{")%char then clean_loop true in_var line'
      else if (c =? "}")%char then clean_loop false in_var line'
      else if (c =? "(")%char then clean_loop in_comment true line'
      else if (c =? ")")%char then clean_loop in_comment false line'
      else if (c =? ";")%char then
        (fix skip (rest : string) : string :=
           match rest with
           | EmptyString => EmptyString
           | String d rest' =>
               if (d =? newline)%char then clean_loop in_comment in_var rest
               else skip rest'
           end) line'
      else if negb in_comment && negb in_var then String c (clean_loop in_comment in_var line')
      else clean_loop in_comment in_var line'
  end.

Definition clean_line (line : string) : string := clean_loop false false line.

(** The pointer [p] advanced while [pred] holds of the character under it. *)
Fixpoint skip_while (pred : ascii -> bool) (p : string) : string :=
  match p with
  | EmptyString => EmptyString
  | String c p' => if pred c then skip_while pred p' else p
  end.

(** [strcspn(p, reject)]. *)
Fixpoint strcspn (p : string) (reject : string) : Z :=
  match p with
  | EmptyString => 0
  | String c p' => if in_set reject c then 0 else 1 + strcspn p' reject
  end.

Definition is_dot (c : ascii) : bool := (c =? ".")%char.

(** [extract_san_token]: [Some out] for a return of 1, [None] for 0. *)
Definition extract_san_token (token : string) (out_size : Z) : option string :=
  let p :=
    if isdigit (char_at token 0) then
      let q := skip_while isdigit token in
      if (char_at q 0 =? ".")%char then skip_while is_dot q else token
    else skip_while is_dot token in
  match p with
  | EmptyString => None
  | _ =>
      let len := strcspn p "!?" in
      if len =? 0 then None
      else
        let len := if out_size <=? len then out_size - 1 else len in
        Some (prefix p len)
  end.

Definition is_result_token (san : string) : bool :=
  String.eqb san "1-0" || String.eqb san "0-1"
  || String.eqb san "1/2-1/2" || String.eqb san "*".

(** The delimiters given to [strtok]: space, tab, newline, carriage return. *)
Definition is_delim (c : ascii) : bool :=
  (c =? " ")%char || (c =? ascii_of_nat 9)%char
  || (c =? ascii_of_nat 10)%char || (c =? ascii_of_nat 13)%char.

(** The tokens that the successive [strtok] calls return; [cur] is the
    token being read. *)
Fixpoint strtok_from (s : string) (cur : string) : list string :=
  match s with
  | EmptyString =>
      match cur with
      | EmptyString => []
      | _ => [cur]
      end
  | String c s' =>
      if is_delim c then
        match cur with
        | EmptyString => strtok_from s' EmptyString
        | _ => cur :: strtok_from s' EmptyString
        end
      else strtok_from s' (cur ++ String c EmptyString)
  end.

Definition strtok (s : string) : list string := strtok_from s EmptyString.

(** The [while (token)] loop of [build_move_list]: the moves stored so
    far are [moves] and the result buffer holds [result]. *)
Fixpoint build_loop (tokens : list string) (max_moves result_out_size : Z)
    (moves : list string) (result : string) : list string * string :=
  match tokens with
  | [] => (moves, result)
  | token :: tokens' =>
      match extract_san_token token MOVE_TEXT_LEN with
      | Some san_buf =>
          if is_result_token san_buf then
            (moves,
             if 0 <? result_out_size then prefix san_buf (result_out_size - 1)
             else result)
          else if Z.of_nat (length moves) <? max_moves then
            build_loop tokens' max_moves result_out_size
              (moves ++ [prefix san_buf (MOVE_TEXT_LEN - 1)]) result
          else build_loop tokens' max_moves result_out_size moves result
      | None => build_loop tokens' max_moves result_out_size moves result
      end
  end.

(** [build_move_list]: the moves written to [moves[0..count-1]] and the
    contents of [result_out] ([result_out_size = 0] stands for a call
    without a result buffer, which reports nothing). *)
Definition build_move_list (move_buffer : string) (max_moves result_out_size : Z)
    : list string * string :=
  let temp_buffer := prefix move_buffer 65535 in
  build_loop (strtok temp_buffer) max_moves result_out_size [] EmptyString.

(** * Notions used to state the properties *)

(** ** Geometry of the board *)

Definition EMPTY : ascii := "."%char.

(** Origin and destination lie on a common rank, file or diagonal. *)
Definition on_line (from_r from_f to_r to_f : Z) : Prop :=
  to_r = from_r \/ to_f = from_f \/ Z.abs (to_r - from_r) = Z.abs (to_f - from_f).

(** The square [(r, f)] lies on the segment between origin and
    destination and is neither of them. *)
Definition strictly_between (from_r from_f to_r to_f r f : Z) : Prop :=
  (r - from_r) * (to_f - from_f) = (f - from_f) * (to_r - from_r)
  /\ Z.min from_r to_r <= r <= Z.max from_r to_r
  /\ Z.min from_f to_f <= f <= Z.max from_f to_f
  /\ (r, f) <> (from_r, from_f)
  /\ (r, f) <> (to_r, to_f).

(** Bishops, rooks and queens of either colour. *)
Definition is_slider (piece : ascii) : Prop :=
  In (toupper piece) ["B"; "R"; "Q"]%char.

(** ** Line cleaning *)

Definition is_markup (c : ascii) : bool :=
  (c =? "{")%char || (c =? "}")%char || (c =? "(")%char || (c =? ")")%char
  || (c =? ";")%char.

Fixpoint no_markup (s : string) : bool :=
  match s with
  | EmptyString => true
  | String c s' => negb (is_markup c) && no_markup s'
  end.

(** The read pointer after the inner loop of the [;] case, started one
    character after the [;]. *)
Fixpoint skip_to_newline (rest : string) : string :=
  match rest with
  | EmptyString => EmptyString
  | String d rest' => if (d =? newline)%char then rest else skip_to_newline rest'
  end.

(** ** Check detection *)

(** The character of the king of a colour. *)
Definition king_of (is_white : bool) : ascii := if is_white then "K"%char else "k"%char.

(** [p] is a piece of colour [is_white] as the scans of the engine see
    it: not the empty mark, and upper case exactly for White. *)
Definition piece_of (is_white : bool) (p : ascii) : Prop :=
  p <> EMPTY /\ is_white_piece p = is_white.

(** The piece on [(r, f)] belongs to [attacker_is_white] and has a
    pseudo-legal capture onto [(king_r, king_f)]. *)
Definition attacks (b : Board) (attacker_is_white : bool) (king_r king_f r f : Z) : Prop :=
  on_board r f = true
  /\ piece_of attacker_is_white (b r f)
  /\ is_valid_move b (b r f) r f king_r king_f attacker_is_white true = Some true.

(** ** Squares that a move touches *)

(** Row direction of the mover: towards row 0 for White. *)
Definition forward (is_white : bool) : Z := if is_white then -1 else 1.

(** The test of the en passant removal in [apply_move]. *)
Definition pawn_takes_empty (m : Move) (b : Board) : bool :=
  (toupper (b (from_r m) (from_f m)) =? "P")%char
  && (Z.abs (from_f m - to_f m) =? 1)
  && (b (to_r m) (to_f m) =? ".")%char.

(** The test of the rook relocation in [apply_move]. *)
Definition king_shifts_two (m : Move) (b : Board) : bool :=
  (toupper (b (from_r m) (from_f m)) =? "K")%char
  && (Z.abs (from_f m - to_f m) =? 2).

Definition rook_squares (m : Move) : list (Z * Z) :=
  [ (from_r m, if to_f m >? from_f m then 7 else 0);
    (from_r m, if to_f m >? from_f m then 5 else 3) ].

(** The squares [apply_move] writes: origin, destination, the square one
    row behind the destination for a pawn that shifts one file onto an
    empty square, the rook's two squares for a king that shifts two files. *)
Definition touched (m : Move) (is_white : bool) (b : Board) : list (Z * Z) :=
  [ (from_r m, from_f m); (to_r m, to_f m) ]
  ++ (if pawn_takes_empty m b then [ (to_r m - forward is_white, to_f m) ] else [])
  ++ (if king_shifts_two m b then rook_squares m else []).

(** The same list with the pawn's extra square taken on the origin row. *)
Definition touched_on_origin_row (m : Move) (b : Board) : list (Z * Z) :=
  [ (from_r m, from_f m); (to_r m, to_f m) ]
  ++ (if pawn_takes_empty m b then [ (from_r m, to_f m) ] else [])
  ++ (if king_shifts_two m b then rook_squares m else []).

(** The piece that [apply_move] puts on the destination. *)
Definition placed (m : Move) (is_white : bool) (b : Board) : ascii :=
  if is_nul (promo m) then b (from_r m) (from_f m)
  else if is_white then toupper (promo m) else tolower (promo m).

(** ** Candidates of a SAN token *)

(** The test that the scan of [parse_san] applies to a square: it holds
    the mover's piece, agrees with the hint, and the piece has a
    pseudo-legal move to the destination. *)
Definition is_candidate (b : Board) (target_piece : ascii) (hint_f hint_r to_r to_f : Z)
    (is_white capture : bool) (s : Z * Z) : bool :=
  (b (fst s) (snd s) =? target_piece)%char
  && negb (((0 <=? hint_f) && negb (snd s =? hint_f))
           || ((0 <=? hint_r) && negb (fst s =? hint_r)))
  && match is_valid_move b target_piece (fst s) (snd s) to_r to_f is_white capture with
     | Some v => v
     | None => false
     end.

(** The squares that pass the test, in the order of the scan. *)
Definition candidate_squares (b : Board) (t : Target) (is_white : bool) : list (Z * Z) :=
  filter (is_candidate b (target_piece_of t is_white) (t_hint_f t) (t_hint_r t)
            (t_to_r t) (t_to_f t) is_white (t_capture t)) squares.

(** ** Positions used as examples *)

(** A white pawn on e2 and a black knight on f3. *)
Definition pawn_and_knight : Board :=
  board_of_rows
    [ "........"; "........"; "........"; "........";
      "........"; ".....n.."; "....P..."; "........" ]%string.

(** White pawn on e5 beside a black pawn on d5. *)
Definition en_passant_position : Board :=
  board_of_rows
    [ "....k..."; "........"; "........"; "...pP...";
      "........"; "........"; "........"; "....K..." ]%string.

(** White may castle on either side. *)
Definition castling_position : Board :=
  board_of_rows
    [ "r...k..r"; "pppppppp"; "........"; "........";
      "........"; "........"; "PPPPPPPP"; "R...K..R" ]%string.

(** The white king has left e1 for e2; the rook is still on h1. *)
Definition king_off_home_position : Board :=
  board_of_rows
    [ "....k..."; "........"; "........"; "........";
      "........"; "........"; "....K..."; ".......R" ]%string.

(** A white pawn on e7 faces the black rook on e8. *)
Definition blocked_pawn_position : Board :=
  board_of_rows
    [ "k...r..."; "....P..."; "........"; "........";
      "........"; "........"; "........"; "K......." ]%string.

(** A white pawn on e7 in front of the empty square e8. *)
Definition promotion_position : Board :=
  board_of_rows
    [ "k......."; "....P..."; "........"; "........";
      "........"; "........"; "........"; "K......." ]%string.

(** A white knight on e2 shields the king on e1 from the rook on e8;
    the other white knight stands on a1. *)
Definition pinned_knight_position : Board :=
  board_of_rows
    [ "....r..k"; "........"; "........"; "........";
      "........"; "........"; "....N..."; "N...K..." ]%string.

(** The same with the second knight on b1, not on a1; both knights reach c3. *)
Definition two_knights_position : Board :=
  board_of_rows
    [ "....r..k"; "........"; "........"; "........";
      "........"; "........"; "....N..."; ".N..K..." ]%string.

(** Both white knights shield the king: one from the rook on e8, the
    other from the rook on a1; both reach c3. *)
Definition both_pinned_position : Board :=
  board_of_rows
    [ "....r..k"; "........"; "........"; "........";
      "........"; "........"; "....N..."; "rN..K..." ]%string.

(** ** Tokens of a movetext buffer *)

(** The SAN strings that [extract_san_token] makes of the [strtok]
    tokens of the buffer, in order; tokens it rejects give none. *)
Definition san_tokens (move_buffer : string) : list string :=
  flat_map (fun token =>
              match extract_san_token token MOVE_TEXT_LEN with
              | Some san_buf => [san_buf]
              | None => []
              end)
           (strtok (prefix move_buffer 65535)).

Definition not_result (san : string) : Prop := is_result_token san = false.

(** ** Shapes of pseudo-legal moves *)

Definition knight_shape (from_r from_f to_r to_f : Z) : Prop :=
  (Z.abs (to_r - from_r) = 1 /\ Z.abs (to_f - from_f) = 2)
  \/ (Z.abs (to_r - from_r) = 2 /\ Z.abs (to_f - from_f) = 1).

(** Two distinct squares of a common line with nothing between them. *)
Definition clear_line (b : Board) (from_r from_f to_r to_f : Z) : Prop :=
  on_line from_r from_f to_r to_f
  /\ (from_r, from_f) <> (to_r, to_f)
  /\ forall r f, strictly_between from_r from_f to_r to_f r f -> b r f = EMPTY.

(** The direction from which a square reaches the destination, with a
    mark that tells the two knight jumps of a quadrant apart. *)
Definition approach (to_r to_f : Z) (s : Z * Z) : Z * Z * bool :=
  (sign (to_r - fst s), sign (to_f - snd s), Z.abs (to_r - fst s) =? 2).

(** The sixteen values [approach] takes on squares other than the
    destination. *)
Definition approaches : list (Z * Z * bool) :=
  flat_map (fun d => [(fst d, snd d, false); (fst d, snd d, true)])
    [ (-1, -1); (-1, 0); (-1, 1); (0, -1); (0, 1); (1, -1); (1, 0); (1, 1) ].

(** ** Outcome of a speculative move *)

(** Applying [m] for the mover leaves the mover's king out of check. *)
Definition king_safe_after (b : Board) (is_white : bool) (m : Move) : Prop :=
  exists b', apply_move m is_white b = Some b' /\ is_in_check b' is_white = Some false.

(** Applying [m] for the mover leaves the mover's king in check. *)
Definition king_in_check_after (b : Board) (is_white : bool) (m : Move) : Prop :=
  exists b', apply_move m is_white b = Some b' /\ is_in_check b' is_white = Some true.

(** ** Proof automation *)

(** Resolves [Z.min] and [Z.max] whose order [lia] can decide. *)
Ltac minmax :=
  repeat first
    [ rewrite Z.min_l in * by lia | rewrite Z.min_r in * by lia
    | rewrite Z.max_l in * by lia | rewrite Z.max_r in * by lia ].

(** Case analysis on the conditions of the conditionals of the goal. *)
Ltac split_ifs :=
  repeat match goal with
         | |- context [if ?c then _ else _] => destruct c eqn:?
         end.

(** The same for the conditionals of a hypothesis. *)
Ltac split_ifs_in H :=
  repeat match type of H with
         | context [if ?c then _ else _] => destruct c eqn:?
         end.

From Stdlib Require Import Permutation.

(** * Further notions of the rule engine *)

(** The row from which a pawn may advance two squares. *)
Definition pawn_home_row (is_white : bool) : Z := if is_white then 6 else 1.

(** The row from which a pawn may capture en passant. *)
Definition en_passant_row (is_white : bool) : Z := if is_white then 3 else 4.

(** The displacement that the piece letter [p] (upper case) allows. *)
Definition piece_geometry (p : ascii) (is_white : bool) (from_r from_f to_r to_f : Z) : Prop :=
  let dr := Z.abs (to_r - from_r) in
  let df := Z.abs (to_f - from_f) in
  (p = "P"%char
   /\ ((df = 0 /\ (to_r - from_r = forward is_white
                   \/ (to_r - from_r = 2 * forward is_white
                       /\ from_r = pawn_home_row is_white)))
       \/ (df = 1 /\ to_r - from_r = forward is_white)))
  \/ (p = "N"%char /\ knight_shape from_r from_f to_r to_f)
  \/ (p = "B"%char /\ dr = df /\ 0 < dr)
  \/ (p = "R"%char /\ (dr = 0 \/ df = 0) /\ 0 < dr + df)
  \/ (p = "Q"%char /\ (dr = df \/ dr = 0 \/ df = 0) /\ 0 < dr + df)
  \/ (p = "K"%char /\ dr <= 1 /\ df <= 1 /\ 0 < dr + df).

(** The en passant situation that [is_valid_move] tests: the mover's
    pawn stands on its en passant row, the destination is the empty
    square diagonally ahead, and an enemy pawn stands beside the mover on
    the destination file. *)
Definition en_passant_situation (b : Board) (is_white : bool) (from_r from_f to_r to_f : Z)
    : Prop :=
  b to_r to_f = EMPTY
  /\ from_r = en_passant_row is_white
  /\ Z.abs (to_f - from_f) = 1
  /\ to_r - from_r = forward is_white
  /\ b from_r to_f = (if is_white then "p" else "P")%char.

(** [(r, f)] comes before [(r', f')] in the scan of the board. *)
Definition scanned_before (r f r' f' : Z) : Prop := r < r' \/ (r = r' /\ f < f').

Definition scanned_beforeb (s s' : Z * Z) : bool :=
  (fst s <? fst s') || ((fst s =? fst s') && (snd s <? snd s')).

(** Every element of the list comes before the ones after it. *)
Fixpoint scan_sorted (l : list (Z * Z)) : bool :=
  match l with
  | [] => true
  | s :: l' => forallb (scanned_beforeb s) l' && scan_sorted l'
  end.

(** * Replaying a game *)







(** * Movetext *)

(** [s] is [t] with some characters left out. *)
Inductive subsequence : string -> string -> Prop :=
| subsequence_nil : subsequence EmptyString EmptyString
| subsequence_skip (c : ascii) (s t : string) :
    subsequence s t -> subsequence s (String c t)
| subsequence_keep (c : ascii) (s t : string) :
    subsequence s t -> subsequence (String c s) (String c t).

(** No character of [s] is one of [reject]. *)
Fixpoint lacks (reject : string) (s : string) : bool :=
  match s with
  | EmptyString => true
  | String c s' => negb (in_set reject c) && lacks reject s'
  end.

Definition newline_string : string := String newline EmptyString.

(** Every character of [s] satisfies [pred]. *)
Fixpoint all_chars (pred : ascii -> bool) (s : string) : bool :=
  match s with
  | EmptyString => true
  | String c s' => pred c && all_chars pred s'
  end.

Definition not_delim (c : ascii) : bool := negb (is_delim c).

(** What [build_move_list] stores as a move. *)
Definition stored_move (san : string) : Prop :=
  1 <= strlen san <= MOVE_TEXT_LEN - 1
  /\ all_chars not_delim san = true
  /\ lacks "!?" san = true
  /\ char_at san 0 <> "."%char
  /\ is_result_token san = false.

(** * The end of a game *)

(** [loser_from_result]: [Some loser_is_white] for a return of 1,
    [None] for 0. *)
Definition loser_from_result (result : string) : option bool :=
  if String.eqb result "1-0" then Some false
  else if String.eqb result "0-1" then Some true
  else None.

Definition is_draw_result (result : string) : bool := String.eqb result "1/2-1/2".

(** What [play_game] shows after the last move: the loser's king turned
    over, both kings tilted, or nothing. *)
Inductive Ending : Type :=
| FlipKing (loser_is_white : bool)
| TiltKings
| Plain.

(** The ending chosen at the start of [play_game] from the result found
    in the movetext and the one of the header. *)
Definition game_ending (move_buffer header_result : string) : Ending :=
  let result_buf := snd (build_move_list move_buffer MAX_MOVES RESULT_LEN) in
  let result := if negb (is_nul (char_at result_buf 0)) then result_buf else header_result in
  let has_loser :=
    if negb (is_nul (char_at result 0)) then loser_from_result result else None in
  let is_draw :=
    if negb (is_nul (char_at result 0)) then is_draw_result result else false in
  match has_loser with
  | Some loser_is_white => FlipKing loser_is_white
  | None => if is_draw then TiltKings else Plain
  end.

(** The ending that belongs to a result string. *)
Definition ending_of_result (result : string) : Ending :=
  if String.eqb result "1-0" then FlipKing false
  else if String.eqb result "0-1" then FlipKing true
  else if String.eqb result "1/2-1/2" then TiltKings
  else Plain.

(** * PGN files and headers *)

Definition isspace (c : ascii) : bool :=
  (code c =? 32) || ((9 <=? code c) && (code c <=? 13)).

(** A C string holds no NUL before its terminator. *)
Definition c_string (s : string) : bool := all_chars (fun c => negb (is_nul c)) s.

(** Offset of the last [c] in [s], the result of [strrchr(s, c) - s]. *)
Fixpoint strrchr (s : string) (c : ascii) : option Z :=
  match s with
  | EmptyString => None
  | String d s' =>
      match strrchr s' c with
      | Some i => Some (i + 1)
      | None => if (d =? c)%char then Some 0 else None
      end
  end.

Definition has_pgn_extension (name : string) : bool :=
  match strrchr name "." with
  | None => false
  | Some dot =>
      if is_nul (char_at name (dot + 1)) || is_nul (char_at name (dot + 2))
         || is_nul (char_at name (dot + 3)) || negb (is_nul (char_at name (dot + 4)))
      then false
      else (tolower (char_at name (dot + 1)) =? "p")%char
           && (tolower (char_at name (dot + 2)) =? "g")%char
           && (tolower (char_at name (dot + 3)) =? "n")%char
  end.

(** The pointer [s + n], for [n] up to the length of [s]. *)
Fixpoint drop (n : nat) (s : string) {struct n} : string :=
  match n, s with
  | O, _ => s
  | S n', String _ s' => drop n' s'
  | S _, EmptyString => EmptyString
  end.

(** [strncmp(s, t, n) == 0]. *)
Fixpoint strncmp_eq (s t : string) (n : nat) {struct n} : bool :=
  match n with
  | O => true
  | S n' =>
      match s, t with
      | EmptyString, EmptyString => true
      | String a s', String b t' => (a =? b)%char && strncmp_eq s' t' n'
      | _, _ => false
      end
  end.

(** The double quote character. *)
Definition quote : ascii := ascii_of_nat 34.

Definition quote_string : string := String quote EmptyString.

(** [parse_tag_value]: [Some out] for a return of 1, [None] for a
    return of 0, which leaves [out] as it was. *)
Definition parse_tag_value (line tag : string) (out_size : Z) : option string :=
  let tag_len := strlen tag in
  if negb (strncmp_eq line "[" 1) then None
  else if negb (strncmp_eq (drop 1 line) tag (Z.to_nat tag_len)) then None
  else if negb (isspace (char_at line (1 + tag_len))) then None
  else
    match strchr line quote with
    | None => None
    | Some first_quote =>
        let value := drop (Z.to_nat (first_quote + 1)) line in
        match strchr value quote with
        | None => None
        | Some len =>
            let len := if out_size <=? len then out_size - 1 else len in
            Some (prefix value len)
        end
    end.

Definition NAME_LEN : Z := 128.

Definition YEAR_LEN : Z := 5.

(** [extract_year]: the contents of [out] after the call. *)
Definition extract_year (out : string) (out_size : Z) (date : string) : string :=
  if out_size =? 0 then out
  else if strlen date <? 4 then EmptyString
  else if negb (isdigit (char_at date 0)) then EmptyString
  else if negb (isdigit (char_at date 1)) then EmptyString
  else if negb (isdigit (char_at date 2)) then EmptyString
  else if negb (isdigit (char_at date 3)) then EmptyString
  else if out_size <? 5 then EmptyString
  else prefix date 4.

(** The loop that moves [name_end] back from the comma over white space:
    the length that is left of the [n] characters before the comma. *)
Fixpoint trim_end (name_start : string) (n : nat) : nat :=
  match n with
  | O => O
  | S n' => if isspace (char_at name_start (Z.of_nat n')) then trim_end name_start n' else n
  end.

(** The loop over the words of a name without comma: [last_word] when
    the read pointer is [p]. *)
Fixpoint last_word_loop (p last_word : string) : string :=
  match p with
  | EmptyString => last_word
  | String c p' =>
      if isspace c then last_word_loop p' last_word
      else
        (fix word (q : string) : string :=
           match q with
           | EmptyString => p
           | String d q' => if isspace d then last_word_loop q p else word q'
           end) p'
  end.

Definition not_space (c : ascii) : bool := negb (isspace c).

(** Number of characters up to the first one that fails [pred]. *)
Fixpoint span (pred : ascii -> bool) (s : string) : Z :=
  match s with
  | EmptyString => 0
  | String c s' => if pred c then 1 + span pred s' else 0
  end.

(** [set_last_name]: the contents of [out] after the call. *)
Definition set_last_name (out : string) (out_size : Z) (full : string) : string :=
  if out_size =? 0 then out
  else
    let start := skip_while isspace full in
    match start with
    | EmptyString => EmptyString
    | _ =>
        let '(name_start, len) :=
          match strchr start "," with
          | Some comma => (start, Z.of_nat (trim_end start (Z.to_nat comma)))
          | None =>
              let last_word := last_word_loop start start in
              (last_word, span not_space last_word)
          end in
        let len := if out_size <=? len then out_size - 1 else len in
        prefix name_start len
    end.

(** The last character of a string. *)
Definition last_char (s : string) : ascii := char_at s (strlen s - 1).

(** [s] is empty or ends in white space: a word may begin behind it. *)
Definition ends_at_gap (s : string) : bool :=
  (strlen s =? 0) || isspace (last_char s).

(** * Drawing *)

Definition SCREEN_SIZE : Z := 800.

Record BoardView : Type := mkBoardView {
  square : Z;
  offset_x : Z;
  offset_y : Z;
  screen_w : Z;
  screen_h : Z;
  board_px : Z
}.

(** [get_board_view]; [output_size] is the size that
    [SDL_GetRendererOutputSize] reports, [None] when it fails. *)
Definition get_board_view (output_size : option (Z * Z)) : BoardView :=
  let '(screen_w, screen_h) :=
    match output_size with
    | Some size => size
    | None => (SCREEN_SIZE, SCREEN_SIZE)
    end in
  let min_dim := if screen_w <? screen_h then screen_w else screen_h in
  let square := Z.quot min_dim BOARD_SIZE in
  let square := if square <? 1 then 1 else square in
  let board_px := square * BOARD_SIZE in
  mkBoardView square (Z.quot (screen_w - board_px) 2) (Z.quot (screen_h - board_px) 2)
    screen_w screen_h board_px.

(** [board_to_screen]: the pair [(x, y)] written to [out_x], [out_y]. *)
Definition board_to_screen (view_from_white : bool) (view : BoardView)
    (board_r board_f : Z) : Z * Z :=
  let draw_r := if view_from_white then board_r else BOARD_SIZE - 1 - board_r in
  let draw_f := if view_from_white then board_f else BOARD_SIZE - 1 - board_f in
  (offset_x view + draw_f * square view, offset_y view + draw_r * square view).

(** The colour test of [render_board]: [true] for the light colour. *)
Definition light_square (row col : Z) : bool := Z.rem (row + col) 2 =? 0.

(** * Loading games *)

Record Game : Type := mkGame {
  moves : string;
  white : string;
  black : string;
  year : string;
  result : string
}.

(** [(s && s[0]) ? s : fallback] for a string that is not [NULL]. *)
Definition or_default (s fallback : string) : string :=
  if negb (is_nul (char_at s 0)) then s else fallback.

(** [push_game] when the allocations succeed: the game list after the
    call. *)
Definition push_game (games : list Game)
    (move_buffer white black year result : string) : list Game :=
  games ++ [mkGame move_buffer
              (prefix (or_default white "White") (NAME_LEN - 1))
              (prefix (or_default black "Black") (NAME_LEN - 1))
              (prefix (or_default year EmptyString) (YEAR_LEN - 1))
              (prefix (or_default result EmptyString) (RESULT_LEN - 1))].

(** [strncat(dest, src, n)]. *)
Definition strncat (dest src : string) (n : Z) : string := (dest ++ prefix src n)%string.

(** The size of [move_buffer] in [load_games]. *)
Definition MOVE_BUFFER_SIZE : Z := 65536.

(** The local variables of [load_games]. *)
Record Loader : Type := mkLoader {
  games : list Game;
  move_buffer : string;
  current_white : string;
  current_black : string;
  current_date : string;
  current_year : string;
  current_result : string;
  in_game : bool
}.

Definition loader_start : Loader :=
  mkLoader [] EmptyString EmptyString EmptyString EmptyString EmptyString EmptyString false.

(** [parse_tag_value] on a buffer: a failed call leaves the buffer. *)
Definition read_tag (line tag : string) (out : string) (out_size : Z) : string :=
  match parse_tag_value line tag out_size with
  | Some value => value
  | None => out
  end.

(** The body of the [while (fgets(...))] loop of [load_games] for one
    line, when the allocations succeed. *)
Definition load_line (st : Loader) (line : string) : Loader :=
  let line := clean_line line in
  let trim := skip_while isspace line in
  if strncmp_eq trim "[Event" 6 then
    if in_game st && negb (is_nul (char_at (move_buffer st) 0)) then
      mkLoader
        (push_game (games st) (move_buffer st) (current_white st) (current_black st)
           (current_year st) (current_result st))
        EmptyString EmptyString EmptyString EmptyString EmptyString EmptyString true
    else
      mkLoader (games st) (move_buffer st)
        EmptyString EmptyString EmptyString EmptyString EmptyString true
  else if in_game st && (char_at trim 0 =? "[")%char then
    let white := read_tag trim "White" (current_white st) NAME_LEN in
    let black := read_tag trim "Black" (current_black st) NAME_LEN in
    let '(date, year) :=
      match parse_tag_value trim "Date" NAME_LEN with
      | Some date => (date, extract_year (current_year st) YEAR_LEN date)
      | None => (current_date st, current_year st)
      end in
    let result := read_tag trim "Result" (current_result st) RESULT_LEN in
    mkLoader (games st) (move_buffer st) white black date year result (in_game st)
  else if in_game st && negb (char_at trim 0 =? "[")%char && negb (is_nul (char_at trim 0)) then
    let buffer := strncat (move_buffer st) " "
                    (MOVE_BUFFER_SIZE - strlen (move_buffer st) - 1) in
    let buffer := strncat buffer trim (MOVE_BUFFER_SIZE - strlen buffer - 1) in
    mkLoader (games st) buffer (current_white st) (current_black st) (current_date st)
      (current_year st) (current_result st) (in_game st)
  else st.

(** [load_games] when the allocations succeed: the games it returns for
    the lines that the successive [fgets] calls deliver. *)
Definition load_games (lines : list string) : list Game :=
  let st := fold_left load_line lines loader_start in
  if in_game st && negb (is_nul (char_at (move_buffer st) 0)) then
    push_game (games st) (move_buffer st) (current_white st) (current_black st)
      (current_year st) (current_result st)
  else games st.

(** Whether a line opens a game in [load_games]. *)
Definition event_line (line : string) : bool :=
  strncmp_eq (skip_while isspace (clean_line line)) "[Event" 6.

(** What a stored game looks like. *)
Definition stored_game (g : Game) : Prop :=
  (1 <= strlen (moves g) <= MOVE_BUFFER_SIZE - 1 /\ char_at (moves g) 0 = " "%char)
  /\ 1 <= strlen (white g) <= NAME_LEN - 1
  /\ 1 <= strlen (black g) <= NAME_LEN - 1
  /\ (year g = EmptyString \/ (strlen (year g) = 4 /\ all_chars isdigit (year g) = true))
  /\ strlen (result g) <= RESULT_LEN - 1.

(** The text that a line adds to the move buffer: a space and the
    cleaned line without its leading white space, nothing for a blank
    line. *)
Definition movetext_of_line (line : string) : string :=
  let trim := skip_while isspace (clean_line line) in
  if is_nul (char_at trim 0) then EmptyString else (" " ++ trim)%string.

Fixpoint movetext (body : list string) : string :=
  match body with
  | [] => EmptyString
  | line :: rest => (movetext_of_line line ++ movetext rest)%string
  end.

(** A line that is neither an event line nor a header line. *)
Definition movetext_line (line : string) : bool :=
  negb (event_line line)
  && negb (char_at (skip_while isspace (clean_line line)) 0 =? "[")%char.

(** The number of event lines among [lines]. *)
Definition count_events (lines : list string) : nat :=
  length (filter event_line lines).

(** * Shuffling *)

(** [games[n] = x], inside the array. *)
Fixpoint store {A : Type} (games : list A) (n : nat) (x : A) : list A :=
  match games, n with
  | [], _ => []
  | _ :: rest, O => x :: rest
  | g :: rest, S n' => g :: store rest n' x
  end.

(** The three assignments that exchange [games[i]] and [games[j]];
    [None] when an index lies outside the array. *)
Definition exchange {A : Type} (games : list A) (i j : Z) : option (list A) :=
  if (i <? 0) || (j <? 0) then None
  else
    match nth_error games (Z.to_nat i), nth_error games (Z.to_nat j) with
    | Some tmp, Some gj => Some (store (store games (Z.to_nat i) gj) (Z.to_nat j) tmp)
    | _, _ => None
    end.

(** The loop of [shuffle_games] from index [i] down; [rand] gives the
    results of the successive calls of [rand()], of which [calls] have
    been made. *)
Fixpoint shuffle_loop {A : Type} (rand : nat -> Z) (calls : nat) (i : nat)
    (games : list A) : option (list A) :=
  match i with
  | O => Some games
  | S i' =>
      let j := Z.rem (rand calls) (Z.of_nat i + 1) in
      games <- exchange games (Z.of_nat i) j ;;
      shuffle_loop rand (S calls) i' games
  end.

Definition shuffle_games {A : Type} (rand : nat -> Z) (games : list A) (count : Z)
    : option (list A) :=
  shuffle_loop rand 0 (Z.to_nat (count - 1)) games.

(** * Properties *)

(** ** The board *)

Lemma on_board_iff (r f : Z) :
  on_board r f = true <-> 0 <= r < 8 /\ 0 <= f < 8.
Proof. unfold on_board, BOARD_SIZE. lia. Qed.

Lemma rd_on_board (b : Board) (r f : Z) :
  on_board r f = true -> rd b r f = Some (b r f).
Proof. intros H. unfold rd. rewrite H. reflexivity. Qed.

Lemma wr_on_board (b : Board) (r f : Z) (c : ascii) :
  on_board r f = true -> wr b r f c = Some (upd b r f c).
Proof. intros H. unfold wr. rewrite H. reflexivity. Qed.

Lemma upd_other (b : Board) (r f : Z) (c : ascii) (r' f' : Z) :
  (r', f') <> (r, f) -> upd b r f c r' f' = b r' f'.
Proof.
  intros H. unfold upd.
  destruct (r' =? r) eqn:Er; [|reflexivity].
  destruct (f' =? f) eqn:Ef; [|reflexivity].
  apply Z.eqb_eq in Er, Ef. subst. contradiction.
Qed.

Lemma in_indices (i : Z) : In i indices <-> 0 <= i < 8.
Proof. unfold indices. cbn [In]. lia. Qed.

Lemma in_squares (r f : Z) : In (r, f) squares <-> on_board r f = true.
Proof.
  rewrite on_board_iff. unfold squares. rewrite in_flat_map. split.
  - intros [r' [Hr H]]. apply in_map_iff in H. destruct H as [f' [E Hf]].
    inversion E; subst. apply in_indices in Hr, Hf. lia.
  - intros [Hr Hf]. exists r. split; [apply in_indices; exact Hr|].
    apply in_map_iff. exists f. split; [reflexivity | apply in_indices; exact Hf].
Qed.

Lemma pair_neq (r f r' f' : Z) : (r, f) <> (r', f') <-> r <> r' \/ f <> f'.
Proof.
  split.
  - intros H. destruct (Z.eq_dec r r') as [->|Hr]; [|left; exact Hr].
    destruct (Z.eq_dec f f') as [->|Hf]; [|right; exact Hf]. contradiction.
  - intros H E. inversion E. lia.
Qed.

(** ** Path clearance *)

Lemma sign_cases (x : Z) :
  (x < 0 /\ sign x = -1) \/ (x = 0 /\ sign x = 0) \/ (0 < x /\ sign x = 1).
Proof. unfold sign. destruct (0 <? x) eqn:E1; destruct (x <? 0) eqn:E2; lia. Qed.

(** The loop either finds every visited square empty, or stops at an
    occupied one; it stays on the board when the visited squares do. *)
Lemma path_loop_spec (b : Board) (from_r from_f dr df : Z) (n : nat) :
  forall i : Z,
    (forall k, i <= k < i + Z.of_nat n ->
               on_board (from_r + k * dr) (from_f + k * df) = true) ->
    (path_loop b from_r from_f dr df i n = Some true
     /\ forall k, i <= k < i + Z.of_nat n ->
                  b (from_r + k * dr) (from_f + k * df) = EMPTY)
    \/ (path_loop b from_r from_f dr df i n = Some false
        /\ exists k, i <= k < i + Z.of_nat n
                     /\ b (from_r + k * dr) (from_f + k * df) <> EMPTY).
Proof.
  induction n as [|n IH]; intros i Hon.
  - left. split; [reflexivity | intros k Hk; lia].
  - cbn [path_loop]. rewrite rd_on_board by (apply Hon; lia). cbn [bind].
    destruct (b (from_r + i * dr) (from_f + i * df) =? ".")%char eqn:E; cbn [negb].
    + apply Ascii.eqb_eq in E.
      destruct (IH (i + 1)) as [[H1 H2] | [H1 [k [Hk H2]]]].
      * intros k Hk. apply Hon. lia.
      * left. split; [exact H1|]. intros k Hk.
        destruct (Z.eq_dec k i) as [->|Hne]; [exact E | apply H2; lia].
      * right. split; [exact H1|]. exists k. split; [lia | exact H2].
    + apply Ascii.eqb_neq in E. right. split; [reflexivity|].
      exists i. split; [lia | exact E].
Qed.

(** On a rank, file or diagonal the squares strictly between the two
    ends are those that the loop of [is_path_clear] visits. *)
Lemma strictly_between_steps (from_r from_f to_r to_f r f : Z) :
  on_line from_r from_f to_r to_f ->
  strictly_between from_r from_f to_r to_f r f <->
  exists k, 1 <= k < path_steps from_r from_f to_r to_f
            /\ r = from_r + k * sign (to_r - from_r)
            /\ f = from_f + k * sign (to_f - from_f).
Proof.
  intros Hline. unfold strictly_between, path_steps. rewrite !pair_neq.
  remember (to_r - from_r) as a eqn:Ea. remember (to_f - from_f) as c eqn:Ec.
  assert (Hr : to_r = from_r + a) by lia. assert (Hf : to_f = from_f + c) by lia.
  assert (Hac : a = 0 \/ c = 0 \/ c = a \/ c = - a)
    by (unfold on_line in Hline; lia).
  clear Ea Ec Hline. subst to_r to_f.
  destruct (sign_cases a) as [[Ha ->]|[[Ha ->]|[Ha ->]]];
  destruct (sign_cases c) as [[Hc ->]|[[Hc ->]|[Hc ->]]];
  cbn [Z.eqb]; try subst a; try subst c;
  try (assert (Hd : c = a \/ c = - a) by lia);
  minmax.
  all: split;
    [ intros (Hx & Hbr & Hbf & Hn1 & Hn2)
    | intros (k & Hk & -> & ->) ].
  all: try (destruct Hd as [-> | ->];
            [ assert (r - from_r = f - from_f)
                by (apply (Z.mul_reg_r _ _ a); [lia | exact Hx])
            | assert (r - from_r = - (f - from_f))
                by (apply (Z.mul_reg_r _ _ a); [lia | lia]) ]).
  all: try (exists (Z.abs (r - from_r)); lia).
  all: try (exists (Z.abs (f - from_f)); lia).
  all: try (destruct Hd as [-> | ->]).
  all: try lia.
Qed.

Lemma strictly_between_on_board (from_r from_f to_r to_f r f : Z) :
  on_board from_r from_f = true -> on_board to_r to_f = true ->
  strictly_between from_r from_f to_r to_f r f -> on_board r f = true.
Proof.
  rewrite !on_board_iff. unfold strictly_between. lia.
Qed.

(** [is_path_clear] between two squares of a line of the board: it
    answers, and says whether the squares strictly between are empty. *)
Lemma is_path_clear_spec (b : Board) (from_r from_f to_r to_f : Z) :
  on_board from_r from_f = true -> on_board to_r to_f = true ->
  on_line from_r from_f to_r to_f ->
  (is_path_clear b from_r from_f to_r to_f = Some true
   /\ forall r f, strictly_between from_r from_f to_r to_f r f -> b r f = EMPTY)
  \/ (is_path_clear b from_r from_f to_r to_f = Some false
      /\ exists r f, strictly_between from_r from_f to_r to_f r f /\ b r f <> EMPTY).
Proof.
  intros Hfrom Hto Hline. unfold is_path_clear.
  set (steps := path_steps from_r from_f to_r to_f).
  assert (Hrange : forall k, 1 <= k < 1 + Z.of_nat (Z.to_nat (steps - 1)) <-> 1 <= k < steps)
    by (intros k; lia).
  assert (Hvisit : forall k, 1 <= k < steps ->
            strictly_between from_r from_f to_r to_f
              (from_r + k * sign (to_r - from_r)) (from_f + k * sign (to_f - from_f))).
  { intros k Hk. apply strictly_between_steps; [exact Hline|].
    exists k. repeat split; lia. }
  destruct (path_loop_spec b from_r from_f (sign (to_r - from_r)) (sign (to_f - from_f))
              (Z.to_nat (steps - 1)) 1) as [[H1 H2] | [H1 [k [Hk H2]]]].
  - intros k Hk. apply Hrange in Hk.
    eapply strictly_between_on_board; [exact Hfrom | exact Hto | apply Hvisit; exact Hk].
  - left. split; [exact H1|]. intros r f Hb.
    apply strictly_between_steps in Hb; [|exact Hline].
    destruct Hb as (k & Hk & -> & ->). apply H2. apply Hrange. exact Hk.
  - right. split; [exact H1|]. apply Hrange in Hk.
    eexists; eexists; split; [apply Hvisit; exact Hk | exact H2].
Qed.

(** C6. On a rank, file or diagonal of the board [is_path_clear] answers
    1 exactly when every square strictly between origin and destination
    is empty, and [is_valid_move] rejects a bishop, rook or queen move
    as soon as one of those squares, whichever it is, is occupied. *)
Theorem sliding_path_clear (b : Board) (from_r from_f to_r to_f : Z)
    (Hfrom : on_board from_r from_f = true) (Hto : on_board to_r to_f = true)
    (Hline : on_line from_r from_f to_r to_f) :
  (exists v, is_path_clear b from_r from_f to_r to_f = Some v)
  /\ (is_path_clear b from_r from_f to_r to_f = Some true
      <-> forall r f, strictly_between from_r from_f to_r to_f r f -> b r f = EMPTY)
  /\ (forall piece is_white capture r f,
        is_slider piece ->
        strictly_between from_r from_f to_r to_f r f -> b r f <> EMPTY ->
        is_valid_move b piece from_r from_f to_r to_f is_white capture = Some false).
Proof.
  destruct (is_path_clear_spec b from_r from_f to_r to_f Hfrom Hto Hline)
    as [[H1 H2] | [H1 (r & f & Hb & Hocc)]].
  - split; [eexists; exact H1|]. split; [split; [intros _; exact H2 | intros _; exact H1]|].
    intros piece w cap r f _ Hb Hocc. elim Hocc. apply H2. exact Hb.
  - split; [eexists; exact H1|]. split.
    + split; [rewrite H1; discriminate|]. intros H. elim Hocc. apply H. exact Hb.
    + intros piece w cap r' f' Hs _ _. unfold is_valid_move.
      rewrite (rd_on_board b to_r to_f Hto). cbn [bind]. unfold movement.
      rewrite H1.
      destruct Hs as [<- | [<- | [<- | []]]]; cbn [Ascii.eqb Bool.eqb];
        match goal with
        | |- context [if ?c then Some false else Some false] =>
            destruct c; reflexivity
        end.
Qed.

Lemma sliding_path_clear_witness :
  (exists v, is_path_clear init_board 7 0 4 0 = Some v)
  /\ (is_path_clear init_board 7 0 4 0 = Some true
      <-> forall r f, strictly_between 7 0 4 0 r f -> init_board r f = EMPTY)
  /\ (forall piece is_white capture r f,
        is_slider piece ->
        strictly_between 7 0 4 0 r f -> init_board r f <> EMPTY ->
        is_valid_move init_board piece 7 0 4 0 is_white capture = Some false).
Proof.
  apply (sliding_path_clear init_board 7 0 4 0);
    [reflexivity | reflexivity | right; left; reflexivity].
Defined.

(** ** The validator stays on the board *)

Lemma movement_defined (b : Board) (p : ascii) (from_r from_f to_r to_f : Z)
    (is_white capture is_empty is_enemy : bool) :
  on_board from_r from_f = true -> on_board to_r to_f = true ->
  exists v, movement b p from_r from_f to_r to_f is_white capture is_empty is_enemy = Some v.
Proof.
  intros Hfrom Hto.
  assert (Hpath : on_line from_r from_f to_r to_f ->
                  exists v, is_path_clear b from_r from_f to_r to_f = Some v).
  { intros Hline.
    destruct (is_path_clear_spec b from_r from_f to_r to_f Hfrom Hto Hline)
      as [[H _] | [H _]]; eexists; exact H. }
  assert (Hep : on_board from_r to_f = true)
    by (apply on_board_iff; apply on_board_iff in Hfrom, Hto; lia).
  unfold movement.
  repeat match goal with
         | |- context [if ?c then _ else _] => destruct c eqn:?
         end;
    try (eexists; reflexivity);
    try (apply Hpath; unfold on_line; lia).
  all: try (rewrite (rd_on_board b _ _ Hep); cbn [bind]; eexists; reflexivity).
Qed.

Lemma is_valid_move_defined (b : Board) (piece : ascii) (from_r from_f to_r to_f : Z)
    (is_white capture : bool) :
  on_board from_r from_f = true -> on_board to_r to_f = true ->
  exists v, is_valid_move b piece from_r from_f to_r to_f is_white capture = Some v.
Proof.
  intros Hfrom Hto. unfold is_valid_move.
  rewrite (rd_on_board b _ _ Hto). cbn [bind].
  match goal with
  | |- context [movement ?b ?p ?fr ?ff ?tr ?tf ?w ?c ?e ?en] =>
      destruct (movement_defined b p fr ff tr tf w c e en Hfrom Hto) as [v ->]
  end.
  cbn [bind]. destruct v; [destruct capture|]; eexists; reflexivity.
Qed.

(** ** Check detection *)

Lemma find_king_pos_some (b : Board) (king : ascii) (r f : Z) :
  find_king_pos b king = Some (r, f) -> on_board r f = true /\ b r f = king.
Proof.
  intros H. apply find_some in H. destruct H as [Hin Heq].
  split; [apply in_squares; exact Hin | apply Ascii.eqb_eq; exact Heq].
Qed.

Lemma find_king_pos_none (b : Board) (king : ascii) :
  find_king_pos b king = None <-> forall r f, on_board r f = true -> b r f <> king.
Proof.
  split.
  - intros H r f Hon. apply Ascii.eqb_neq.
    apply (find_none _ _ H (r, f)). apply in_squares. exact Hon.
  - intros H. unfold find_king_pos.
    destruct (find _ squares) as [[r f]|] eqn:E; [|reflexivity].
    apply find_king_pos_some in E. destruct E as [Hon Heq].
    elim (H r f Hon Heq).
Qed.

Lemma find_king_pos_present (b : Board) (king : ascii) (r f : Z) :
  on_board r f = true -> b r f = king ->
  exists king_r king_f, find_king_pos b king = Some (king_r, king_f).
Proof.
  intros Hon Heq. destruct (find_king_pos b king) as [[kr kf]|] eqn:E.
  - exists kr, kf. reflexivity.
  - elim (proj1 (find_king_pos_none b king) E r f Hon Heq).
Qed.

Lemma check_loop_spec (b : Board) (king_r king_f : Z) (opponent_is_white : bool)
    (Hking : on_board king_r king_f = true) (l : list (Z * Z)) :
  (forall r f, In (r, f) l -> on_board r f = true) ->
  (check_loop b king_r king_f opponent_is_white l = Some true
   /\ exists r f, In (r, f) l /\ attacks b opponent_is_white king_r king_f r f)
  \/ (check_loop b king_r king_f opponent_is_white l = Some false
      /\ forall r f, In (r, f) l -> ~ attacks b opponent_is_white king_r king_f r f).
Proof.
  induction l as [|[r f] l IH]; intros Hon.
  - right. split; [reflexivity | intros r f []].
  - assert (Hrf : on_board r f = true) by (apply Hon; left; reflexivity).
    assert (Hl : forall r f, In (r, f) l -> on_board r f = true)
      by (intros r' f' Hin; apply Hon; right; exact Hin).
    specialize (IH Hl). cbn [check_loop].
    assert (Hrest :
      ~ attacks b opponent_is_white king_r king_f r f ->
      (check_loop b king_r king_f opponent_is_white l = Some true /\
       exists r0 f0, In (r0, f0) ((r, f) :: l)
                     /\ attacks b opponent_is_white king_r king_f r0 f0)
      \/ (check_loop b king_r king_f opponent_is_white l = Some false /\
          forall r0 f0, In (r0, f0) ((r, f) :: l) ->
                        ~ attacks b opponent_is_white king_r king_f r0 f0)).
    { intros Hno. destruct IH as [[H1 (r0 & f0 & Hin & Hatt)] | [H1 H2]].
      - left. split; [exact H1|]. exists r0, f0. split; [right; exact Hin | exact Hatt].
      - right. split; [exact H1|]. intros r0 f0 [E | Hin].
        + inversion E; subst. exact Hno.
        + apply H2. exact Hin. }
    destruct (b r f =? ".")%char eqn:Eempty; cbn [orb].
    { apply Hrest. intros (_ & [Hne _] & _). apply Ascii.eqb_eq in Eempty.
      contradiction. }
    destruct (Bool.eqb (is_white_piece (b r f)) opponent_is_white) eqn:Ecol; cbn [negb].
    2:{ apply Hrest. intros (_ & [_ Hc] & _). rewrite Hc, Bool.eqb_reflx in Ecol.
        discriminate. }
    destruct (is_valid_move_defined b (b r f) r f king_r king_f opponent_is_white true
                Hrf Hking) as [v Hv].
    rewrite Hv. cbn [bind]. destruct v.
    + left. split; [reflexivity|]. exists r, f. split; [left; reflexivity|].
      split; [exact Hrf|]. split; [|exact Hv]. split.
      * apply Ascii.eqb_neq. exact Eempty.
      * apply Bool.eqb_prop. exact Ecol.
    + apply Hrest. intros (_ & _ & Hval). rewrite Hv in Hval. discriminate.
Qed.

(** With the king found, the second scan decides the answer. *)
Lemma is_in_check_found (b : Board) (is_white : bool) (king_r king_f : Z) :
  find_king_pos b (king_of is_white) = Some (king_r, king_f) ->
  (exists v, is_in_check b is_white = Some v)
  /\ (is_in_check b is_white = Some true
      <-> exists r' f', attacks b (negb is_white) king_r king_f r' f').
Proof.
  intros Hfind. unfold is_in_check. fold (king_of is_white).
  rewrite Hfind. destruct (find_king_pos_some _ _ _ _ Hfind) as [Hking _].
  assert (Hsq : forall r f, In (r, f) squares -> on_board r f = true)
    by (intros r f; apply in_squares).
  destruct (check_loop_spec b king_r king_f (negb is_white) Hking squares Hsq)
    as [[H1 (r & f & _ & Hatt)] | [H1 H2]]; rewrite H1.
  - split; [eexists; reflexivity|]. split; [intros _; exists r, f; exact Hatt | reflexivity].
  - split; [eexists; reflexivity|]. split; [discriminate|].
    intros (r & f & Hatt). elim (H2 r f); [|exact Hatt].
    apply in_squares. apply Hatt.
Qed.

Lemma is_in_check_defined (b : Board) (is_white : bool) :
  exists v, is_in_check b is_white = Some v.
Proof.
  destruct (find_king_pos b (king_of is_white)) as [[king_r king_f]|] eqn:E.
  - apply (is_in_check_found b is_white king_r king_f E).
  - unfold is_in_check. fold (king_of is_white). rewrite E. eexists; reflexivity.
Qed.

(** C8. [is_in_check] always answers.  On a board without a king of the
    colour asked for it answers 0.  When there is one, it answers 1
    exactly when some piece of the other colour has a pseudo-legal
    capture onto the square of the king that the scan finds first. *)
Theorem is_in_check_spec (b : Board) (is_white : bool) :
  (exists v, is_in_check b is_white = Some v)
  /\ ((forall r f, on_board r f = true -> b r f <> king_of is_white) ->
      is_in_check b is_white = Some false)
  /\ (forall r f, on_board r f = true -> b r f = king_of is_white ->
      exists king_r king_f,
        find_king_pos b (king_of is_white) = Some (king_r, king_f)
        /\ on_board king_r king_f = true
        /\ b king_r king_f = king_of is_white
        /\ (is_in_check b is_white = Some true
            <-> exists r' f', attacks b (negb is_white) king_r king_f r' f')).
Proof.
  split; [apply is_in_check_defined|]. split.
  - intros Hnone. apply find_king_pos_none in Hnone.
    unfold is_in_check. fold (king_of is_white). rewrite Hnone. reflexivity.
  - intros r f Hon Heq.
    destruct (find_king_pos_present b _ r f Hon Heq) as (king_r & king_f & Hfind).
    exists king_r, king_f. split; [exact Hfind|].
    destruct (find_king_pos_some _ _ _ _ Hfind) as [Hk1 Hk2].
    split; [exact Hk1|]. split; [exact Hk2|].
    apply (is_in_check_found b is_white king_r king_f Hfind).
Qed.

(** ** Applying a move *)

Lemma bind_some {A B : Type} (x : option A) (k : A -> option B) (y : B) :
  bind x k = Some y -> exists a, x = Some a /\ k a = Some y.
Proof. destruct x as [a|]; [intros H; exists a; split; [reflexivity | exact H] | discriminate]. Qed.

Lemma rd_some (b : Board) (r f : Z) (c : ascii) :
  rd b r f = Some c -> on_board r f = true /\ c = b r f.
Proof.
  unfold rd. destruct (on_board r f); [|discriminate].
  intros H. inversion H. split; reflexivity.
Qed.

Lemma wr_some (b : Board) (r f : Z) (c : ascii) (b' : Board) :
  wr b r f c = Some b' -> on_board r f = true /\ b' = upd b r f c.
Proof.
  unfold wr. destruct (on_board r f); [|discriminate].
  intros H. inversion H. split; reflexivity.
Qed.


(** [apply_move] on squares of the board, as a chain of writes. *)
Lemma apply_move_unfold (m : Move) (is_white : bool) (b b' : Board) :
  apply_move m is_white b = Some b' ->
  on_board (from_r m) (from_f m) = true
  /\ on_board (to_r m) (to_f m) = true
  /\ exists b1,
       (if pawn_takes_empty m b
        then on_board (to_r m - forward is_white) (to_f m) = true
             /\ b1 = upd b (to_r m - forward is_white) (to_f m) "."
        else b1 = b)
       /\ let b3 := upd (upd b1 (to_r m) (to_f m) (placed m is_white b))
                        (from_r m) (from_f m) "." in
          if king_shifts_two m b
          then b' = upd (upd b3 (from_r m) (if to_f m >? from_f m then 5 else 3)
                               (if is_white then "R" else "r")%char)
                        (from_r m) (if to_f m >? from_f m then 7 else 0) "."
          else b' = b3.
Proof.
  unfold apply_move. intros H.
  apply bind_some in H. destruct H as (piece & Hp & H). apply rd_some in Hp.
  destruct Hp as [Hfrom ->].
  apply bind_some in H. destruct H as (captured & Hc & H). apply rd_some in Hc.
  destruct Hc as [Hto ->].
  apply bind_some in H. destruct H as (b1 & H1 & H).
  apply bind_some in H. destruct H as (b2 & H2 & H). apply wr_some in H2.
  destruct H2 as [_ ->].
  apply bind_some in H. destruct H as (b3 & H3 & H). apply wr_some in H3.
  destruct H3 as [_ ->].
  split; [exact Hfrom|]. split; [exact Hto|]. exists b1. split.
  - unfold pawn_takes_empty, forward.
    destruct ((toupper (b (from_r m) (from_f m)) =? "P")%char
              && (Z.abs (from_f m - to_f m) =? 1)
              && (b (to_r m) (to_f m) =? ".")%char).
    + apply wr_some in H1. exact H1.
    + inversion H1. reflexivity.
  - cbv zeta. unfold king_shifts_two, placed.
    destruct ((toupper (b (from_r m) (from_f m)) =? "K")%char
              && (Z.abs (from_f m - to_f m) =? 2)).
    + apply bind_some in H. destruct H as (b4 & H4 & H5).
      apply wr_some in H4. destruct H4 as [_ ->].
      apply wr_some in H5. destruct H5 as [_ ->]. reflexivity.
    + inversion H. reflexivity.
Qed.

Lemma apply_move_defined (m : Move) (is_white : bool) (b : Board) :
  (forall r f, In (r, f) (touched m is_white b) -> on_board r f = true) ->
  exists b', apply_move m is_white b = Some b'.
Proof.
  intros Hon. unfold touched in Hon.
  assert (Hfrom : on_board (from_r m) (from_f m) = true)
    by (apply Hon; left; reflexivity).
  assert (Hto : on_board (to_r m) (to_f m) = true)
    by (apply Hon; right; left; reflexivity).
  unfold apply_move. rewrite (rd_on_board _ _ _ Hfrom), (rd_on_board _ _ _ Hto).
  cbn [bind]. fold (forward is_white).
  change ((toupper (b (from_r m) (from_f m)) =? "P")%char
          && (Z.abs (from_f m - to_f m) =? 1)
          && (b (to_r m) (to_f m) =? ".")%char) with (pawn_takes_empty m b).
  change ((toupper (b (from_r m) (from_f m)) =? "K")%char
          && (Z.abs (from_f m - to_f m) =? 2)) with (king_shifts_two m b).
  assert (Hb1 : exists b1,
             (if pawn_takes_empty m b
              then wr b (to_r m - forward is_white) (to_f m) "."
              else Some b) = Some b1).
  { destruct (pawn_takes_empty m b) eqn:Ep.
    - rewrite wr_on_board; [eexists; reflexivity|].
      apply Hon. cbn [app In]. right; right. left. reflexivity.
    - eexists; reflexivity. }
  destruct Hb1 as [b1 ->]. cbn [bind].
  rewrite (wr_on_board _ _ _ _ Hto). cbn [bind].
  rewrite (wr_on_board _ _ _ _ Hfrom). cbn [bind].
  destruct (king_shifts_two m b) eqn:Ek; [|eexists; reflexivity].
  assert (Hrook : forall c, on_board (from_r m) c = true \/ ~ (0 <= c < 8)).
  { intros c. destruct (on_board (from_r m) c) eqn:E; [left; reflexivity|right].
    intros Hc. apply on_board_iff in Hfrom.
    assert (on_board (from_r m) c = true) by (apply on_board_iff; lia). congruence. }
  destruct (to_f m >? from_f m).
  - destruct (Hrook 5) as [H5|H5]; [|lia]. destruct (Hrook 7) as [H7|H7]; [|lia].
    rewrite (wr_on_board _ _ _ _ H5). cbn [bind].
    rewrite (wr_on_board _ _ _ _ H7). eexists; reflexivity.
  - destruct (Hrook 3) as [H3|H3]; [|lia]. destruct (Hrook 0) as [H0|H0]; [|lia].
    rewrite (wr_on_board _ _ _ _ H3). cbn [bind].
    rewrite (wr_on_board _ _ _ _ H0). eexists; reflexivity.
Qed.

(** C9 (amended). [apply_move] runs whenever the squares of [touched]
    are on the board, and it changes no square outside [touched]: the
    origin, the destination, for a pawn that shifts one file onto an
    empty square the square one row behind the destination on the
    destination file, and for a king that shifts two files the rook's
    squares on the origin row.  The pawn's extra square is the one on the
    origin row as soon as the destination is one row ahead of the origin. *)
Theorem apply_move_frame (m : Move) (is_white : bool) (b : Board) :
  ((forall r f, In (r, f) (touched m is_white b) -> on_board r f = true) ->
   exists b', apply_move m is_white b = Some b')
  /\ (forall b', apply_move m is_white b = Some b' ->
      forall r f, ~ In (r, f) (touched m is_white b) -> b' r f = b r f)
  /\ (to_r m = from_r m + forward is_white ->
      touched m is_white b = touched_on_origin_row m b).
Proof.
  split; [apply apply_move_defined|]. split.
  - intros b' H r f Hout. apply apply_move_unfold in H.
    destruct H as (_ & _ & b1 & H1 & H2). cbv zeta in H2.
    unfold touched in Hout.
    assert (Hfrom : (r, f) <> (from_r m, from_f m))
      by (intros E; apply Hout; left; symmetry; exact E).
    assert (Hto : (r, f) <> (to_r m, to_f m))
      by (intros E; apply Hout; right; left; symmetry; exact E).
    assert (Hb1 : b1 r f = b r f).
    { destruct (pawn_takes_empty m b) eqn:Ep.
      - destruct H1 as [_ ->]. apply upd_other. intros E. apply Hout.
        cbn [app In]. right; right. left. symmetry. exact E.
      - subst b1. reflexivity. }
    destruct (king_shifts_two m b) eqn:Ek.
    + subst b'. unfold rook_squares in Hout.
      rewrite !upd_other; [exact Hb1 | exact Hto | exact Hfrom | |].
      * intros E. apply Hout. cbn [app In]. right; right. apply in_or_app. right.
        right; left; symmetry; exact E.
      * intros E. apply Hout. cbn [app In]. right; right. apply in_or_app. right.
        left; symmetry; exact E.
    + subst b'. rewrite !upd_other; [exact Hb1 | exact Hto | exact Hfrom].
  - intros Hstep. unfold touched, touched_on_origin_row.
    replace (to_r m - forward is_white) with (from_r m) by lia. reflexivity.
Qed.

Lemma NoDup_pairs (rows files : list Z) :
  NoDup rows -> NoDup files ->
  NoDup (flat_map (fun r => map (fun f => (r, f)) files) rows).
Proof.
  intros Hrows Hfiles. induction Hrows as [|r rows Hr Hrows IH]; [constructor|].
  cbn [flat_map].
  assert (Hrow : NoDup (map (fun f => (r, f)) files)).
  { apply Injective_map_NoDup; [|exact Hfiles].
    intros x y E. inversion E. reflexivity. }
  assert (Hdisj : forall s, In s (map (fun f => (r, f)) files) ->
            ~ In s (flat_map (fun r => map (fun f => (r, f)) files) rows)).
  { intros [r' f'] Hin Hin'. apply in_map_iff in Hin.
    destruct Hin as (f0 & E & _). inversion E; subst.
    apply in_flat_map in Hin'. destruct Hin' as (r0 & Hr0 & Hin').
    apply in_map_iff in Hin'. destruct Hin' as (f1 & E' & _). inversion E'; subst.
    contradiction. }
  revert Hrow Hdisj. generalize (map (fun f => (r, f)) files) as row.
  intros row Hrow. induction Hrow as [|s row Hs Hrow IHrow]; intros Hdisj; cbn [app].
  - exact IH.
  - constructor.
    + rewrite in_app_iff. intros [H|H]; [contradiction|].
      apply (Hdisj s); [left; reflexivity | exact H].
    + apply IHrow. intros s' Hs'. apply Hdisj. right. exact Hs'.
Qed.

Lemma NoDup_squares : NoDup squares.
Proof.
  assert (Hi : NoDup indices).
  { unfold indices. repeat (constructor; [cbn [In]; lia|]). constructor. }
  apply NoDup_pairs; exact Hi.
Qed.

(** ** Candidate generation *)

Lemma filter_only {A : Type} (p : A -> bool) (x : A) (l : list A) :
  NoDup l -> In x l -> p x = true ->
  (forall y, In y l -> y <> x -> p y = false) ->
  filter p l = [x].
Proof.
  intros Hnd. induction Hnd as [|a l Ha Hnd IH]; intros Hin Hx Hothers; [destruct Hin|].
  cbn [filter]. destruct Hin as [-> | Hin].
  - rewrite Hx. f_equal.
    assert (Hnone : forall y, In y l -> p y = false).
    { intros y Hy. apply Hothers; [right; exact Hy|]. intros ->. contradiction. }
    clear -Hnone. induction l as [|c l IHl]; [reflexivity|].
    cbn [filter]. rewrite (Hnone c) by (left; reflexivity).
    apply IHl. intros y Hy. apply Hnone. right. exact Hy.
  - rewrite (Hothers a) by (try (left; reflexivity); intros ->; contradiction).
    apply IH; [exact Hin | exact Hx|].
    intros y Hy Hne. apply Hothers; [right; exact Hy | exact Hne].
Qed.

(** The scan is a filter, as long as [candidates[16]] is not overrun. *)
Lemma candidate_loop_filter (b : Board) (tp : ascii) (hint_f hint_r to_r to_f : Z)
    (is_white capture : bool) (Hto : on_board to_r to_f = true) (l : list (Z * Z)) :
  forall acc,
    (forall r f, In (r, f) l -> on_board r f = true) ->
    (length acc + length (filter (is_candidate b tp hint_f hint_r to_r to_f is_white capture) l)
       <= 16)%nat ->
    candidate_loop b tp hint_f hint_r to_r to_f is_white capture acc l
    = Some (acc ++ filter (is_candidate b tp hint_f hint_r to_r to_f is_white capture) l).
Proof.
  induction l as [|[r f] l IH]; intros acc Hon Hlen.
  - cbn. rewrite app_nil_r. reflexivity.
  - assert (Hl : forall r f, In (r, f) l -> on_board r f = true)
      by (intros r' f' Hin; apply Hon; right; exact Hin).
    assert (Hrf : on_board r f = true) by (apply Hon; left; reflexivity).
    cbn [candidate_loop filter] in *. unfold is_candidate at 1. unfold is_candidate at 1 in Hlen.
    cbn [fst snd] in *.
    destruct (b r f =? tp)%char; cbn [andb] in *; [|apply IH; assumption].
    destruct (((0 <=? hint_f) && negb (f =? hint_f))
              || ((0 <=? hint_r) && negb (r =? hint_r))); cbn [negb andb] in *;
      [apply IH; assumption|].
    destruct (is_valid_move_defined b tp r f to_r to_f is_white capture Hrf Hto) as [v Hv].
    rewrite Hv in *. cbn [bind]. destruct v; [|apply IH; assumption].
    cbn [length] in Hlen.
    replace (16 <=? Z.of_nat (length acc)) with false by lia.
    rewrite IH; [rewrite <- app_assoc; reflexivity | exact Hl|].
    rewrite length_app. cbn [length]. lia.
Qed.

Lemma candidates_filter (b : Board) (t : Target) (is_white : bool) :
  on_board (t_to_r t) (t_to_f t) = true ->
  (length (candidate_squares b t is_white) <= 16)%nat ->
  candidates b t is_white = Some (candidate_squares b t is_white).
Proof.
  intros Hto Hlen. unfold candidates.
  rewrite candidate_loop_filter; [reflexivity | exact Hto | | exact Hlen].
  intros r f. apply in_squares.
Qed.

(** ** At most sixteen candidates *)

Lemma clear_line_adjacent (b : Board) (from_r from_f to_r to_f : Z) :
  Z.abs (to_r - from_r) <= 1 -> Z.abs (to_f - from_f) <= 1 ->
  0 < Z.abs (to_r - from_r) + Z.abs (to_f - from_f) ->
  clear_line b from_r from_f to_r to_f.
Proof.
  intros Hr Hf Hne. split; [unfold on_line; lia|]. split.
  - intros E. inversion E. lia.
  - intros r f Hb. exfalso.
    apply strictly_between_steps in Hb; [|unfold on_line; lia].
    destruct Hb as (k & Hk & _). unfold path_steps in Hk.
    destruct (sign (to_r - from_r) =? 0); lia.
Qed.

Lemma clear_line_path (b : Board) (from_r from_f to_r to_f : Z) :
  on_board from_r from_f = true -> on_board to_r to_f = true ->
  on_line from_r from_f to_r to_f ->
  0 < Z.abs (to_r - from_r) + Z.abs (to_f - from_f) ->
  is_path_clear b from_r from_f to_r to_f = Some true ->
  clear_line b from_r from_f to_r to_f.
Proof.
  intros Hfrom Hto Hline Hne Hclear. split; [exact Hline|]. split.
  - intros E. inversion E. lia.
  - destruct (is_path_clear_spec b from_r from_f to_r to_f Hfrom Hto Hline)
      as [[_ H] | [H _]]; [exact H | congruence].
Qed.

(** A move that [is_valid_move] accepts is a knight's jump, for a
    knight, and otherwise joins two squares of a line with nothing
    between them. *)
Lemma valid_move_shape (b : Board) (piece : ascii) (from_r from_f to_r to_f : Z)
    (is_white capture : bool) :
  on_board from_r from_f = true -> on_board to_r to_f = true ->
  is_valid_move b piece from_r from_f to_r to_f is_white capture = Some true ->
  (toupper piece = "N"%char /\ knight_shape from_r from_f to_r to_f)
  \/ (toupper piece <> "N"%char /\ clear_line b from_r from_f to_r to_f).
Proof.
  intros Hfrom Hto H. unfold is_valid_move in H.
  rewrite (rd_on_board _ _ _ Hto) in H. cbn [bind] in H.
  match type of H with context [movement ?b ?p ?fr ?ff ?tr ?tf ?w ?c ?e ?en] =>
    destruct (movement b p fr ff tr tf w c e en) as [[|]|] eqn:Em;
      cbn [bind] in H; try discriminate H
  end.
  clear H. unfold movement in Em.
  destruct (toupper piece =? "N")%char eqn:EN.
  - apply Ascii.eqb_eq in EN. left. split; [exact EN|]. rewrite EN in Em.
    cbn [Ascii.eqb Bool.eqb] in Em. cbv iota in Em. injection Em as Em.
    unfold knight_shape. lia.
  - apply Ascii.eqb_neq in EN. right. split; [exact EN|].
    split_ifs_in Em; try discriminate Em;
      first [ apply clear_line_adjacent; lia
            | apply clear_line_path;
              [exact Hfrom | exact Hto | unfold on_line; lia | lia | exact Em]
            | idtac ].
    all: try (injection Em as Em; apply clear_line_adjacent; lia).
    all: try (exfalso; apply EN; apply Ascii.eqb_eq; assumption).
Qed.

Lemma clear_line_blocks (b : Board) (r1 f1 r2 f2 to_r to_f : Z) :
  clear_line b r1 f1 to_r to_f -> clear_line b r2 f2 to_r to_f ->
  b r1 f1 <> EMPTY -> b r2 f2 <> EMPTY ->
  sign (to_r - r1) = sign (to_r - r2) -> sign (to_f - f1) = sign (to_f - f2) ->
  (r1, f1) = (r2, f2).
Proof.
  intros (Hl1 & Hn1 & Hc1) (Hl2 & Hn2 & Hc2) Ho1 Ho2 Hsr Hsf.
  apply pair_neq in Hn1, Hn2.
  assert (Hb12 : ~ strictly_between r2 f2 to_r to_f r1 f1)
    by (intros Hb; apply Ho1; apply Hc2; exact Hb).
  assert (Hb21 : ~ strictly_between r1 f1 to_r to_f r2 f2)
    by (intros Hb; apply Ho2; apply Hc1; exact Hb).
  rewrite (strictly_between_steps _ _ _ _ _ _ Hl2) in Hb12.
  rewrite (strictly_between_steps _ _ _ _ _ _ Hl1) in Hb21.
  unfold path_steps in Hb12, Hb21. unfold on_line in Hl1, Hl2.
  destruct (sign_cases (to_r - r1)) as [[Hr1 Er1]|[[Hr1 Er1]|[Hr1 Er1]]];
  destruct (sign_cases (to_f - f1)) as [[Hf1 Ef1]|[[Hf1 Ef1]|[Hf1 Ef1]]];
  rewrite Er1 in *; rewrite Ef1 in *;
  symmetry in Hsr, Hsf; rewrite Hsr in *; rewrite Hsf in *;
  destruct (sign_cases (to_r - r2)) as [[Hr2 Er2]|[[Hr2 Er2]|[Hr2 Er2]]];
  destruct (sign_cases (to_f - f2)) as [[Hf2 Ef2]|[[Hf2 Ef2]|[Hf2 Ef2]]];
  try lia; cbn [Z.eqb] in Hb12, Hb21.
  all: destruct (Z.lt_trichotomy (Z.abs (to_r - r1) + Z.abs (to_f - f1))
                                 (Z.abs (to_r - r2) + Z.abs (to_f - f2)))
         as [Hlt | [Heq | Hgt]];
    [ exfalso; apply Hb12;
      first [ exists (Z.abs (to_r - r2) - Z.abs (to_r - r1)); lia
            | exists (Z.abs (to_f - f2) - Z.abs (to_f - f1)); lia ]
    | f_equal; lia
    | exfalso; apply Hb21;
      first [ exists (Z.abs (to_r - r1) - Z.abs (to_r - r2)); lia
            | exists (Z.abs (to_f - f1) - Z.abs (to_f - f2)); lia ] ].
Qed.

Lemma knight_shape_approach (r1 f1 r2 f2 to_r to_f : Z) :
  knight_shape r1 f1 to_r to_f -> knight_shape r2 f2 to_r to_f ->
  approach to_r to_f (r1, f1) = approach to_r to_f (r2, f2) ->
  (r1, f1) = (r2, f2).
Proof.
  unfold knight_shape, approach. cbn [fst snd]. intros H1 H2 E.
  injection E as Er Ef E2.
  destruct (sign_cases (to_r - r1)) as [[? Er1]|[[? Er1]|[? Er1]]];
  destruct (sign_cases (to_f - f1)) as [[? Ef1]|[[? Ef1]|[? Ef1]]];
  rewrite Er1 in Er; rewrite Ef1 in Ef;
  destruct (sign_cases (to_r - r2)) as [[? Er2]|[[? Er2]|[? Er2]]];
  destruct (sign_cases (to_f - f2)) as [[? Ef2]|[[? Ef2]|[? Ef2]]];
  try lia; f_equal; lia.
Qed.

Lemma is_candidate_true (b : Board) (tp : ascii) (hint_f hint_r to_r to_f : Z)
    (is_white capture : bool) (r f : Z) :
  is_candidate b tp hint_f hint_r to_r to_f is_white capture (r, f) = true ->
  b r f = tp
  /\ is_valid_move b tp r f to_r to_f is_white capture = Some true.
Proof.
  unfold is_candidate. cbn [fst snd]. intros H.
  apply andb_true_iff in H. destruct H as [H Hv].
  apply andb_true_iff in H. destruct H as [Hp _].
  apply Ascii.eqb_eq in Hp. split; [exact Hp|].
  destruct (is_valid_move b tp r f to_r to_f is_white capture) as [[|]|];
    [reflexivity | discriminate | discriminate].
Qed.

Lemma approach_in_approaches (to_r to_f r f : Z) :
  (r, f) <> (to_r, to_f) -> In (approach to_r to_f (r, f)) approaches.
Proof.
  intros Hne. apply pair_neq in Hne. unfold approach. cbn [fst snd].
  destruct (sign_cases (to_r - r)) as [[? ->]|[[? ->]|[? ->]]];
  destruct (sign_cases (to_f - f)) as [[? ->]|[[? ->]|[? ->]]];
  try lia; destruct (Z.abs (to_r - r) =? 2);
  unfold approaches; cbn [flat_map app fst snd In];
  repeat first [left; reflexivity | right].
Qed.

(** The scan of [parse_san] never finds more than sixteen candidates:
    no two of them approach the destination from the same side. *)
Lemma candidate_squares_bound (b : Board) (t : Target) (is_white : bool) :
  on_board (t_to_r t) (t_to_f t) = true ->
  target_piece_of t is_white <> EMPTY ->
  (length (candidate_squares b t is_white) <= 16)%nat.
Proof.
  intros Hto Hpiece. unfold candidate_squares.
  set (tp := target_piece_of t is_white) in *.
  set (ok := is_candidate b tp (t_hint_f t) (t_hint_r t) (t_to_r t) (t_to_f t)
               is_white (t_capture t)).
  assert (Hshape : forall r f, In (r, f) (filter ok squares) ->
            b r f = tp
            /\ ((toupper tp = "N"%char /\ knight_shape r f (t_to_r t) (t_to_f t))
                \/ (toupper tp <> "N"%char /\ clear_line b r f (t_to_r t) (t_to_f t)))).
  { intros r f Hin. apply filter_In in Hin. destruct Hin as [Hsq Hok].
    apply in_squares in Hsq. apply is_candidate_true in Hok.
    destruct Hok as [Hp Hv]. split; [exact Hp|].
    apply (valid_move_shape b tp r f _ _ _ _ Hsq Hto Hv). }
  rewrite <- (length_map (approach (t_to_r t) (t_to_f t))).
  change 16%nat with (length approaches).
  apply NoDup_incl_length.
  - apply NoDup_map_NoDup_ForallPairs; [|apply NoDup_filter; exact NoDup_squares].
    intros [r1 f1] [r2 f2] H1 H2 E.
    destruct (Hshape r1 f1 H1) as [Hp1 [[HN1 Hk1] | [HN1 Hc1]]];
    destruct (Hshape r2 f2 H2) as [Hp2 [[HN2 Hk2] | [HN2 Hc2]]];
      try contradiction.
    + apply (knight_shape_approach _ _ _ _ _ _ Hk1 Hk2 E).
    + unfold approach in E. cbn [fst snd] in E. injection E as Er Ef _.
      apply (clear_line_blocks b r1 f1 r2 f2 _ _ Hc1 Hc2); congruence.
  - intros a Ha. apply in_map_iff in Ha. destruct Ha as ([r f] & <- & Hin).
    apply approach_in_approaches.
    destruct (Hshape r f Hin) as [_ [[_ Hk] | [_ (_ & Hne & _)]]]; [|exact Hne].
    intros E. inversion E; subst. unfold knight_shape in Hk. lia.
Qed.

Lemma candidates_defined (b : Board) (t : Target) (is_white : bool) :
  on_board (t_to_r t) (t_to_f t) = true ->
  target_piece_of t is_white <> EMPTY ->
  candidates b t is_white = Some (candidate_squares b t is_white).
Proof.
  intros Hto Hpiece. apply candidates_filter; [exact Hto|].
  apply candidate_squares_bound; assumption.
Qed.

(** ** What the header of a token guarantees *)

Lemma isupper_not_empty (c : ascii) : isupper c = true -> c <> EMPTY /\ tolower c <> EMPTY.
Proof.
  intros H. split.
  - intros ->. discriminate H.
  - unfold tolower. rewrite H. revert H.
    destruct c as [[] [] [] [] [] [] [] []]; intros H; try discriminate H;
      intros E; discriminate E.
Qed.

Lemma parse_header_search (char_signed : bool) (san : string) (is_white : bool) (t : Target) :
  parse_header char_signed san is_white = Some (Search t) ->
  on_board (t_to_r t) (t_to_f t) = true
  /\ (t_piece t = "P"%char \/ isupper (t_piece t) = true).
Proof.
  unfold parse_header. intros H.
  destruct (strip_check san) as [clean_san|]; [|discriminate H].
  cbv beta iota delta [bind] in H.
  repeat match type of H with
         | context [if ?c then _ else _] => destruct c eqn:?; try discriminate H
         end.
  all: repeat match type of H with
         | context [match ?x with _ => _ end] => destruct x eqn:?; try discriminate H
         end.
  all: apply (f_equal (fun o => match o with Some (Search t') => t' | _ => t end)) in H;
    cbv beta iota in H; subst t;
    cbv beta iota delta [t_to_r t_to_f t_piece]; split;
    [ apply (proj2 (on_board_iff _ _));
      match goal with
      | H : (_ || _ || _ || _) = false |- _ =>
          repeat (apply orb_false_iff in H; destruct H as [H ?]);
          repeat match goal with
                 | Hx : (_ <? _) = false |- _ => revert Hx
                 | Hx : (_ <=? _) = false |- _ => revert Hx
                 end;
          clear; intros; lia
      end | ].
  all: match goal with
       | H : (if ?c then _ else _) = (?p, _) |- ?p = _ \/ _ =>
           destruct c eqn:?; inversion H; subst
       end.
  all: first [ left; reflexivity
             | right;
               match goal with
               | H : (isupper _ && _) = true |- _ =>
                   apply andb_true_iff in H; destruct H as [H _]; exact H
               end ].
Qed.

Lemma target_piece_not_empty (char_signed : bool) (san : string) (is_white : bool)
    (t : Target) :
  parse_header char_signed san is_white = Some (Search t) ->
  target_piece_of t is_white <> EMPTY.
Proof.
  intros H. apply parse_header_search in H. destruct H as [_ [Hp | Hu]].
  - unfold target_piece_of. rewrite Hp. destruct is_white; discriminate.
  - apply isupper_not_empty in Hu. unfold target_piece_of.
    destruct is_white; tauto.
Qed.

(** ** Speculative trials *)

Lemma pawn_diagonal_forward (b : Board) (piece : ascii) (from_r from_f to_r to_f : Z)
    (is_white capture : bool) :
  on_board to_r to_f = true ->
  is_valid_move b piece from_r from_f to_r to_f is_white capture = Some true ->
  toupper piece = "P"%char -> Z.abs (from_f - to_f) = 1 ->
  to_r - forward is_white = from_r.
Proof.
  intros Hto H HP Hdf. unfold is_valid_move in H.
  rewrite (rd_on_board _ _ _ Hto) in H. cbv beta iota delta [bind] in H.
  match type of H with context [movement ?b ?p ?fr ?ff ?tr ?tf ?w ?c ?e ?en] =>
    destruct (movement b p fr ff tr tf w c e en) as [[|]|] eqn:Em; try discriminate H
  end.
  clear H. unfold movement in Em. rewrite HP in Em.
  change ("P" =? "P")%char with true in Em. cbv iota in Em.
  unfold forward. split_ifs_in Em; try discriminate Em; lia.
Qed.

(** Every candidate can be tried: the trial stays on the board and the
    test of the king answers. *)
Lemma trial_defined (b : Board) (t : Target) (is_white : bool) (c : Z * Z) :
  on_board (t_to_r t) (t_to_f t) = true ->
  In c (candidate_squares b t is_white) ->
  king_safe_after b is_white (move_from t c)
  \/ king_in_check_after b is_white (move_from t c).
Proof.
  intros Hto Hin. destruct c as [r f].
  unfold candidate_squares in Hin. apply filter_In in Hin. destruct Hin as [Hsq Hok].
  apply in_squares in Hsq. apply is_candidate_true in Hok. destruct Hok as [Hp Hv].
  assert (Happly : exists b', apply_move (move_from t (r, f)) is_white b = Some b').
  { apply apply_move_defined. unfold touched, move_from, pawn_takes_empty, king_shifts_two,
      rook_squares. cbn [from_r from_f to_r to_f fst snd].
    intros r' f' Hin. cbn [app In] in Hin.
    destruct Hin as [E | [E | Hin]]; [inversion E; subst; exact Hsq
                                     | inversion E; subst; exact Hto |].
    apply in_app_or in Hin. destruct Hin as [Hin | Hin].
    - destruct ((toupper (b r f) =? "P")%char && (Z.abs (f - t_to_f t) =? 1)
                && (b (t_to_r t) (t_to_f t) =? ".")%char) eqn:Ep; [|destruct Hin].
      destruct Hin as [E | []]. inversion E; subst.
      apply andb_true_iff in Ep. destruct Ep as [Ep _].
      apply andb_true_iff in Ep. destruct Ep as [EP Edf].
      apply Ascii.eqb_eq in EP. apply Z.eqb_eq in Edf. rewrite Hp in EP.
      rewrite (pawn_diagonal_forward b _ r f _ _ _ _ Hto Hv EP Edf).
      apply on_board_iff. apply on_board_iff in Hsq, Hto. lia.
    - destruct ((toupper (b r f) =? "K")%char && (Z.abs (f - t_to_f t) =? 2));
        [|destruct Hin].
      apply on_board_iff. apply on_board_iff in Hsq.
      destruct (t_to_f t >? f); destruct Hin as [E | [E | []]]; inversion E; subst; lia. }
  destruct Happly as [b' Hb'].
  destruct (is_in_check_defined b' is_white) as [[|] Hchk].
  - right. exists b'. split; assumption.
  - left. exists b'. split; assumption.
Qed.

(** What a trial computes decides which outcome the move has. *)
Lemma outcome_of_trial (b : Board) (is_white : bool) (m : Move) (v : bool) :
  (b' <- apply_move m is_white b ;; is_in_check b' is_white) = Some v ->
  if v then king_in_check_after b is_white m else king_safe_after b is_white m.
Proof.
  intros H. apply bind_some in H. destruct H as (b' & Ha & Hc).
  destruct v; exists b'; split; assumption.
Qed.

(** The disambiguation loop returns the first candidate whose trial
    leaves the king safe, and fails when no trial does; either way the
    board it leaves is the one it started from. *)
Lemma trial_loop_first_safe (b : Board) (t : Target) (is_white : bool)
    (cands : list (Z * Z)) :
  (forall pre c post,
      cands = pre ++ c :: post ->
      Forall (fun c' => king_in_check_after b is_white (move_from t c')) pre ->
      king_safe_after b is_white (move_from t c) ->
      trial_loop b t is_white cands = Some (Some (move_from t c), b))
  /\ (Forall (fun c' => king_in_check_after b is_white (move_from t c')) cands ->
      trial_loop b t is_white cands = Some (None, b)).
Proof.
  induction cands as [|c0 cands [IH1 IH2]].
  - split; [intros [|? ?] ? ? E; discriminate E | reflexivity].
  - split.
    + intros pre c post E Hpre Hsafe. destruct pre as [|p pre]; cbn [app] in E.
      * injection E as <- _. destruct Hsafe as (b' & Ha & Hc).
        cbn [trial_loop]. rewrite Ha. cbn [bind]. rewrite Hc. reflexivity.
      * injection E as <- E. inversion Hpre as [|? ? (b' & Ha & Hc) Hpre']; subst.
        cbn [trial_loop]. rewrite Ha. cbn [bind]. rewrite Hc. cbn [bind negb].
        apply (IH1 pre c post eq_refl Hpre' Hsafe).
    + intros Hall. inversion Hall as [|? ? (b' & Ha & Hc) Hall']; subst.
      cbn [trial_loop]. rewrite Ha. cbn [bind]. rewrite Hc. cbn [bind negb].
      apply IH2. exact Hall'.
Qed.

Lemma trial_loop_board (b : Board) (t : Target) (is_white : bool) (cands : list (Z * Z))
    (res : option Move) (b' : Board) :
  trial_loop b t is_white cands = Some (res, b') -> b' = b.
Proof.
  induction cands as [|c cands IH]; cbn [trial_loop].
  - intros H. injection H as _ <-. reflexivity.
  - intros H. apply bind_some in H. destruct H as (b1 & _ & H).
    apply bind_some in H. destruct H as (chk & _ & H).
    destruct chk; cbn [negb] in H.
    + apply IH. exact H.
    + injection H as _ <-. reflexivity.
Qed.

(** ** Disambiguation *)

(** C1. Once the header of the token is read, the scan yields the
    squares of [candidate_squares] in scan order.  With no candidate
    [parse_san] fails; with exactly one it returns it, whatever a trial
    would say; with several it returns the first whose trial leaves the
    mover's king out of check and fails if every trial leaves it in
    check.  Each candidate's trial has one of these two outcomes. *)
Theorem parse_san_disambiguation (char_signed : bool) (san : string) (is_white : bool)
    (b : Board) (t : Target)
    (Hheader : parse_header char_signed san is_white = Some (Search t)) :
  let cands := candidate_squares b t is_white in
  let unsafe := fun c => king_in_check_after b is_white (move_from t c) in
  let safe := fun c => king_safe_after b is_white (move_from t c) in
  candidates b t is_white = Some cands
  /\ (cands = [] -> parse_san char_signed san is_white b = Some (None, b))
  /\ (forall c, cands = [c] ->
        parse_san char_signed san is_white b = Some (Some (move_from t c), b))
  /\ (forall pre c post,
        (2 <= length cands)%nat -> cands = pre ++ c :: post ->
        Forall unsafe pre -> safe c ->
        parse_san char_signed san is_white b = Some (Some (move_from t c), b))
  /\ ((2 <= length cands)%nat -> Forall unsafe cands ->
        parse_san char_signed san is_white b = Some (None, b))
  /\ Forall (fun c => safe c \/ unsafe c) cands.
Proof.
  intros cands unsafe safe.
  destruct (parse_header_search _ _ _ _ Hheader) as [Hto _].
  assert (Hpiece := target_piece_not_empty _ _ _ _ Hheader).
  assert (Hc : candidates b t is_white = Some cands)
    by (apply candidates_defined; assumption).
  assert (Hparse : parse_san char_signed san is_white b
                   = match cands with
                     | [] => Some (None, b)
                     | [c] => Some (Some (move_from t c), b)
                     | _ => trial_loop b t is_white cands
                     end).
  { unfold parse_san. rewrite Hheader. cbn [bind]. rewrite Hc. reflexivity. }
  destruct (trial_loop_first_safe b t is_white cands) as [Hfirst Hnone].
  split; [exact Hc|]. split; [|split; [|split; [|split]]].
  - intros E. rewrite Hparse, E. reflexivity.
  - intros c E. rewrite Hparse, E. reflexivity.
  - intros pre c post Hlen E Hpre Hsafe. rewrite Hparse.
    destruct cands as [|c1 [|c2 cs]]; cbn [length] in Hlen; try lia.
    apply (Hfirst pre c post E Hpre Hsafe).
  - intros Hlen Hall. rewrite Hparse.
    destruct cands as [|c1 [|c2 cs]]; cbn [length] in Hlen; try lia.
    apply (Hnone Hall).
  - apply Forall_forall. intros c Hin. apply trial_defined; assumption.
Qed.

(** ** The board after parsing *)

(** C2. Whenever [parse_san] returns, with a move or with a failure,
    the board is the one it was called on, square for square; and it
    does return as soon as the token passes the header, whatever the
    board. *)
Theorem parse_san_restores_board (char_signed : bool) (san : string) (is_white : bool)
    (b : Board) :
  (forall res b', parse_san char_signed san is_white b = Some (res, b') ->
                  b' = b /\ same_board b' b)
  /\ (forall h, parse_header char_signed san is_white = Some h ->
                exists res, parse_san char_signed san is_white b = Some (res, b)).
Proof.
  assert (Hsame : forall res b', parse_san char_signed san is_white b = Some (res, b') ->
                                 b' = b).
  { intros res b' H. unfold parse_san in H.
    apply bind_some in H. destruct H as (h & _ & H).
    destruct h as [m | | t].
    - injection H as _ <-. reflexivity.
    - injection H as _ <-. reflexivity.
    - apply bind_some in H. destruct H as (cands & _ & H).
      destruct cands as [|c1 [|c2 cs]].
      + injection H as _ <-. reflexivity.
      + injection H as _ <-. reflexivity.
      + apply trial_loop_board in H. exact H. }
  split.
  - intros res b' H. apply Hsame in H. subst b'. split; [reflexivity|].
    intros r f _. reflexivity.
  - intros h Hh.
    assert (Hsome : exists out, parse_san char_signed san is_white b = Some out).
    { destruct h as [m | | t].
      - unfold parse_san. rewrite Hh. eexists; reflexivity.
      - unfold parse_san. rewrite Hh. eexists; reflexivity.
      - destruct (parse_header_search _ _ _ _ Hh) as [Hto _].
        assert (Hc : candidates b t is_white = Some (candidate_squares b t is_white))
          by (apply candidates_defined;
              [exact Hto | exact (target_piece_not_empty _ _ _ _ Hh)]).
        assert (Hall : Forall (fun c => king_safe_after b is_white (move_from t c)
                                        \/ king_in_check_after b is_white (move_from t c))
                         (candidate_squares b t is_white))
          by (apply Forall_forall; intros c Hin; apply trial_defined; assumption).
        unfold parse_san. rewrite Hh. cbn [bind]. rewrite Hc. cbn [bind].
        destruct (candidate_squares b t is_white) as [|c1 [|c2 cs]] eqn:Ec;
          try (eexists; reflexivity).
        clear Ec. revert Hall. generalize (c1 :: c2 :: cs) as cands.
        intros cands Hall. induction Hall as [|c cands Hc0 Hall IH].
        + eexists; reflexivity.
        + cbn [trial_loop].
          destruct Hc0 as [(b' & Ha & Hk) | (b' & Ha & Hk)];
            rewrite Ha; cbn [bind]; rewrite Hk; cbn [bind negb].
          * eexists; reflexivity.
          * exact IH. }
    destruct Hsome as [[res b'] H]. exists res.
    rewrite H. f_equal. f_equal. apply (Hsame res b' H).
Qed.

(** The rook's file a1-a4 in the initial position is blocked by the
    pawn on a2, so the rook's move from a1 to a4 is rejected. *)
Lemma rook_blocked_in_initial_position :
  is_path_clear init_board 7 0 4 0 = Some false
  /\ is_valid_move init_board "R" 7 0 4 0 true false = Some false.
Proof. split; reflexivity. Qed.

Lemma parse_san_disambiguation_witness :
  parse_san true "Nc3" true two_knights_position
    = Some (Some (mkMove 7 1 5 2 zero), two_knights_position)
  /\ parse_san true "Nc3" true both_pinned_position
     = Some (None, both_pinned_position)
  /\ parse_san true "Nc3" true pinned_knight_position
     = Some (Some (mkMove 6 4 5 2 zero), pinned_knight_position).
Proof.
  set (t := mkTarget zero 5 2 "N" (-1) (-1) false).
  assert (Hh : parse_header true "Nc3" true = Some (Search t)) by reflexivity.
  split; [|split].
  - destruct (parse_san_disambiguation true "Nc3" true two_knights_position t Hh)
      as (_ & _ & _ & Hfirst & _).
    apply (Hfirst [(6, 4)] (7, 1) []).
    + vm_compute. repeat constructor.
    + reflexivity.
    + constructor; [|constructor].
      apply (outcome_of_trial _ _ _ true). vm_compute. reflexivity.
    + apply (outcome_of_trial _ _ _ false). vm_compute. reflexivity.
  - destruct (parse_san_disambiguation true "Nc3" true both_pinned_position t Hh)
      as (_ & _ & _ & _ & Hnone & _).
    apply Hnone.
    + vm_compute. repeat constructor.
    + let l := eval vm_compute in (candidate_squares both_pinned_position t true) in
      change (candidate_squares both_pinned_position t true) with l.
      repeat constructor; apply (outcome_of_trial _ _ _ true); vm_compute; reflexivity.
  - destruct (parse_san_disambiguation true "Nc3" true pinned_knight_position t Hh)
      as (_ & _ & Hone & _).
    apply (Hone (6, 4)). reflexivity.
Defined.

(** The only knight that reaches c3 is accepted although it unshields
    the king: a single candidate is not tried. *)
Lemma single_candidate_not_tried :
  parse_san true "Nc3" true pinned_knight_position
    = Some (Some (mkMove 6 4 5 2 zero), pinned_knight_position)
  /\ king_in_check_after pinned_knight_position true (mkMove 6 4 5 2 zero).
Proof.
  split; [reflexivity|]. apply (outcome_of_trial _ _ _ true). vm_compute. reflexivity.
Qed.

Lemma parse_san_restores_board_witness :
  exists res, parse_san true "Nc3" true two_knights_position
              = Some (res, two_knights_position).
Proof.
  destruct (parse_san_restores_board true "Nc3" true two_knights_position) as [_ H].
  apply (H (Search (mkTarget zero 5 2 "N" (-1) (-1) false))). reflexivity.
Defined.

Lemma is_in_check_spec_witness :
  is_in_check pawn_and_knight true = Some false
  /\ exists king_r king_f,
       find_king_pos pinned_knight_position "K" = Some (king_r, king_f)
       /\ on_board king_r king_f = true
       /\ pinned_knight_position king_r king_f = "K"%char
       /\ (is_in_check pinned_knight_position true = Some true
           <-> exists r' f', attacks pinned_knight_position false king_r king_f r' f').
Proof.
  destruct (is_in_check_spec pawn_and_knight true) as (_ & Hnone & _).
  destruct (is_in_check_spec pinned_knight_position true) as (_ & _ & Hking).
  split.
  - apply Hnone. intros r f Hon. apply in_squares in Hon.
    vm_compute in Hon.
    repeat (destruct Hon as [E | Hon]; [inversion E; discriminate|]). destruct Hon.
  - apply (Hking 7 4); reflexivity.
Defined.

(** The scan visits row 0 from file 0 to file 7, then row 1, and so on. *)
Example squares_scan_order :
  firstn 10 squares
  = [(0, 0); (0, 1); (0, 2); (0, 3); (0, 4); (0, 5); (0, 6); (0, 7); (1, 0); (1, 1)]
  /\ length squares = 64%nat.
Proof. split; reflexivity. Qed.

(** The first moves of a game, and the en passant capture, as the
    parser resolves them. *)
Example parse_san_samples :
  parse_san true "e4" true init_board = Some (Some (mkMove 6 4 4 4 zero), init_board)
  /\ parse_san true "Nf3" true init_board = Some (Some (mkMove 7 6 5 5 zero), init_board)
  /\ parse_san true "Nf6+" false init_board = Some (Some (mkMove 0 6 2 5 zero), init_board)
  /\ parse_san true "exd6" true en_passant_position
     = Some (Some (mkMove 3 4 2 3 zero), en_passant_position)
  /\ parse_san true "e5" true init_board = Some (None, init_board).
Proof. repeat split; reflexivity. Qed.

(** ** En passant *)

(** C3. With a white pawn on (3,4), a black pawn on (3,3) and (2,3)
    empty, [is_valid_move] accepts the pawn's move to (2,3) as a capture
    (and not as a quiet move), and [apply_move] takes the black pawn off
    (3,3) while the white pawn goes from (3,4) to (2,3). *)
Theorem en_passant_accepted_and_applied (b : Board)
    (Hmover : b 3 4 = "P"%char) (Hvictim : b 3 3 = "p"%char) (Hdest : b 2 3 = EMPTY) :
  is_valid_move b "P" 3 4 2 3 true true = Some true
  /\ is_valid_move b "P" 3 4 2 3 true false = Some false
  /\ exists b', apply_move (mkMove 3 4 2 3 zero) true b = Some b'
                /\ b' 3 3 = EMPTY /\ b' 2 3 = "P"%char /\ b' 3 4 = EMPTY.
Proof.
  unfold EMPTY in *. split; [|split].
  - unfold is_valid_move, movement. rewrite !rd_on_board by reflexivity.
    cbn [bind]. rewrite Hdest, Hvictim. reflexivity.
  - unfold is_valid_move, movement. rewrite !rd_on_board by reflexivity.
    cbn [bind]. rewrite Hdest. reflexivity.
  - eexists. split.
    + unfold apply_move. cbn [from_r from_f to_r to_f promo].
      rewrite !rd_on_board by reflexivity. cbn [bind].
      rewrite Hmover, Hdest. reflexivity.
    + repeat split; reflexivity.
Qed.

Lemma en_passant_accepted_and_applied_witness :
  is_valid_move en_passant_position "P" 3 4 2 3 true true = Some true
  /\ is_valid_move en_passant_position "P" 3 4 2 3 true false = Some false
  /\ exists b', apply_move (mkMove 3 4 2 3 zero) true en_passant_position = Some b'
                /\ b' 3 3 = EMPTY /\ b' 2 3 = "P"%char /\ b' 3 4 = EMPTY.
Proof.
  apply (en_passant_accepted_and_applied en_passant_position); reflexivity.
Defined.

(** ** Castling *)

(** C4 (amended). Whatever the board, the castling tokens give the
    king's move from file 4 to file 6 (king side) or file 2 (queen side)
    on the mover's home row; for White's [O-O] that is (7,4) to (7,6).
    Applying that move to a board with the king on (7,4) also leaves a
    white rook on (7,5) and (7,7) empty. *)
Theorem castling_tokens (char_signed : bool) (b : Board) (is_white : bool) :
  let home := if is_white then 7 else 0 in
  (forall san, In san ["O-O"; "0-0"; "O-O+"; "O-O#"]%string ->
     parse_san char_signed san is_white b = Some (Some (mkMove home 4 home 6 zero), b))
  /\ (forall san, In san ["O-O-O"; "0-0-0"; "O-O-O+"; "O-O-O#"]%string ->
     parse_san char_signed san is_white b = Some (Some (mkMove home 4 home 2 zero), b))
  /\ parse_san char_signed "O-O" true b = Some (Some (mkMove 7 4 7 6 zero), b)
  /\ (b 7 4 = "K"%char ->
      exists b', apply_move (mkMove 7 4 7 6 zero) true b = Some b'
                 /\ b' 7 4 = EMPTY /\ b' 7 6 = "K"%char
                 /\ b' 7 5 = "R"%char /\ b' 7 7 = EMPTY).
Proof.
  cbv zeta. split; [|split; [|split]].
  - intros san Hin. cbn [In] in Hin.
    destruct Hin as [<-|[<-|[<-|[<-|[]]]]]; destruct is_white; reflexivity.
  - intros san Hin. cbn [In] in Hin.
    destruct Hin as [<-|[<-|[<-|[<-|[]]]]]; destruct is_white; reflexivity.
  - reflexivity.
  - intros Hking. eexists. split.
    + unfold apply_move. cbn [from_r from_f to_r to_f promo].
      rewrite !rd_on_board by reflexivity. cbn [bind]. rewrite Hking. reflexivity.
    + repeat split; reflexivity.
Qed.

Lemma castling_tokens_witness :
  parse_san true "O-O" true castling_position
    = Some (Some (mkMove 7 4 7 6 zero), castling_position)
  /\ exists b', apply_move (mkMove 7 4 7 6 zero) true castling_position = Some b'
                /\ b' 7 4 = EMPTY /\ b' 7 6 = "K"%char
                /\ b' 7 5 = "R"%char /\ b' 7 7 = EMPTY.
Proof.
  destruct (castling_tokens true castling_position true) as (_ & _ & Hparse & Happly).
  split; [exact Hparse | apply Happly; reflexivity].
Defined.

(** With the king on e2, [O-O] still parses to (7,4) to (7,6), but
    applying that move leaves the rook on h1 and f1 empty. *)
Lemma castling_without_king_keeps_rook :
  parse_san true "O-O" true king_off_home_position
    = Some (Some (mkMove 7 4 7 6 zero), king_off_home_position)
  /\ exists b', apply_move (mkMove 7 4 7 6 zero) true king_off_home_position = Some b'
                /\ b' 7 7 = "R"%char /\ b' 7 5 = EMPTY.
Proof.
  split; [reflexivity|]. eexists. split; [reflexivity|]. split; reflexivity.
Qed.

(** ** Promotion *)

Lemma pawn_push_to_e8 (b : Board) (r f : Z) :
  b 0 4 = EMPTY -> 
  is_valid_move b "P" r f 0 4 true false = Some ((r =? 1) && (f =? 4)).
Proof.
  intros Hdest. unfold EMPTY in Hdest. unfold is_valid_move, movement.
  rewrite rd_on_board by reflexivity. cbn [bind]. rewrite Hdest.
  change (toupper "P") with "P"%char. cbv iota. 
  change ("P" =? "P")%char with true. change ("." =? ".")%char with true.
  cbn [negb andb orb]. cbv iota.
  destruct (r =? 1) eqn:Er; destruct (f =? 4) eqn:Ef; cbn [andb];
    split_ifs; try reflexivity; try lia.
Qed.

(** C5 (amended). With a white pawn on e7 (1,4) and e8 (0,4) empty, [e8=Q] parses
    for White to the move (1,4) to (0,4) with promotion field [Q], and
    applying it leaves a white queen on e8 and e7 empty. *)
Theorem promotion_e8_queen (char_signed : bool) (b : Board)
    (Hpawn : b 1 4 = "P"%char) (Hdest : b 0 4 = EMPTY) :
  parse_san char_signed "e8=Q" true b = Some (Some (mkMove 1 4 0 4 "Q"), b)
  /\ exists b', apply_move (mkMove 1 4 0 4 "Q") true b = Some b'
                /\ b' 0 4 = "Q"%char /\ b' 1 4 = EMPTY.
Proof.
  split.
  - set (t := mkTarget "Q" 0 4 "P" (-1) (-1) false).
    assert (Hh : parse_header char_signed "e8=Q" true = Some (Search t))
      by (destruct char_signed; reflexivity).
    assert (Hc : candidate_squares b t true = [(1, 4)]).
    { unfold candidate_squares. apply filter_only.
      - exact NoDup_squares.
      - apply in_squares. reflexivity.
      - unfold is_candidate. cbn [fst snd t t_to_r t_to_f t_hint_f t_hint_r t_capture
                                   target_piece_of t_piece].
        rewrite pawn_push_to_e8 by exact Hdest. rewrite Hpawn. reflexivity.
      - intros [r f] _ Hne. unfold is_candidate.
        cbn [fst snd t t_to_r t_to_f t_hint_f t_hint_r t_capture target_piece_of t_piece].
        rewrite pawn_push_to_e8 by exact Hdest.
        destruct (r =? 1) eqn:Er; destruct (f =? 4) eqn:Ef;
          rewrite ?andb_false_r; try reflexivity.
        apply Z.eqb_eq in Er, Ef. subst. contradiction. }
    unfold parse_san. rewrite Hh. cbn [bind].
    rewrite candidates_filter; rewrite ?Hc; [reflexivity | reflexivity | cbn; lia].
  - eexists. split.
    + unfold apply_move. cbn [from_r from_f to_r to_f promo].
      rewrite !rd_on_board by reflexivity. cbn [bind]. rewrite Hpawn.
      unfold EMPTY in Hdest. rewrite Hdest. reflexivity.
    + repeat split; reflexivity.
Qed.

Lemma promotion_e8_queen_witness :
  parse_san true "e8=Q" true promotion_position
    = Some (Some (mkMove 1 4 0 4 "Q"), promotion_position)
  /\ exists b', apply_move (mkMove 1 4 0 4 "Q") true promotion_position = Some b'
                /\ b' 0 4 = "Q"%char /\ b' 1 4 = EMPTY.
Proof.
  apply (promotion_e8_queen true promotion_position); reflexivity.
Defined.

(** With a piece on e8 the pawn on e7 cannot advance: [e8=Q] finds no
    candidate and [parse_san] fails. *)
Lemma promotion_blocked_fails :
  blocked_pawn_position 1 4 = "P"%char
  /\ parse_san true "e8=Q" true blocked_pawn_position
     = Some (None, blocked_pawn_position).
Proof. split; reflexivity. Qed.

(** A white pawn moved from e2 to f4, two rows ahead and one file aside:
    [apply_move] empties f3, which is none of origin, destination and the
    square on the origin row and destination file. *)
Lemma apply_move_frame_origin_row_fails :
  exists b', apply_move (mkMove 6 4 4 5 zero) true pawn_and_knight = Some b'
             /\ on_board 5 5 = true
             /\ ~ In (5, 5) (touched_on_origin_row (mkMove 6 4 4 5 zero) pawn_and_knight)
             /\ pawn_and_knight 5 5 = "n"%char
             /\ b' 5 5 = EMPTY.
Proof.
  eexists. split; [reflexivity|]. split; [reflexivity|]. split; [|split; reflexivity].
  cbn. intros [E|[E|[E|[]]]]; discriminate E.
Qed.

Lemma apply_move_frame_witness :
  (exists b', apply_move (mkMove 3 4 2 3 zero) true en_passant_position = Some b')
  /\ (forall b', apply_move (mkMove 3 4 2 3 zero) true en_passant_position = Some b' ->
      b' 0 4 = en_passant_position 0 4)
  /\ touched (mkMove 3 4 2 3 zero) true en_passant_position
     = touched_on_origin_row (mkMove 3 4 2 3 zero) en_passant_position.
Proof.
  destruct (apply_move_frame (mkMove 3 4 2 3 zero) true en_passant_position)
    as (Hdef & Hframe & Hrow).
  split; [|split].
  - apply Hdef. cbn. intros r f [E|[E|[E|[]]]]; inversion E; reflexivity.
  - intros b' H. apply (Hframe b' H).
    cbn. intros [E|[E|[E|[]]]]; discriminate E.
  - apply Hrow. reflexivity.
Defined.

(** ** Tokenizing the movetext *)

Lemma substring_0_length (n : nat) (s : string) :
  (String.length (substring 0 n s) <= n)%nat.
Proof.
  revert s. induction n as [|n IH]; intros s.
  - destruct s; cbn; lia.
  - destruct s as [|c s]; cbn [substring String.length]; [lia|].
    specialize (IH s). lia.
Qed.

Lemma substring_0_all (n : nat) (s : string) :
  (String.length s <= n)%nat -> substring 0 n s = s.
Proof.
  revert s. induction n as [|n IH]; intros s Hlen.
  - destruct s; [reflexivity | cbn in Hlen; lia].
  - destruct s as [|c s]; [reflexivity|]. cbn [substring].
    rewrite IH; [reflexivity | cbn in Hlen; lia].
Qed.

Lemma prefix_all (s : string) (n : Z) :
  Z.of_nat (String.length s) <= n -> prefix s n = s.
Proof. intros H. unfold prefix. apply substring_0_all. lia. Qed.

Lemma extract_san_token_length (token san_buf : string) :
  extract_san_token token MOVE_TEXT_LEN = Some san_buf ->
  Z.of_nat (String.length san_buf) <= MOVE_TEXT_LEN - 1.
Proof.
  unfold extract_san_token, MOVE_TEXT_LEN.
  match goal with |- context [match ?p with EmptyString => _ | String _ _ => _ end] =>
    generalize p end.
  intros p. destruct p as [|c p]; [discriminate|].
  remember (strcspn (String c p) "!?") as len eqn:Elen. clear Elen.
  destruct (len =? 0); [discriminate|].
  intros H. injection H as <-. unfold prefix.
  destruct (32 <=? len) eqn:E;
    match goal with |- context [substring 0 ?n ?s] =>
      assert (Hl := substring_0_length n s) end; lia.
Qed.

Lemma is_result_token_length (san : string) :
  is_result_token san = true -> Z.of_nat (String.length san) <= 7.
Proof.
  unfold is_result_token. intros H.
  repeat (apply orb_true_iff in H; destruct H as [H|H]);
    apply String.eqb_eq in H; subst; cbn; lia.
Qed.

(** The loop on a list of tokens whose SAN strings contain a result. *)
Lemma build_loop_result (max_moves result_out_size : Z) (tokens : list string) :
  forall (moves pre post : list string) (t result : string),
    flat_map (fun token =>
                match extract_san_token token MOVE_TEXT_LEN with
                | Some san_buf => [san_buf]
                | None => []
                end) tokens = pre ++ t :: post ->
    Forall not_result pre -> is_result_token t = true ->
    build_loop tokens max_moves result_out_size moves result
    = (moves ++ firstn (Z.to_nat (max_moves - Z.of_nat (length moves))) pre,
       if 0 <? result_out_size then prefix t (result_out_size - 1) else result).
Proof.
  induction tokens as [|token tokens IH]; intros moves pre post t result Hsplit Hpre Ht.
  - destruct pre; discriminate Hsplit.
  - cbn [flat_map build_loop] in *.
    destruct (extract_san_token token MOVE_TEXT_LEN) as [san_buf|] eqn:Ex.
    2:{ apply (IH moves pre post t result Hsplit Hpre Ht). }
    cbn [app] in Hsplit. destruct pre as [|p pre].
    + cbn [app] in Hsplit. injection Hsplit as -> _. rewrite Ht.
      rewrite firstn_nil, app_nil_r. reflexivity.
    + cbn [app] in Hsplit. injection Hsplit as -> Hrest.
      inversion Hpre as [|? ? Hp Hpre']; subst. unfold not_result in Hp. rewrite Hp.
      rewrite (prefix_all p) by (apply extract_san_token_length in Ex; exact Ex).
      destruct (Z.of_nat (length moves) <? max_moves) eqn:E.
      * rewrite (IH (moves ++ [p]) pre post t result Hrest Hpre' Ht).
        rewrite length_app. cbn [length].
        replace (Z.to_nat (max_moves - Z.of_nat (length moves)))
          with (S (Z.to_nat (max_moves - Z.of_nat (length moves + 1)))) by lia.
        cbn [firstn]. rewrite <- app_assoc. reflexivity.
      * rewrite (IH moves pre post t result Hrest Hpre' Ht).
        replace (Z.to_nat (max_moves - Z.of_nat (length moves))) with 0%nat by lia.
        reflexivity.
Qed.

(** The loop on a list of tokens none of whose SAN strings is a result. *)
Lemma build_loop_no_result (max_moves result_out_size : Z) (tokens : list string) :
  forall (moves : list string) (result : string),
    Forall not_result
      (flat_map (fun token =>
                   match extract_san_token token MOVE_TEXT_LEN with
                   | Some san_buf => [san_buf]
                   | None => []
                   end) tokens) ->
    build_loop tokens max_moves result_out_size moves result
    = (moves ++ firstn (Z.to_nat (max_moves - Z.of_nat (length moves)))
                  (flat_map (fun token =>
                               match extract_san_token token MOVE_TEXT_LEN with
                               | Some san_buf => [san_buf]
                               | None => []
                               end) tokens),
       result).
Proof.
  induction tokens as [|token tokens IH]; intros moves result Hall.
  - cbn. rewrite firstn_nil, app_nil_r. reflexivity.
  - cbn [flat_map build_loop] in *.
    destruct (extract_san_token token MOVE_TEXT_LEN) as [san_buf|] eqn:Ex.
    2:{ apply (IH moves result Hall). }
    cbn [app] in *. inversion Hall as [|? ? Hp Hall']; subst.
    unfold not_result in Hp. rewrite Hp.
    rewrite (prefix_all san_buf) by (apply extract_san_token_length in Ex; exact Ex).
    destruct (Z.of_nat (length moves) <? max_moves) eqn:E.
    + rewrite (IH (moves ++ [san_buf]) result Hall').
      rewrite length_app. cbn [length].
      replace (Z.to_nat (max_moves - Z.of_nat (length moves)))
        with (S (Z.to_nat (max_moves - Z.of_nat (length moves + 1)))) by lia.
      cbn [firstn]. rewrite <- app_assoc. reflexivity.
    + rewrite (IH moves result Hall').
      replace (Z.to_nat (max_moves - Z.of_nat (length moves))) with 0%nat by lia.
      reflexivity.
Qed.

Lemma Forall_firstn {A : Type} (P : A -> Prop) (n : nat) (l : list A) :
  Forall P l -> Forall P (firstn n l).
Proof.
  intros H. revert n. induction H as [|x l Hx Hl IH]; intros n.
  - rewrite firstn_nil. constructor.
  - destruct n; cbn [firstn]; constructor; [exact Hx | apply IH].
Qed.

(** A list either has a first element that is a result, or none. *)
Lemma first_result (sans : list string) :
  Forall not_result sans
  \/ exists pre t post, sans = pre ++ t :: post
                        /\ Forall not_result pre /\ is_result_token t = true.
Proof.
  induction sans as [|s sans IH]; [left; constructor|].
  destruct (is_result_token s) eqn:E.
  - right. exists [], s, sans. repeat split; [constructor | exact E].
  - destruct IH as [IH | (pre & t & post & -> & Hpre & Ht)].
    + left. constructor; [exact E | exact IH].
    + right. exists (s :: pre), t, post. repeat split; [|exact Ht].
      constructor; [exact E | exact Hpre].
Qed.

(** C7. [build_move_list] stops at the first SAN string that is one of
    [1-0], [0-1], [1/2-1/2], [*]: the moves it returns are the strings
    before it (at most [max_moves] of them), whatever follows it, and the
    result buffer (of 8 bytes or more) holds that string.  No returned
    move is a result string; without a result string every SAN string is
    a move and the result buffer is empty. *)
Theorem build_move_list_stops_at_result (move_buffer : string)
    (max_moves result_out_size : Z) :
  Forall not_result (fst (build_move_list move_buffer max_moves result_out_size))
  /\ (forall pre t post,
        san_tokens move_buffer = pre ++ t :: post ->
        Forall not_result pre -> is_result_token t = true ->
        8 <= result_out_size ->
        build_move_list move_buffer max_moves result_out_size
        = (firstn (Z.to_nat max_moves) pre, t))
  /\ (Forall not_result (san_tokens move_buffer) ->
      build_move_list move_buffer max_moves result_out_size
      = (firstn (Z.to_nat max_moves) (san_tokens move_buffer), EmptyString)).
Proof.
  assert (Hres : forall pre t post,
            san_tokens move_buffer = pre ++ t :: post ->
            Forall not_result pre -> is_result_token t = true ->
            build_move_list move_buffer max_moves result_out_size
            = (firstn (Z.to_nat max_moves) pre,
               if 0 <? result_out_size then prefix t (result_out_size - 1)
               else EmptyString)).
  { intros pre t post Hsplit Hpre Ht. unfold build_move_list.
    rewrite (build_loop_result _ _ _ [] pre post t EmptyString Hsplit Hpre Ht).
    cbn [app length]. rewrite Z.sub_0_r. reflexivity. }
  assert (Hnone : Forall not_result (san_tokens move_buffer) ->
            build_move_list move_buffer max_moves result_out_size
            = (firstn (Z.to_nat max_moves) (san_tokens move_buffer), EmptyString)).
  { intros Hall. unfold build_move_list.
    rewrite (build_loop_no_result _ _ _ [] EmptyString Hall).
    cbn [app length]. rewrite Z.sub_0_r. reflexivity. }
  split; [|split].
  - destruct (first_result (san_tokens move_buffer))
      as [Hall | (pre & t & post & Hsplit & Hpre & Ht)].
    + rewrite (Hnone Hall). cbn [fst]. apply Forall_firstn. exact Hall.
    + rewrite (Hres pre t post Hsplit Hpre Ht). cbn [fst].
      apply Forall_firstn. exact Hpre.
  - intros pre t post Hsplit Hpre Ht Hsize.
    rewrite (Hres pre t post Hsplit Hpre Ht).
    replace (0 <? result_out_size) with true by lia.
    rewrite prefix_all; [reflexivity|].
    apply is_result_token_length in Ht. lia.
  - exact Hnone.
Qed.

Lemma build_move_list_stops_at_result_witness :
  build_move_list "1. e4 e5 2. Nf3! Nc6 1-0 3. Bb5 a6" MAX_MOVES RESULT_LEN
  = (["e4"; "e5"; "Nf3"; "Nc6"]%string, "1-0"%string).
Proof.
  destruct (build_move_list_stops_at_result "1. e4 e5 2. Nf3! Nc6 1-0 3. Bb5 a6"
              MAX_MOVES RESULT_LEN) as (_ & H & _).
  apply (H ["e4"; "e5"; "Nf3"; "Nc6"]%string "1-0"%string ["Bb5"; "a6"]%string).
  - vm_compute. reflexivity.
  - repeat constructor.
  - reflexivity.
  - vm_compute. discriminate.
Defined.

(** ** Line cleaning *)

Lemma clean_loop_semicolon (ic iv : bool) (line : string) :
  clean_loop ic iv (String ";" line) = clean_loop ic iv (skip_to_newline line).
Proof.
  cbn [clean_loop].
  change (";" =? "{")%char with false. change (";" =? "}")%char with false.
  change (";" =? "(")%char with false. change (";" =? ")")%char with false.
  change (";" =? ";")%char with true. cbv iota.
  induction line as [|d rest IH]; [reflexivity|].
  cbn [skip_to_newline]. destruct (d =? newline)%char; [reflexivity|exact IH].
Qed.

Lemma skip_to_newline_length (s : string) :
  (String.length (skip_to_newline s) <= String.length s)%nat.
Proof.
  induction s as [|d s IH]; cbn [skip_to_newline]; [lia|].
  destruct (d =? newline)%char; cbn [String.length] in *; lia.
Qed.

Lemma clean_loop_step (ic iv : bool) (c : ascii) (line : string) :
  clean_loop ic iv (String c line) =
    if (c =? "{")%char then clean_loop true iv line
    else if (c =? "}")%char then clean_loop false iv line
    else if (c =? "(")%char then clean_loop ic true line
    else if (c =? ")")%char then clean_loop ic false line
    else if (c =? ";")%char then clean_loop ic iv (skip_to_newline line)
    else if negb ic && negb iv then String c (clean_loop ic iv line)
    else clean_loop ic iv line.
Proof.
  destruct (c =? ";")%char eqn:E.
  - apply Ascii.eqb_eq in E. subst c. rewrite clean_loop_semicolon. reflexivity.
  - cbn [clean_loop]. rewrite E. reflexivity.
Qed.

Lemma clean_loop_no_markup (n : nat) :
  forall (line : string) (ic iv : bool),
    (String.length line <= n)%nat -> no_markup (clean_loop ic iv line) = true.
Proof.
  induction n as [|n IH]; intros line ic iv Hlen.
  - destruct line; [reflexivity | cbn [String.length] in Hlen; lia].
  - destruct line as [|c line]; [reflexivity|].
    cbn [String.length] in Hlen. rewrite clean_loop_step.
    assert (Hskip := skip_to_newline_length line).
    destruct (c =? "{")%char eqn:E1; [apply IH; lia|].
    destruct (c =? "}")%char eqn:E2; [apply IH; lia|].
    destruct (c =? "(")%char eqn:E3; [apply IH; lia|].
    destruct (c =? ")")%char eqn:E4; [apply IH; lia|].
    destruct (c =? ";")%char eqn:E5; [apply IH; lia|].
    destruct (negb ic && negb iv); [|apply IH; lia].
    cbn [no_markup]. unfold is_markup. rewrite E1, E2, E3, E4, E5.
    cbn [orb negb andb]. apply IH; lia.
Qed.

Lemma clean_loop_fixed (line : string) :
  no_markup line = true -> clean_loop false false line = line.
Proof.
  induction line as [|c line IH]; [reflexivity|].
  cbn [no_markup]. intros H. apply andb_true_iff in H. destruct H as [Hc Hl].
  rewrite clean_loop_step. unfold is_markup in Hc.
  apply negb_true_iff in Hc.
  repeat (apply orb_false_iff in Hc; destruct Hc as [Hc ?]).
  rewrite Hc. repeat match goal with H : (_ =? _)%char = false |- _ => rewrite H; clear H end.
  cbn [negb andb]. rewrite IH by exact Hl. reflexivity.
Qed.

(** C10. The output of [clean_line] holds none of the characters
    [{ } ( ) ;], and cleaning a cleaned line changes nothing. *)
Theorem clean_line_idempotent (line : string) :
  no_markup (clean_line line) = true
  /\ clean_line (clean_line line) = clean_line line.
Proof.
  assert (H : no_markup (clean_line line) = true)
    by (apply (clean_loop_no_markup (String.length line)); lia).
  split; [exact H|]. unfold clean_line at 1. apply clean_loop_fixed. exact H.
Qed.

(** * Further properties of the rule engine *)

(** ** What the validator accepts *)

(** X1. [is_valid_move] between two squares of the board reads no
    square outside the board: it always answers. *)
Theorem is_valid_move_stays_on_board (b : Board) (piece : ascii)
    (from_r from_f to_r to_f : Z) (is_white capture : bool)
    (Hfrom : on_board from_r from_f = true) (Hto : on_board to_r to_f = true) :
  exists v, is_valid_move b piece from_r from_f to_r to_f is_white capture = Some v.
Proof. apply is_valid_move_defined; assumption. Qed.

Lemma is_valid_move_stays_on_board_witness :
  exists v, is_valid_move init_board "Q" 7 3 0 3 true true = Some v.
Proof. apply is_valid_move_stays_on_board; reflexivity. Defined.

Lemma is_valid_move_true (b : Board) (piece : ascii) (from_r from_f to_r to_f : Z)
    (is_white capture : bool) :
  is_valid_move b piece from_r from_f to_r to_f is_white capture = Some true ->
  on_board to_r to_f = true
  /\ movement b (toupper piece) from_r from_f to_r to_f is_white capture
       (b to_r to_f =? ".")%char
       (negb (b to_r to_f =? ".")%char
        && negb (Bool.eqb (is_white_piece (b to_r to_f)) is_white)) = Some true
  /\ (if capture
      then (negb (b to_r to_f =? ".")%char
            && negb (Bool.eqb (is_white_piece (b to_r to_f)) is_white))
           || ((toupper piece =? "P")%char && (b to_r to_f =? ".")%char)
      else (b to_r to_f =? ".")%char) = true.
Proof.
  unfold is_valid_move. intros H.
  apply bind_some in H. destruct H as (at_to & Hrd & H).
  apply rd_some in Hrd. destruct Hrd as [Hto ->].
  apply bind_some in H. destruct H as (mv & Hmv & H).
  destruct mv; [|discriminate H].
  split; [exact Hto|]. split; [exact Hmv|].
  destruct capture; injection H as H; [|exact H].
  rewrite andb_true_r in H. exact H.
Qed.

(** X2. A move that [is_valid_move] accepts lands on the board; as a
    quiet move it lands on an empty square, and as a capture on a piece
    of the other colour, or else it is a pawn in the en passant
    situation.  A square that holds a piece of the mover's colour is
    never the destination of an accepted move. *)
Theorem is_valid_move_destination (b : Board) (piece : ascii)
    (from_r from_f to_r to_f : Z) (is_white capture : bool)
    (Hvalid : is_valid_move b piece from_r from_f to_r to_f is_white capture = Some true) :
  on_board to_r to_f = true
  /\ (capture = false -> b to_r to_f = EMPTY)
  /\ (capture = true ->
      piece_of (negb is_white) (b to_r to_f)
      \/ (toupper piece = "P"%char
          /\ en_passant_situation b is_white from_r from_f to_r to_f))
  /\ ~ piece_of is_white (b to_r to_f).
Proof.
  apply is_valid_move_true in Hvalid. destruct Hvalid as (Hto & Hmv & Hfinal).
  assert (Henemy : negb (b to_r to_f =? ".")%char
                   && negb (Bool.eqb (is_white_piece (b to_r to_f)) is_white) = true ->
                   piece_of (negb is_white) (b to_r to_f)).
  { intros H. apply andb_true_iff in H. destruct H as [H1 H2].
    apply negb_true_iff in H1, H2. split.
    - apply Ascii.eqb_neq. exact H1.
    - destruct (is_white_piece (b to_r to_f)); destruct is_white;
        try reflexivity; discriminate H2. }
  split; [exact Hto|]. split; [|split].
  - intros ->. apply Ascii.eqb_eq. exact Hfinal.
  - intros ->. apply orb_true_iff in Hfinal. destruct Hfinal as [H | H].
    + left. apply Henemy. exact H.
    + right. apply andb_true_iff in H. destruct H as [HP He].
      apply Ascii.eqb_eq in HP. split; [exact HP|].
      rewrite HP, He in Hmv. unfold movement in Hmv.
      change ("P" =? "P")%char with true in Hmv. cbv iota in Hmv.
      cbn [negb andb] in Hmv.
      unfold en_passant_situation, en_passant_row, forward.
      apply Ascii.eqb_eq in He.
      destruct is_white; cbn [andb orb negb] in Hmv;
      split_ifs_in Hmv; try discriminate Hmv.
      all: apply bind_some in Hmv; destruct Hmv as (c & Hc & Hmv);
        apply rd_some in Hc; destruct Hc as [_ ->];
        injection Hmv as Hmv; apply Ascii.eqb_eq in Hmv.
      all: repeat split; try exact He; try exact Hmv; lia.
  - intros [Hne Hcol]. destruct capture.
    + apply orb_true_iff in Hfinal. destruct Hfinal as [H | H].
      * apply Henemy in H. destruct H as [_ H]. rewrite Hcol in H.
        destruct is_white; discriminate H.
      * apply andb_true_iff in H. destruct H as [_ H].
        apply Ascii.eqb_eq in H. contradiction.
    + apply Ascii.eqb_eq in Hfinal. contradiction.
Qed.

Lemma is_valid_move_destination_witness :
  on_board 2 3 = true
  /\ (true = false -> en_passant_position 2 3 = EMPTY)
  /\ (true = true ->
      piece_of (negb true) (en_passant_position 2 3)
      \/ (toupper "P" = "P"%char
          /\ en_passant_situation en_passant_position true 3 4 2 3))
  /\ ~ piece_of true (en_passant_position 2 3).
Proof.
  apply (is_valid_move_destination en_passant_position "P" 3 4 2 3 true true).
  reflexivity.
Defined.

(** X3. A move that [is_valid_move] accepts has the displacement of its
    piece: pawns go one row ahead (straight or one file aside) or two
    rows straight ahead from their home row, knights jump, bishops,
    rooks, queens and kings move as in chess.  In particular no accepted
    move stays in place, and a letter that names no piece is never
    accepted. *)
Theorem is_valid_move_geometry (b : Board) (piece : ascii)
    (from_r from_f to_r to_f : Z) (is_white capture : bool)
    (Hvalid : is_valid_move b piece from_r from_f to_r to_f is_white capture = Some true) :
  piece_geometry (toupper piece) is_white from_r from_f to_r to_f
  /\ (from_r, from_f) <> (to_r, to_f)
  /\ In (toupper piece) ["P"; "N"; "B"; "R"; "Q"; "K"]%char.
Proof.
  apply is_valid_move_true in Hvalid. destruct Hvalid as (_ & Hmv & _).
  assert (Hgeo : piece_geometry (toupper piece) is_white from_r from_f to_r to_f).
  { unfold movement in Hmv. unfold piece_geometry, knight_shape, forward, pawn_home_row.
    cbv zeta.
    destruct (toupper piece =? "P")%char eqn:EP;
      [apply Ascii.eqb_eq in EP; left; split; [exact EP|] |].
    2: destruct (toupper piece =? "N")%char eqn:EN;
      [apply Ascii.eqb_eq in EN; right; left; split; [exact EN|] |].
    3: destruct (toupper piece =? "B")%char eqn:EB;
      [apply Ascii.eqb_eq in EB; right; right; left; split; [exact EB|] |].
    4: destruct (toupper piece =? "R")%char eqn:ER;
      [apply Ascii.eqb_eq in ER; right; right; right; left; split; [exact ER|] |].
    5: destruct (toupper piece =? "Q")%char eqn:EQ;
      [apply Ascii.eqb_eq in EQ; right; right; right; right; left; split; [exact EQ|] |].
    6: destruct (toupper piece =? "K")%char eqn:EK;
      [apply Ascii.eqb_eq in EK; right; right; right; right; right; split; [exact EK|]
      | discriminate Hmv].
    all: destruct is_white; cbn [andb orb negb] in Hmv;
      split_ifs_in Hmv; try discriminate Hmv; try (injection Hmv as Hmv); lia. }
  split; [exact Hgeo|]. split.
  - intros E. injection E as -> ->.
    unfold piece_geometry, knight_shape, forward in Hgeo. cbv zeta in Hgeo.
    destruct is_white; lia.
  - unfold piece_geometry in Hgeo. cbv zeta in Hgeo. cbn [In].
    destruct Hgeo as [[-> _]|[[-> _]|[[-> _]|[[-> _]|[[-> _]|[-> _]]]]]]; tauto.
Qed.

Lemma is_valid_move_geometry_witness :
  piece_geometry (toupper "n") false 0 6 2 5
  /\ (0, 6) <> (2, 5)
  /\ In (toupper "n") ["P"; "N"; "B"; "R"; "Q"; "K"]%char.
Proof.
  apply (is_valid_move_geometry init_board "n" 0 6 2 5 false false). reflexivity.
Defined.

(** X4. Only knights jump: an accepted move of any other piece joins
    two squares of a rank, file or diagonal, and every square strictly
    between them is empty. *)
Theorem only_knights_jump (b : Board) (piece : ascii)
    (from_r from_f to_r to_f : Z) (is_white capture : bool)
    (Hfrom : on_board from_r from_f = true)
    (Hvalid : is_valid_move b piece from_r from_f to_r to_f is_white capture = Some true)
    (Hpiece : toupper piece <> "N"%char) :
  on_line from_r from_f to_r to_f
  /\ forall r f, strictly_between from_r from_f to_r to_f r f -> b r f = EMPTY.
Proof.
  assert (Hto : on_board to_r to_f = true)
    by (apply is_valid_move_true in Hvalid; apply Hvalid).
  destruct (valid_move_shape b piece from_r from_f to_r to_f is_white capture
              Hfrom Hto Hvalid) as [[HN _] | [_ (Hline & _ & Hclear)]].
  - contradiction.
  - split; assumption.
Qed.

Lemma only_knights_jump_witness :
  on_line 6 4 4 4
  /\ forall r f, strictly_between 6 4 4 4 r f -> init_board r f = EMPTY.
Proof.
  apply (only_knights_jump init_board "P" 6 4 4 4 true false);
    [reflexivity | reflexivity | discriminate].
Defined.

(** ** What the parser returns *)

(** X5. The scan of [parse_san] never overruns [candidates[16]]:
    whatever the board, at most sixteen squares pass its test, and the
    scan returns exactly those squares. *)
Theorem candidates_fit_array (char_signed : bool) (san : string) (is_white : bool)
    (b : Board) (t : Target)
    (Hheader : parse_header char_signed san is_white = Some (Search t)) :
  candidates b t is_white = Some (candidate_squares b t is_white)
  /\ (length (candidate_squares b t is_white) <= 16)%nat.
Proof.
  destruct (parse_header_search _ _ _ _ Hheader) as [Hto _].
  assert (Hpiece := target_piece_not_empty _ _ _ _ Hheader).
  split; [apply candidates_defined | apply candidate_squares_bound]; assumption.
Qed.

Lemma candidates_fit_array_witness :
  candidates init_board (mkTarget zero 5 2 "N" (-1) (-1) false) true
    = Some (candidate_squares init_board (mkTarget zero 5 2 "N" (-1) (-1) false) true)
  /\ (length (candidate_squares init_board (mkTarget zero 5 2 "N" (-1) (-1) false) true)
      <= 16)%nat.
Proof.
  apply (candidates_fit_array true "Nc3" true init_board). reflexivity.
Defined.

Lemma trial_loop_some (b : Board) (t : Target) (is_white : bool) (cands : list (Z * Z))
    (m : Move) (b' : Board) :
  trial_loop b t is_white cands = Some (Some m, b') ->
  exists c, In c cands /\ m = move_from t c /\ king_safe_after b is_white m.
Proof.
  induction cands as [|c cands IH]; cbn [trial_loop]; [discriminate|].
  intros H. apply bind_some in H. destruct H as (b1 & Ha & H).
  apply bind_some in H. destruct H as (chk & Hc & H).
  destruct chk; cbn [negb] in H.
  - destruct (IH H) as (c' & Hin & Hm & Hsafe).
    exists c'. split; [right; exact Hin|]. split; assumption.
  - injection H as <- _. exists c. split; [left; reflexivity|].
    split; [reflexivity|]. exists b1. split; assumption.
Qed.

(** The move that [parse_san] returns for a token that is not a castling
    token starts from one of the candidates. *)
Lemma parse_san_from_candidate (char_signed : bool) (san : string) (is_white : bool)
    (b : Board) (t : Target) (m : Move) (b' : Board) :
  parse_header char_signed san is_white = Some (Search t) ->
  parse_san char_signed san is_white b = Some (Some m, b') ->
  exists c, In c (candidate_squares b t is_white) /\ m = move_from t c
            /\ ((2 <= length (candidate_squares b t is_white))%nat ->
                king_safe_after b is_white m).
Proof.
  intros Hh H. unfold parse_san in H. rewrite Hh in H. cbn [bind] in H.
  destruct (parse_header_search _ _ _ _ Hh) as [Hto _].
  rewrite (candidates_defined b t is_white Hto (target_piece_not_empty _ _ _ _ Hh)) in H.
  cbn [bind] in H.
  destruct (candidate_squares b t is_white) as [|c1 [|c2 cs]] eqn:Ec.
  - discriminate H.
  - injection H as <- _. exists c1. split; [left; reflexivity|].
    split; [reflexivity|]. cbn [length]. lia.
  - apply trial_loop_some in H. destruct H as (c & Hin & Hm & Hsafe).
    exists c. split; [exact Hin|]. split; [exact Hm|]. intros _. exact Hsafe.
Qed.

(** X6. A move that [parse_san] returns for a token other than a
    castling token is a pseudo-legal move of the mover's own piece: its
    origin is a square of the board that holds the piece the token names,
    in the mover's colour, and [is_valid_move] accepts it with the
    token's capture flag.  If the token had several candidates, the
    move leaves the mover's king out of check. *)
Theorem parse_san_sound (char_signed : bool) (san : string) (is_white : bool)
    (b : Board) (t : Target) (m : Move) (b' : Board)
    (Hheader : parse_header char_signed san is_white = Some (Search t))
    (Hparse : parse_san char_signed san is_white b = Some (Some m, b')) :
  on_board (from_r m) (from_f m) = true
  /\ on_board (to_r m) (to_f m) = true
  /\ b (from_r m) (from_f m) = target_piece_of t is_white
  /\ piece_of is_white (b (from_r m) (from_f m))
  /\ is_valid_move b (b (from_r m) (from_f m)) (from_r m) (from_f m) (to_r m) (to_f m)
       is_white (t_capture t) = Some true
  /\ ((2 <= length (candidate_squares b t is_white))%nat ->
      king_safe_after b is_white m).
Proof.
  destruct (parse_san_from_candidate _ _ _ _ _ _ _ Hheader Hparse)
    as ([r f] & Hin & -> & Hsafe).
  destruct (parse_header_search _ _ _ _ Hheader) as [Hto Hp].
  unfold candidate_squares in Hin. apply filter_In in Hin. destruct Hin as [Hsq Hok].
  apply in_squares in Hsq. apply is_candidate_true in Hok. destruct Hok as [Hpiece Hv].
  unfold move_from. cbn [from_r from_f to_r to_f fst snd].
  split; [exact Hsq|]. split; [exact Hto|]. split; [exact Hpiece|]. split; [|split].
  - rewrite Hpiece. split.
    + exact (target_piece_not_empty _ _ _ _ Hheader).
    + unfold target_piece_of. destruct Hp as [Hp | Hp].
      * rewrite Hp. destruct is_white; reflexivity.
      * destruct is_white; [exact Hp|].
        revert Hp. generalize (t_piece t). intros c.
        destruct c as [[] [] [] [] [] [] [] []]; intros H; try discriminate H; reflexivity.
  - rewrite Hpiece. exact Hv.
  - exact Hsafe.
Qed.

Lemma parse_san_sound_witness :
  on_board 7 1 = true
  /\ on_board 5 2 = true
  /\ two_knights_position 7 1 = "N"%char
  /\ piece_of true (two_knights_position 7 1)
  /\ is_valid_move two_knights_position (two_knights_position 7 1) 7 1 5 2 true false
     = Some true
  /\ ((2 <= length (candidate_squares two_knights_position
                      (mkTarget zero 5 2 "N" (-1) (-1) false) true))%nat ->
      king_safe_after two_knights_position true (mkMove 7 1 5 2 zero)).
Proof.
  apply (parse_san_sound true "Nc3" true two_knights_position
           (mkTarget zero 5 2 "N" (-1) (-1) false) (mkMove 7 1 5 2 zero)
           two_knights_position); reflexivity.
Defined.

(** X7. Every move that [parse_san] returns can be applied:
    [apply_move] with the same side to move writes no square outside
    the board, for castling tokens as for the others. *)
Theorem parsed_move_applies (char_signed : bool) (san : string) (is_white : bool)
    (b : Board) (m : Move) (b' : Board)
    (Hparse : parse_san char_signed san is_white b = Some (Some m, b')) :
  exists b'', apply_move m is_white b = Some b''.
Proof.
  assert (H := Hparse). unfold parse_san in H.
  apply bind_some in H. destruct H as (h & Hh & H).
  destruct h as [mc | | t].
  - injection H as <- _. clear Hparse. unfold parse_header in Hh.
    apply bind_some in Hh. destruct Hh as (clean_san & _ & Hh).
    assert (Hmc : exists r side, (r = 7 \/ r = 0) /\ (side = 6 \/ side = 2)
                                 /\ mc = mkMove r 4 r side zero).
    { destruct (String.eqb clean_san "O-O" || String.eqb clean_san "0-0").
      - injection Hh as <-. exists (if is_white then 7 else 0), 6.
        destruct is_white; repeat split; auto.
      - destruct (String.eqb clean_san "O-O-O" || String.eqb clean_san "0-0-0").
        + injection Hh as <-. exists (if is_white then 7 else 0), 2.
          destruct is_white; repeat split; auto.
        + exfalso. revert Hh.
          repeat match goal with
                 | |- context [if ?c then _ else _] => destruct c
                 | |- context [match ?x with _ => _ end] => destruct x
                 end; discriminate. }
    destruct Hmc as (r & side & Hr & Hside & ->).
    apply apply_move_defined. intros r' f' Hin. unfold touched in Hin.
    cbn [from_r from_f to_r to_f app In] in Hin.
    destruct Hin as [E | [E | Hin]];
      [inversion E; subst; apply on_board_iff; lia
      | inversion E; subst; apply on_board_iff; lia |].
    apply in_app_or in Hin. destruct Hin as [Hin | Hin].
    + unfold pawn_takes_empty in Hin. cbn [from_r from_f to_r to_f] in Hin.
      replace (Z.abs (4 - side) =? 1) with false in Hin by lia.
      rewrite andb_false_r in Hin. destruct Hin.
    + destruct (king_shifts_two _ b); [|destruct Hin].
      unfold rook_squares in Hin. cbn [from_r from_f to_r to_f In] in Hin.
      apply on_board_iff.
      destruct (side >? 4); destruct Hin as [E | [E | []]]; inversion E; subst; lia.
  - discriminate H.
  - destruct (parse_san_from_candidate _ _ _ _ _ _ _ Hh Hparse) as (c & Hin & -> & _).
    destruct (parse_header_search _ _ _ _ Hh) as [Hto _].
    destruct (trial_defined b t is_white c Hto Hin) as [(b'' & Ha & _) | (b'' & Ha & _)];
      exists b''; exact Ha.
Qed.

Lemma parsed_move_applies_witness :
  exists b'', apply_move (mkMove 7 4 7 6 zero) true castling_position = Some b''.
Proof.
  apply (parsed_move_applies true "O-O" true castling_position (mkMove 7 4 7 6 zero)
           castling_position).
  reflexivity.
Defined.

(** ** The king that the scans find *)

Lemma find_first {A : Type} (p : A -> bool) (l : list A) (x : A) :
  find p l = Some x ->
  exists l1 l2, l = l1 ++ x :: l2 /\ p x = true /\ Forall (fun y => p y = false) l1.
Proof.
  induction l as [|a l IH]; cbn [find]; [discriminate|].
  destruct (p a) eqn:E.
  - intros H. injection H as <-. exists [], l. repeat split; [exact E | constructor].
  - intros H. destruct (IH H) as (l1 & l2 & -> & Hx & Hl1).
    exists (a :: l1), l2. repeat split; [exact Hx|]. constructor; assumption.
Qed.

Lemma scan_sorted_app (l1 l2 : list (Z * Z)) (x : Z * Z) :
  scan_sorted (l1 ++ x :: l2) = true ->
  Forall (fun y => scanned_beforeb x y = true) l2.
Proof.
  induction l1 as [|a l1 IH]; cbn [app scan_sorted]; intros H;
    apply andb_true_iff in H; destruct H as [H1 H2].
  - apply Forall_forall. apply forallb_forall. exact H1.
  - apply IH. exact H2.
Qed.

(** X8. [find_king_pos], and with it the king search of [is_in_check],
    returns the first square in scan order that holds the king: a square
    of the board holding it, with no king on any row above it nor on
    its row to the left of it; it fails only when no square holds it. *)
Theorem find_king_pos_first (b : Board) (king : ascii) :
  match find_king_pos b king with
  | Some (king_r, king_f) =>
      on_board king_r king_f = true
      /\ b king_r king_f = king
      /\ forall r f, on_board r f = true -> scanned_before r f king_r king_f ->
                     b r f <> king
  | None => forall r f, on_board r f = true -> b r f <> king
  end.
Proof.
  destruct (find_king_pos b king) as [[king_r king_f]|] eqn:E.
  - destruct (find_king_pos_some _ _ _ _ E) as [Hon Hk].
    split; [exact Hon|]. split; [exact Hk|].
    intros r f Hrf Hbefore. unfold find_king_pos in E.
    apply find_first in E. destruct E as (l1 & l2 & Hsplit & _ & Hl1).
    assert (Hin : In (r, f) squares) by (apply in_squares; exact Hrf).
    rewrite Hsplit in Hin. apply in_app_or in Hin.
    destruct Hin as [Hin | [Heq | Hin]].
    + rewrite Forall_forall in Hl1. apply Ascii.eqb_neq. apply (Hl1 (r, f) Hin).
    + inversion Heq; subst. unfold scanned_before in Hbefore. lia.
    + assert (Hs : scan_sorted squares = true) by reflexivity.
      rewrite Hsplit in Hs. apply scan_sorted_app in Hs.
      rewrite Forall_forall in Hs. specialize (Hs (r, f) Hin).
      unfold scanned_beforeb in Hs. cbn [fst snd] in Hs.
      unfold scanned_before in Hbefore. lia.
  - apply find_king_pos_none. exact E.
Qed.

(** ** Replaying a game *)













(** ** Line cleaning, continued *)

Lemma subsequence_refl (s : string) : subsequence s s.
Proof. induction s; constructor; assumption. Qed.

Lemma subsequence_length (s t : string) :
  subsequence s t -> (String.length s <= String.length t)%nat.
Proof. induction 1; cbn [String.length]; lia. Qed.

Lemma subsequence_skip_to_newline (s line : string) :
  subsequence s (skip_to_newline line) -> subsequence s line.
Proof.
  induction line as [|d line IH]; cbn [skip_to_newline]; [tauto|].
  destruct (d =? newline)%char; [tauto|].
  intros H. apply subsequence_skip. apply IH. exact H.
Qed.

Lemma clean_loop_subsequence (n : nat) :
  forall (line : string) (ic iv : bool),
    (String.length line <= n)%nat -> subsequence (clean_loop ic iv line) line.
Proof.
  induction n as [|n IH]; intros line ic iv Hlen.
  - destruct line; [constructor | cbn [String.length] in Hlen; lia].
  - destruct line as [|c line]; [constructor|].
    cbn [String.length] in Hlen. rewrite clean_loop_step.
    assert (Hskip := skip_to_newline_length line).
    destruct (c =? "{")%char; [apply subsequence_skip, IH; lia|].
    destruct (c =? "}")%char; [apply subsequence_skip, IH; lia|].
    destruct (c =? "(")%char; [apply subsequence_skip, IH; lia|].
    destruct (c =? ")")%char; [apply subsequence_skip, IH; lia|].
    destruct (c =? ";")%char.
    { apply subsequence_skip, subsequence_skip_to_newline, IH. lia. }
    destruct (negb ic && negb iv).
    + apply subsequence_keep, IH. lia.
    + apply subsequence_skip, IH. lia.
Qed.

(** X11. [clean_line] only deletes: what it leaves is the line with
    some characters left out, in the same order, so the write pointer
    of the in-place copy never passes the read pointer. *)
Theorem clean_line_only_deletes (line : string) :
  subsequence (clean_line line) line
  /\ strlen (clean_line line) <= strlen line.
Proof.
  assert (H : subsequence (clean_line line) line).
  { apply (clean_loop_subsequence (String.length line)). lia. }
  split; [exact H|]. unfold strlen. apply subsequence_length in H. lia.
Qed.

Lemma clean_loop_keeps (a s : string) :
  no_markup a = true ->
  clean_loop false false (a ++ s) = (a ++ clean_loop false false s)%string.
Proof.
  induction a as [|c a IH]; [reflexivity|].
  cbn [no_markup]. intros H. apply andb_true_iff in H. destruct H as [Hc Hl].
  cbn [String.append]. rewrite clean_loop_step. unfold is_markup in Hc.
  apply negb_true_iff in Hc.
  repeat (apply orb_false_iff in Hc; destruct Hc as [Hc ?]).
  rewrite Hc. repeat match goal with H : (_ =? _)%char = false |- _ => rewrite H; clear H end.
  cbn [negb andb]. rewrite IH by exact Hl. reflexivity.
Qed.

Lemma lacks_cons (reject : string) (c : ascii) (s : string) :
  lacks reject (String c s) = true ->
  in_set reject c = false /\ lacks reject s = true.
Proof.
  cbn [lacks]. intros H. apply andb_true_iff in H. destruct H as [H1 H2].
  apply negb_true_iff in H1. split; assumption.
Qed.

Lemma in_set_cons_false (d : ascii) (reject : string) (c : ascii) :
  in_set (String d reject) c = false ->
  (d =? c)%char = false /\ in_set reject c = false.
Proof.
  unfold in_set. cbn [strchr]. destruct (d =? c)%char; [discriminate|].
  destruct (strchr reject c); [discriminate|]. split; reflexivity.
Qed.

Ltac not_in_set H :=
  repeat (apply in_set_cons_false in H;
          let E := fresh "E" in destruct H as [E H];
          rewrite Ascii.eqb_sym in E).





Lemma skip_to_newline_body (body rest : string) :
  lacks newline_string body = true ->
  skip_to_newline (body ++ String newline rest) = String newline rest.
Proof.
  induction body as [|c body IH]; intros H.
  - cbn [String.append skip_to_newline]. rewrite Ascii.eqb_refl. reflexivity.
  - apply lacks_cons in H. destruct H as [Hc Hl]. unfold newline_string in Hc.
    not_in_set Hc. cbn [String.append skip_to_newline]. rewrite E. apply IH. exact Hl.
Qed.

Lemma skip_to_newline_end (body : string) :
  lacks newline_string body = true -> skip_to_newline body = EmptyString.
Proof.
  induction body as [|c body IH]; intros H; [reflexivity|].
  apply lacks_cons in H. destruct H as [Hc Hl]. unfold newline_string in Hc.
  not_in_set Hc. cbn [skip_to_newline]. rewrite E. apply IH. exact Hl.
Qed.

(** X13. Outside comments a semicolon removes the rest of its line:
    everything up to the next newline goes, the newline itself stays
    and cleaning goes on behind it; without a newline the rest of the
    string goes. *)
Theorem clean_line_drops_rest_of_line (a body rest : string)
    (Ha : no_markup a = true)
    (Hbody : lacks newline_string body = true) :
  clean_line (a ++ String ";" (body ++ String newline rest))
  = (a ++ String newline (clean_line rest))%string
  /\ clean_line (a ++ String ";" body) = a.
Proof.
  unfold clean_line. split.
  - rewrite clean_loop_keeps by exact Ha. rewrite clean_loop_semicolon.
    rewrite skip_to_newline_body by exact Hbody. rewrite clean_loop_step.
    cbn [Ascii.eqb Bool.eqb negb andb]. reflexivity.
  - rewrite clean_loop_keeps by exact Ha. rewrite clean_loop_semicolon.
    rewrite skip_to_newline_end by exact Hbody. cbn [clean_loop].
    clear. induction a as [|c a IH]; [reflexivity|]. cbn [String.append]. rewrite IH.
    reflexivity.
Qed.

Lemma clean_line_drops_rest_of_line_witness :
  no_markup "1. e4 " = true
  /\ lacks newline_string "the (king's) pawn" = true
  /\ clean_line ("1. e4 " ++ String ";" ("the (king's) pawn" ++ String newline "e5"))
     = ("1. e4 " ++ String newline (clean_line "e5"))%string
  /\ clean_line ("1. e4 " ++ String ";" "the (king's) pawn") = "1. e4 "%string.
Proof.
  split; [reflexivity|]. split; [reflexivity|].
  apply (clean_line_drops_rest_of_line "1. e4 " "the (king's) pawn" "e5"); reflexivity.
Defined.

(** ** Tokens, continued *)

Lemma skip_while_suffix (pred : ascii -> bool) (s : string) :
  exists skipped : string,
    s = (skipped ++ skip_while pred s)%string /\ all_chars pred skipped = true.
Proof.
  induction s as [|c s IH].
  - exists EmptyString. split; reflexivity.
  - cbn [skip_while]. destruct (pred c) eqn:E.
    + destruct IH as [sk [IH1 IH2]]. exists (String c sk). cbn [String.append all_chars].
      rewrite E, IH2, <- IH1. split; reflexivity.
    + exists EmptyString. split; reflexivity.
Qed.

Lemma skip_while_head (pred : ascii -> bool) (s : string) :
  match skip_while pred s with
  | EmptyString => True
  | String c _ => pred c = false
  end.
Proof.
  induction s as [|c s IH]; [exact I|].
  cbn [skip_while]. destruct (pred c) eqn:E; [exact IH | exact E].
Qed.

Lemma skip_while_all (pred : ascii -> bool) (s rest : string) :
  all_chars pred s = true ->
  match rest with EmptyString => True | String c _ => pred c = false end ->
  skip_while pred (s ++ rest) = rest.
Proof.
  induction s as [|c s IH]; intros Hs Hrest.
  - cbn [String.append]. destruct rest as [|c rest]; [reflexivity|].
    cbn [skip_while]. rewrite Hrest. reflexivity.
  - cbn [all_chars] in Hs. apply andb_true_iff in Hs. destruct Hs as [Hc Hs].
    cbn [String.append skip_while]. rewrite Hc. apply IH; assumption.
Qed.

Lemma prefix_split (n : nat) (p : string) :
  exists rest : string, p = (substring 0 n p ++ rest)%string.
Proof.
  revert p. induction n as [|n IH]; intros p.
  - exists p. destruct p; reflexivity.
  - destruct p as [|c p]; [exists EmptyString; reflexivity|].
    destruct (IH p) as [rest E]. exists rest. cbn [substring String.append].
    rewrite <- E. reflexivity.
Qed.

Lemma strcspn_nonneg (p reject : string) : 0 <= strcspn p reject.
Proof.
  induction p as [|c p IH]; cbn [strcspn]; [lia|].
  destruct (in_set reject c); lia.
Qed.

Lemma strcspn_length (p reject : string) :
  strcspn p reject <= Z.of_nat (String.length p).
Proof.
  induction p as [|c p IH]; cbn [strcspn String.length]; [lia|].
  destruct (in_set reject c); lia.
Qed.

Lemma prefix_lacks (reject : string) (n : nat) (p : string) :
  Z.of_nat n <= strcspn p reject -> lacks reject (substring 0 n p) = true.
Proof.
  revert p. induction n as [|n IH]; intros p Hn.
  - destruct p; reflexivity.
  - destruct p as [|c p]; [reflexivity|]. cbn [strcspn] in Hn.
    cbn [substring lacks]. destruct (in_set reject c); [lia|].
    cbn [negb andb]. apply IH. lia.
Qed.

Lemma substring_length_exact (n : nat) (p : string) :
  (n <= String.length p)%nat -> String.length (substring 0 n p) = n.
Proof.
  revert p. induction n as [|n IH]; intros p Hn.
  - destruct p; reflexivity.
  - destruct p as [|c p]; [cbn in Hn; lia|]. cbn [substring String.length].
    rewrite IH; [reflexivity | cbn in Hn; lia].
Qed.

Lemma append_assoc (s t u : string) : ((s ++ t) ++ u = s ++ (t ++ u))%string.
Proof. induction s as [|c s IH]; [reflexivity|]. cbn [String.append]. rewrite IH. reflexivity. Qed.

Lemma append_length (s t : string) :
  String.length (s ++ t) = (String.length s + String.length t)%nat.
Proof. induction s as [|c s IH]; [reflexivity|]. cbn [String.append String.length]. rewrite IH. reflexivity. Qed.

Lemma isdigit_not_dot (c : ascii) : isdigit c = true -> is_dot c = false.
Proof.
  unfold is_dot. destruct (c =? ".")%char eqn:E; [|reflexivity].
  apply Ascii.eqb_eq in E. subst c. discriminate.
Qed.

(** The start [p] of the SAN text inside a token: a part of the token
    that does not begin with a dot. *)
Lemma extract_start (token : string) :
  let p :=
    if isdigit (char_at token 0) then
      let q := skip_while isdigit token in
      if (char_at q 0 =? ".")%char then skip_while is_dot q else token
    else skip_while is_dot token in
  (exists skipped : string, token = (skipped ++ p)%string)
  /\ match p with EmptyString => True | String c _ => is_dot c = false end.
Proof.
  cbv zeta.
  destruct (isdigit (char_at token 0)) eqn:Ed.
  - destruct (char_at (skip_while isdigit token) 0 =? ".")%char.
    + split; [|apply skip_while_head].
      destruct (skip_while_suffix isdigit token) as [s1 [E1 _]].
      destruct (skip_while_suffix is_dot (skip_while isdigit token)) as [s2 [E2 _]].
      exists (s1 ++ s2)%string. rewrite append_assoc.
      rewrite <- E2. exact E1.
    + split; [exists EmptyString; reflexivity|].
      destruct token as [|c token]; [exact I|]. apply isdigit_not_dot. exact Ed.
  - split; [|apply skip_while_head].
    destruct (skip_while_suffix is_dot token) as [s1 [E1 _]]. exists s1. exact E1.
Qed.

Lemma extract_san_token_out (token : string) (out_size : Z) (out : string)
    (Hsize : 2 <= out_size)
    (Hout : extract_san_token token out_size = Some out) :
  1 <= strlen out <= out_size - 1
  /\ (exists skipped rest : string, token = (skipped ++ out ++ rest)%string)
  /\ lacks "!?" out = true
  /\ is_dot (char_at out 0) = false.
Proof.
  unfold extract_san_token in Hout.
  destruct (extract_start token) as [[skipped Hsk] Hhead].
  cbv zeta in Hsk, Hhead.
  match type of Hout with context [match ?p with EmptyString => _ | String _ _ => _ end] =>
    remember p as p0 eqn:Ep end.
  clear Ep. destruct p0 as [|c p]; [discriminate|].
  assert (Hlen0 := strcspn_nonneg (String c p) "!?").
  assert (Hlen1 := strcspn_length (String c p) "!?").
  remember (strcspn (String c p) "!?") as len eqn:Elen.
  destruct (len =? 0) eqn:E0; [discriminate|]. apply Z.eqb_neq in E0.
  injection Hout as <-. unfold prefix, strlen.
  remember (if out_size <=? len then out_size - 1 else len) as k eqn:Ek.
  assert (Hk : 1 <= k <= len /\ k <= out_size - 1).
  { subst k. destruct (out_size <=? len) eqn:E; [apply Z.leb_le in E | apply Z.leb_gt in E]; lia. }
  clear Ek. destruct Hk as [[Hk1 Hk2] Hk3].
  split; [|split; [|split]].
  - rewrite substring_length_exact by lia. lia.
  - destruct (prefix_split (Z.to_nat k) (String c p)) as [rest Hrest].
    exists skipped, rest. rewrite <- Hrest. exact Hsk.
  - apply prefix_lacks. rewrite Z2Nat.id by lia. lia.
  - destruct (Z.to_nat k) as [|n] eqn:En; [lia|]. cbn [substring]. exact Hhead.
Qed.

(** X14. A token that [extract_san_token] accepts gives a SAN string
    that fits the buffer with its terminator, is not empty, is a
    contiguous part of the token, holds no [!] or [?] and does not begin
    with a dot. *)
Theorem extract_san_token_shape (token : string) (out_size : Z) (out : string)
    (Hsize : 2 <= out_size)
    (Hout : extract_san_token token out_size = Some out) :
  1 <= strlen out <= out_size - 1
  /\ (exists skipped rest : string, token = (skipped ++ out ++ rest)%string)
  /\ lacks "!?" out = true
  /\ is_dot (char_at out 0) = false.
Proof. exact (extract_san_token_out token out_size out Hsize Hout). Qed.

Lemma extract_san_token_shape_witness :
  2 <= 32
  /\ extract_san_token "12...Nxe4!?" 32 = Some "Nxe4"%string
  /\ 1 <= strlen "Nxe4" <= 32 - 1
  /\ (exists skipped rest : string, "12...Nxe4!?"%string = (skipped ++ "Nxe4" ++ rest)%string)
  /\ lacks "!?" "Nxe4" = true
  /\ is_dot (char_at "Nxe4" 0) = false.
Proof.
  split; [lia|]. split; [reflexivity|].
  apply (extract_san_token_shape "12...Nxe4!?" 32 "Nxe4"); [lia | reflexivity].
Defined.

Lemma char_at_0_append (s rest : string) :
  1 <= strlen s -> char_at (s ++ rest) 0 = char_at s 0.
Proof.
  destruct s as [|c s]; [unfold strlen; cbn; lia|]. reflexivity.
Qed.

Lemma head_pred (pred : ascii -> bool) (san : string) :
  pred (char_at san 0) = false ->
  pred zero = false ->
  match san with EmptyString => True | String c _ => pred c = false end.
Proof. destruct san as [|c san]; [tauto|]. intros H _. exact H. Qed.

(** X15. A move number in front of a move is dropped: for digits
    followed by one or more dots and then text that begins with neither
    a digit nor a dot, the result is that of the text alone. *)
Theorem extract_san_token_move_number (digits dots san : string) (out_size : Z)
    (Hdigits : all_chars isdigit digits = true)
    (Hdigit : 1 <= strlen digits)
    (Hdots : all_chars is_dot dots = true)
    (Hdot : 1 <= strlen dots)
    (Hsan : (isdigit (char_at san 0) || is_dot (char_at san 0)) = false) :
  extract_san_token (digits ++ dots ++ san) out_size = extract_san_token san out_size.
Proof.
  apply orb_false_iff in Hsan. destruct Hsan as [Hsd Hsp].
  unfold extract_san_token.
  rewrite char_at_0_append by exact Hdigit.
  assert (Hd0 : isdigit (char_at digits 0) = true).
  { destruct digits as [|d digits]; [unfold strlen in Hdigit; cbn in Hdigit; lia|].
    cbn [all_chars] in Hdigits. apply andb_true_iff in Hdigits. tauto. }
  rewrite Hd0, Hsd.
  assert (Hp0 : is_dot (char_at dots 0) = true).
  { destruct dots as [|d dots]; [unfold strlen in Hdot; cbn in Hdot; lia|].
    cbn [all_chars] in Hdots. apply andb_true_iff in Hdots. tauto. }
  assert (Hq : skip_while isdigit (digits ++ dots ++ san) = (dots ++ san)%string).
  { apply skip_while_all; [exact Hdigits|].
    destruct dots as [|d dots]; [unfold strlen in Hdot; cbn in Hdot; lia|].
    cbn [String.append]. cbn [all_chars] in Hdots. apply andb_true_iff in Hdots.
    destruct Hdots as [Hd _]. unfold is_dot in Hd. apply Ascii.eqb_eq in Hd. subst d.
    reflexivity. }
  cbv zeta. rewrite Hq. rewrite char_at_0_append by exact Hdot.
  unfold is_dot in Hp0. rewrite Hp0.
  rewrite (skip_while_all is_dot dots san Hdots) by (apply head_pred; [exact Hsp | reflexivity]).
  assert (Hs : skip_while is_dot san = san).
  { apply (skip_while_all is_dot EmptyString san eq_refl).
    apply head_pred; [exact Hsp | reflexivity]. }
  rewrite Hs. reflexivity.
Qed.

Lemma extract_san_token_move_number_witness :
  all_chars isdigit "12" = true /\ 1 <= strlen "12"
  /\ all_chars is_dot "..." = true /\ 1 <= strlen "..."
  /\ (isdigit (char_at "Nxe4!?" 0) || is_dot (char_at "Nxe4!?" 0)) = false
  /\ extract_san_token ("12" ++ "..." ++ "Nxe4!?") 32 = extract_san_token "Nxe4!?" 32.
Proof.
  repeat (split; [first [reflexivity | unfold strlen; cbn; lia]|]).
  apply (extract_san_token_move_number "12" "..." "Nxe4!?" 32);
    first [reflexivity | unfold strlen; cbn; lia].
Defined.

(** ** The move list, continued *)

Lemma all_chars_app (pred : ascii -> bool) (s t : string) :
  all_chars pred (s ++ t) = all_chars pred s && all_chars pred t.
Proof.
  induction s as [|c s IH]; [reflexivity|].
  cbn [String.append all_chars]. rewrite IH. apply andb_assoc.
Qed.

Lemma strtok_from_tokens (s : string) :
  forall cur : string,
    all_chars not_delim cur = true ->
    Forall (fun token => all_chars not_delim token = true) (strtok_from s cur).
Proof.
  induction s as [|c s IH]; intros cur Hcur.
  - cbn [strtok_from]. destruct cur; [constructor|]. constructor; [exact Hcur|constructor].
  - cbn [strtok_from]. destruct (is_delim c) eqn:E.
    + destruct cur; [apply IH; reflexivity|].
      constructor; [exact Hcur | apply IH; reflexivity].
    + apply IH. rewrite all_chars_app, Hcur. cbn [all_chars]. unfold not_delim.
      rewrite E. reflexivity.
Qed.

Lemma is_dot_char (c : ascii) : is_dot c = false -> c <> "."%char.
Proof. unfold is_dot. intros H E. subst c. discriminate. Qed.

Lemma extract_stored (token san_buf : string) :
  all_chars not_delim token = true ->
  extract_san_token token MOVE_TEXT_LEN = Some san_buf ->
  is_result_token san_buf = false ->
  stored_move (prefix san_buf (MOVE_TEXT_LEN - 1)).
Proof.
  intros Htok Hex Hres.
  assert (Hsize : 2 <= MOVE_TEXT_LEN) by (unfold MOVE_TEXT_LEN; lia).
  destruct (extract_san_token_out token MOVE_TEXT_LEN san_buf Hsize Hex)
    as [Hlen [[skipped [rest Hpart]] [Hlacks Hdot]]].
  rewrite prefix_all by (unfold strlen in Hlen; lia).
  unfold stored_move. repeat split; try tauto.
  - rewrite Hpart in Htok. rewrite !all_chars_app in Htok.
    apply andb_true_iff in Htok. destruct Htok as [_ Htok].
    apply andb_true_iff in Htok. tauto.
  - apply is_dot_char. exact Hdot.
Qed.

Lemma build_loop_stored (max_moves result_out_size : Z) (tokens : list string) :
  forall (moves : list string) (result : string),
    Forall (fun token => all_chars not_delim token = true) tokens ->
    Z.of_nat (length moves) <= max_moves ->
    Forall stored_move moves ->
    let out := fst (build_loop tokens max_moves result_out_size moves result) in
    Z.of_nat (length out) <= max_moves /\ Forall stored_move out.
Proof.
  induction tokens as [|token tokens IH]; intros moves result Htok Hlen Hmoves; cbv zeta.
  - cbn [build_loop fst]. split; assumption.
  - inversion Htok as [|? ? Ht Hts]; subst. cbn [build_loop].
    destruct (extract_san_token token MOVE_TEXT_LEN) as [san_buf|] eqn:Ex;
      [|apply IH; assumption].
    destruct (is_result_token san_buf) eqn:Er; [cbn [fst]; split; assumption|].
    destruct (Z.of_nat (length moves) <? max_moves) eqn:Ec; [|apply IH; assumption].
    apply Z.ltb_lt in Ec. apply IH; [exact Hts | rewrite length_app; cbn [length]; lia |].
    apply Forall_app. split; [exact Hmoves|]. constructor; [|constructor].
    apply (extract_stored token san_buf Ht Ex Er).
Qed.

(** X16. [build_move_list] never stores more than [max_moves] moves,
    and every move it stores is a string of 1 to 31 characters without
    white space, without [!] or [?], that does not begin with a dot and
    is not a result token. *)
Theorem build_move_list_stores_moves (move_buffer : string) (max_moves result_out_size : Z)
    (Hmax : 0 <= max_moves) :
  Z.of_nat (length (fst (build_move_list move_buffer max_moves result_out_size))) <= max_moves
  /\ Forall stored_move (fst (build_move_list move_buffer max_moves result_out_size)).
Proof.
  unfold build_move_list. cbv zeta.
  apply (build_loop_stored max_moves result_out_size).
  - apply strtok_from_tokens. reflexivity.
  - cbn [length]. lia.
  - constructor.
Qed.

Lemma build_move_list_stores_moves_witness :
  0 <= 2
  /\ Z.of_nat (length (fst (build_move_list "1. e4! e5 2. Nf3 Nc6 1-0" 2 16))) <= 2
  /\ Forall stored_move (fst (build_move_list "1. e4! e5 2. Nf3 Nc6 1-0" 2 16)).
Proof.
  split; [lia|]. apply (build_move_list_stores_moves "1. e4! e5 2. Nf3 Nc6 1-0" 2 16). lia.
Defined.

(** ** The end of a game *)

Lemma ending_of_result_buf (result : string) :
  match (if negb (is_nul (char_at result 0)) then loser_from_result result else None) with
  | Some loser_is_white => FlipKing loser_is_white
  | None =>
      if (if negb (is_nul (char_at result 0)) then is_draw_result result else false)
      then TiltKings else Plain
  end = ending_of_result result.
Proof.
  unfold ending_of_result, loser_from_result, is_draw_result.
  destruct result as [|c result]; [reflexivity|].
  destruct (negb (is_nul (char_at (String c result) 0))) eqn:E.
  - destruct (String.eqb (String c result) "1-0"); [reflexivity|].
    destruct (String.eqb (String c result) "0-1"); reflexivity.
  - apply negb_false_iff in E. unfold is_nul, char_at in E. cbn in E.
    apply Ascii.eqb_eq in E. subst c. reflexivity.
Qed.

Lemma result_token_not_empty (t : string) :
  is_result_token t = true -> negb (is_nul (char_at t 0)) = true.
Proof.
  unfold is_result_token. intros H.
  repeat (apply orb_true_iff in H; destruct H as [H|H]);
    apply String.eqb_eq in H; subst; reflexivity.
Qed.

(** X17. The ending follows the first result token of the movetext,
    whatever the header says: the black king is turned over for [1-0],
    the white king for [0-1], both kings are tilted for [1/2-1/2], and
    [*] shows nothing.  Only a movetext without a result token falls
    back on the header's result. *)
Theorem game_ending_follows_movetext (move_buffer header_result : string) :
  (forall pre t post,
      san_tokens move_buffer = pre ++ t :: post ->
      Forall not_result pre -> is_result_token t = true ->
      game_ending move_buffer header_result = ending_of_result t)
  /\ (Forall not_result (san_tokens move_buffer) ->
      game_ending move_buffer header_result = ending_of_result header_result).
Proof.
  split.
  - intros pre t post Hsplit Hpre Ht. unfold game_ending, build_move_list.
    rewrite (build_loop_result _ _ _ [] pre post t EmptyString Hsplit Hpre Ht).
    cbn [snd]. change (0 <? RESULT_LEN) with true. cbv iota zeta.
    rewrite (prefix_all t)
      by (apply is_result_token_length in Ht; unfold RESULT_LEN; lia).
    rewrite (result_token_not_empty t Ht).
    apply ending_of_result_buf.
  - intros Hall. unfold game_ending, build_move_list.
    rewrite (build_loop_no_result _ _ _ [] EmptyString Hall).
    cbn [snd]. cbv zeta. change (negb (is_nul (char_at EmptyString 0))) with false.
    cbv iota. apply ending_of_result_buf.
Qed.

(** ** PGN files *)

Lemma char_at_app (base t : string) (k : Z) :
  0 <= k -> char_at (base ++ t) (strlen base + k) = char_at t k.
Proof.
  intros Hk. unfold char_at, strlen.
  replace (Z.to_nat (Z.of_nat (String.length base) + k))
    with (Z.to_nat k + String.length base)%nat by lia.
  rewrite <- append_correct2. reflexivity.
Qed.

Lemma char_at_app_left (s t : string) (k : Z) :
  0 <= k < strlen s -> char_at (s ++ t) k = char_at s k.
Proof.
  intros Hk. unfold char_at, strlen in *.
  rewrite <- append_correct1 by lia. reflexivity.
Qed.

Lemma char_at_after (base : string) (c : ascii) (rest : string) (n : nat) :
  char_at (base ++ String c rest) (strlen base + Z.of_nat (S n))
  = match String.get n rest with Some d => d | None => zero end.
Proof.
  rewrite char_at_app by lia. unfold char_at. rewrite Nat2Z.id. reflexivity.
Qed.

Lemma strrchr_some (c : ascii) (s : string) :
  forall i : Z,
    strrchr s c = Some i ->
    exists base rest : string,
      s = (base ++ String c rest)%string /\ strlen base = i /\ strrchr rest c = None.
Proof.
  induction s as [|d s IH]; intros i H; [discriminate|].
  cbn [strrchr] in H. destruct (strrchr s c) as [j|] eqn:E.
  - injection H as <-. destruct (IH j eq_refl) as (base & rest & -> & Hlen & Hrest).
    exists (String d base), rest. cbn [String.append]. repeat split; [|exact Hrest].
    unfold strlen in *. cbn [String.length]. lia.
  - destruct (d =? c)%char eqn:Ed; [|discriminate]. injection H as <-.
    apply Ascii.eqb_eq in Ed. subst d. exists EmptyString, s. repeat split. exact E.
Qed.

Lemma strrchr_app (c : ascii) (base rest : string) :
  strrchr rest c = None ->
  strrchr (base ++ String c rest) c = Some (strlen base).
Proof.
  intros Hrest. induction base as [|d base IH].
  - cbn [String.append strrchr]. rewrite Hrest, Ascii.eqb_refl. reflexivity.
  - cbn [String.append strrchr]. rewrite IH. unfold strlen. cbn [String.length].
    f_equal. lia.
Qed.

Lemma c_string_app (s t : string) :
  c_string (s ++ t) = c_string s && c_string t.
Proof. apply all_chars_app. Qed.

(** X18. For a file name, [has_pgn_extension] holds exactly when the
    name ends in a dot followed by the three letters p, g, n, each in
    either case. *)
Theorem has_pgn_extension_iff (name : string)
    (Hname : c_string name = true) :
  has_pgn_extension name = true
  <-> exists (base : string) (e1 e2 e3 : ascii),
        name = (base ++ String "." (String e1 (String e2 (String e3 EmptyString))))%string
        /\ tolower e1 = "p"%char /\ tolower e2 = "g"%char /\ tolower e3 = "n"%char.
Proof.
  unfold has_pgn_extension. split.
  - destruct (strrchr name ".") as [dot|] eqn:Edot; [|discriminate].
    destruct (strrchr_some "." name dot Edot) as (base & rest & -> & Hlen & Hrest).
    subst dot.
    assert (A1 := char_at_after base "." rest 0). assert (A2 := char_at_after base "." rest 1).
    assert (A3 := char_at_after base "." rest 2). assert (A4 := char_at_after base "." rest 3).
    change (Z.of_nat 1) with 1 in A1. change (Z.of_nat 2) with 2 in A2.
    change (Z.of_nat 3) with 3 in A3. change (Z.of_nat 4) with 4 in A4.
    rewrite A1, A2, A3, A4. clear A1 A2 A3 A4.
    rewrite c_string_app in Hname. apply andb_true_iff in Hname.
    destruct Hname as [_ Hname]. unfold c_string in Hname. cbn [all_chars] in Hname.
    destruct rest as [|e1 rest]; [discriminate|].
    destruct rest as [|e2 rest];
      [cbn [String.get]; change (is_nul zero) with true; rewrite orb_true_r; discriminate|].
    destruct rest as [|e3 rest];
      [cbn [String.get]; change (is_nul zero) with true; rewrite !orb_true_r; discriminate|].
    destruct rest as [|e4 rest].
    + cbn [String.get].
      intros H. exists base, e1, e2, e3. split; [reflexivity|].
      destruct (is_nul e1 || is_nul e2 || is_nul e3 || negb (is_nul zero)); [discriminate|].
      apply andb_true_iff in H. destruct H as [H H3].
      apply andb_true_iff in H. destruct H as [H1 H2].
      apply Ascii.eqb_eq in H1, H2, H3. tauto.
    + cbn [String.get].
      cbn [all_chars] in Hname.
      repeat (apply andb_true_iff in Hname; let H := fresh "Hn" in destruct Hname as [H Hname]).
      rewrite Hn3. rewrite !orb_true_r. discriminate.
  - intros (base & e1 & e2 & e3 & -> & H1 & H2 & H3).
    assert (Hrest : strrchr (String e1 (String e2 (String e3 EmptyString))) "." = None).
    { cbn [strrchr].
      destruct (e1 =? ".")%char eqn:E1;
        [apply Ascii.eqb_eq in E1; subst e1; discriminate H1|].
      destruct (e2 =? ".")%char eqn:E2;
        [apply Ascii.eqb_eq in E2; subst e2; discriminate H2|].
      destruct (e3 =? ".")%char eqn:E3;
        [apply Ascii.eqb_eq in E3; subst e3; discriminate H3|].
      reflexivity. }
    rewrite (strrchr_app "." base _ Hrest).
    set (rest := String e1 (String e2 (String e3 EmptyString))) in *.
    assert (A1 := char_at_after base "." rest 0). assert (A2 := char_at_after base "." rest 1).
    assert (A3 := char_at_after base "." rest 2). assert (A4 := char_at_after base "." rest 3).
    change (Z.of_nat 1) with 1 in A1. change (Z.of_nat 2) with 2 in A2.
    change (Z.of_nat 3) with 3 in A3. change (Z.of_nat 4) with 4 in A4.
    rewrite A1, A2, A3, A4. clear A1 A2 A3 A4. subst rest. cbn [String.get].
    rewrite H1, H2, H3.
    destruct (is_nul e1) eqn:N1;
      [apply Ascii.eqb_eq in N1; subst e1; discriminate H1|].
    destruct (is_nul e2) eqn:N2;
      [apply Ascii.eqb_eq in N2; subst e2; discriminate H2|].
    destruct (is_nul e3) eqn:N3;
      [apply Ascii.eqb_eq in N3; subst e3; discriminate H3|].
    reflexivity.
Qed.

Lemma has_pgn_extension_iff_witness :
  c_string "Fischer.v1.PGN" = true
  /\ (has_pgn_extension "Fischer.v1.PGN" = true
      <-> exists (base : string) (e1 e2 e3 : ascii),
            "Fischer.v1.PGN"%string
            = (base ++ String "." (String e1 (String e2 (String e3 EmptyString))))%string
            /\ tolower e1 = "p"%char /\ tolower e2 = "g"%char /\ tolower e3 = "n"%char).
Proof.
  split; [reflexivity|]. apply (has_pgn_extension_iff "Fischer.v1.PGN"). reflexivity.
Defined.

(** ** PGN headers *)

Lemma strncmp_eq_prefix (t : string) :
  forall s : string,
    strncmp_eq s t (String.length t) = true <-> exists rest : string, s = (t ++ rest)%string.
Proof.
  induction t as [|b t IH]; intros s.
  - cbn [String.length strncmp_eq String.append]. split; [intros _; exists s; reflexivity | intros _; reflexivity].
  - cbn [String.length strncmp_eq String.append]. destruct s as [|a s].
    + split; [discriminate | intros [rest H]; discriminate].
    + split.
      * intros H. apply andb_true_iff in H. destruct H as [Hab H].
        apply Ascii.eqb_eq in Hab. subst b. apply IH in H. destruct H as [rest ->].
        exists rest. reflexivity.
      * intros [rest H]. injection H as -> ->. rewrite Ascii.eqb_refl.
        apply IH. exists rest. reflexivity.
Qed.

Lemma lacks_single (c d : ascii) (s : string) :
  lacks (String c EmptyString) (String d s) = true ->
  (d =? c)%char = false /\ lacks (String c EmptyString) s = true.
Proof.
  intros H. apply lacks_cons in H. destruct H as [H Hs]. split; [|exact Hs].
  apply in_set_cons_false in H. destruct H as [H _]. rewrite Ascii.eqb_sym. exact H.
Qed.

Lemma lacks_single_intro (c d : ascii) (s : string) :
  (d =? c)%char = false -> lacks (String c EmptyString) s = true ->
  lacks (String c EmptyString) (String d s) = true.
Proof.
  intros Hd Hs. cbn [lacks]. rewrite Hs. unfold in_set. cbn [strchr].
  rewrite Ascii.eqb_sym, Hd. reflexivity.
Qed.

Lemma strchr_app (c : ascii) (a rest : string) :
  lacks (String c EmptyString) a = true ->
  strchr (a ++ String c rest) c = Some (strlen a).
Proof.
  induction a as [|d a IH]; intros H.
  - cbn [String.append strchr]. rewrite Ascii.eqb_refl. reflexivity.
  - apply lacks_single in H. destruct H as [Hd Ha].
    cbn [String.append strchr]. rewrite Hd, (IH Ha). unfold strlen.
    cbn [String.length]. f_equal. lia.
Qed.

Lemma strchr_split (c : ascii) (s : string) :
  forall i : Z,
    strchr s c = Some i ->
    exists a rest : string,
      s = (a ++ String c rest)%string /\ strlen a = i
      /\ lacks (String c EmptyString) a = true.
Proof.
  induction s as [|d s IH]; intros i H; [discriminate|].
  cbn [strchr] in H. destruct (d =? c)%char eqn:Ed.
  - injection H as <-. apply Ascii.eqb_eq in Ed. subst d.
    exists EmptyString, s. repeat split.
  - destruct (strchr s c) as [j|]; [|discriminate]. injection H as <-.
    destruct (IH j eq_refl) as (a & rest & -> & Hlen & Ha).
    exists (String d a), rest. cbn [String.append]. repeat split.
    + unfold strlen in *. cbn [String.length]. lia.
    + apply lacks_single_intro; assumption.
Qed.

Lemma drop_app (a b : string) : drop (String.length a) (a ++ b) = b.
Proof. induction a as [|c a IH]; [destruct b; reflexivity | exact IH]. Qed.

Lemma substring_0_app (n : nat) (a b : string) :
  (n <= String.length a)%nat -> substring 0 n (a ++ b) = substring 0 n a.
Proof.
  revert a. induction n as [|n IH]; intros a Hn.
  - destruct a; destruct b; reflexivity.
  - destruct a as [|c a]; [cbn in Hn; lia|]. cbn [String.append substring].
    rewrite IH; [reflexivity | cbn in Hn; lia].
Qed.

Lemma substring_0_substring (n m : nat) (s : string) :
  (n <= m)%nat -> substring 0 n (substring 0 m s) = substring 0 n s.
Proof.
  revert m s. induction n as [|n IH]; intros m s Hn.
  - destruct s; destruct m; reflexivity.
  - destruct m as [|m]; [lia|]. destruct s as [|c s]; [reflexivity|].
    cbn [substring]. rewrite IH by lia. reflexivity.
Qed.

Lemma lacks_prefix (reject : string) (n : nat) (s : string) :
  lacks reject s = true -> lacks reject (substring 0 n s) = true.
Proof.
  revert s. induction n as [|n IH]; intros s H.
  - destruct s; reflexivity.
  - destruct s as [|c s]; [reflexivity|]. apply lacks_cons in H. destruct H as [Hc Hs].
    cbn [substring lacks]. rewrite Hc, (IH s Hs). reflexivity.
Qed.

Lemma lacks_app (reject s t : string) :
  lacks reject (s ++ t) = lacks reject s && lacks reject t.
Proof.
  induction s as [|c s IH]; [reflexivity|].
  cbn [String.append lacks]. rewrite IH. apply andb_assoc.
Qed.

(** The value that a clipped length selects. *)
Lemma clipped_prefix (value rest : string) (out_size : Z) :
  1 <= out_size ->
  prefix (value ++ rest)
    (if out_size <=? strlen value then out_size - 1 else strlen value)
  = prefix value (out_size - 1).
Proof.
  intros Hsize. unfold prefix, strlen.
  destruct (out_size <=? Z.of_nat (String.length value)) eqn:E;
    [apply Z.leb_le in E | apply Z.leb_gt in E].
  - apply substring_0_app. lia.
  - rewrite substring_0_app by lia. rewrite !substring_0_all by lia. reflexivity.
Qed.

Lemma isspace_not_quote (sp : ascii) : isspace sp = true -> (sp =? quote)%char = false.
Proof.
  intros H. destruct (sp =? quote)%char eqn:E; [|reflexivity].
  apply Ascii.eqb_eq in E. subst sp. discriminate H.
Qed.

(** What an accepted header line looks like. *)
Lemma parse_tag_value_parts (line tag : string) (out_size : Z) (out : string) :
  parse_tag_value line tag out_size = Some out ->
  (exists (sp : ascii) (rest : string),
      line = ("[" ++ tag ++ String sp rest)%string /\ isspace sp = true)
  /\ exists before value after : string,
       line = (before ++ String quote (value ++ String quote after))%string
       /\ lacks quote_string before = true
       /\ lacks quote_string value = true
       /\ out = prefix (value ++ String quote after)
                  (if out_size <=? strlen value then out_size - 1 else strlen value).
Proof.
  unfold parse_tag_value. cbv zeta.
  destruct line as [|c line]; [discriminate|].
  cbn [strncmp_eq drop]. destruct (c =? "[")%char eqn:Ec; [|discriminate].
  apply Ascii.eqb_eq in Ec. subst c. cbn [andb negb].
  unfold strlen at 1. rewrite Nat2Z.id.
  destruct (strncmp_eq line tag (String.length tag)) eqn:Etag; [|discriminate].
  apply strncmp_eq_prefix in Etag. destruct Etag as [rest ->]. cbn [negb].
  destruct (isspace (char_at (String "[" (tag ++ rest)) (1 + strlen tag))) eqn:Esp;
    [|discriminate].
  cbn [negb].
  destruct (strchr (String "[" (tag ++ rest)) quote) as [first_quote|] eqn:E1; [|discriminate].
  destruct (strchr_split quote _ first_quote E1) as (before & rest1 & Hline & Hlen & Hbefore).
  rewrite Hline. replace (Z.to_nat (first_quote + 1)) with (S (String.length before))
    by (unfold strlen in Hlen; lia).
  replace (String quote rest1) with (String quote EmptyString ++ rest1)%string by reflexivity.
  rewrite <- append_assoc.
  replace (S (String.length before)) with (String.length (before ++ String quote EmptyString))
    by (rewrite append_length; cbn [String.length]; lia).
  rewrite drop_app.
  destruct (strchr rest1 quote) as [len|] eqn:E2; [|discriminate].
  destruct (strchr_split quote _ len E2) as (value & after & -> & Hlen2 & Hvalue).
  intros H. injection H as <-. split.
  - replace (1 + strlen tag) with (strlen ("[" ++ tag) + 0) in Esp
      by (unfold strlen; cbn [String.append String.length]; lia).
    change (String "[" (tag ++ rest)) with (("[" ++ tag) ++ rest)%string in Esp.
    rewrite char_at_app in Esp by lia.
    destruct rest as [|sp rest]; [discriminate Esp|].
    exists sp, rest. split; [|exact Esp].
    rewrite append_assoc. cbn [String.append]. rewrite <- Hline. reflexivity.
  - exists before, value, after. rewrite append_assoc. subst len.
    repeat split; assumption.
Qed.

(** X19. [parse_tag_value] reads the text between the first two double
    quotes of a line that opens with a bracket, the tag and a white
    space character, cut to what fits [out]. *)
Theorem parse_tag_value_reads_value (tag gap value rest : string) (sp : ascii)
    (out_size : Z)
    (Hsize : 1 <= out_size)
    (Hsp : isspace sp = true)
    (Htag : lacks quote_string tag = true)
    (Hgap : lacks quote_string gap = true)
    (Hvalue : lacks quote_string value = true) :
  parse_tag_value
    ("[" ++ tag ++ String sp (gap ++ String quote (value ++ String quote rest))) tag out_size
  = Some (prefix value (out_size - 1)).
Proof.
  unfold parse_tag_value. cbv zeta.
  cbn [String.append strncmp_eq drop]. cbn [Ascii.eqb Bool.eqb andb negb].
  unfold strlen at 1. rewrite Nat2Z.id.
  assert (Hp : strncmp_eq (tag ++ String sp (gap ++ String quote (value ++ String quote rest)))
                 tag (String.length tag) = true).
  { apply strncmp_eq_prefix. eexists. reflexivity. }
  rewrite Hp. cbn [negb].
  replace (1 + strlen tag) with (strlen ("[" ++ tag) + 0)
    by (unfold strlen; cbn [String.append String.length]; lia).
  change (String "[" (tag ++ String sp (gap ++ String quote (value ++ String quote rest))))
    with (("[" ++ tag) ++ String sp (gap ++ String quote (value ++ String quote rest)))%string.
  rewrite char_at_app by lia. change (char_at (String sp _) 0) with sp. rewrite Hsp.
  cbn [negb].
  replace ((("[" ++ tag) ++ String sp (gap ++ String quote (value ++ String quote rest))))%string
    with ((("[" ++ tag) ++ String sp gap) ++ String quote (value ++ String quote rest))%string
    by (rewrite !append_assoc; reflexivity).
  assert (Hb : lacks quote_string (("[" ++ tag) ++ String sp gap) = true).
  { rewrite !lacks_app. cbn [lacks]. unfold quote_string in *. rewrite Htag, Hgap.
    unfold in_set. cbn [strchr]. rewrite (Ascii.eqb_sym quote sp), (isspace_not_quote sp Hsp).
    reflexivity. }
  rewrite (strchr_app quote _ _ Hb).
  replace (Z.to_nat (strlen (("[" ++ tag) ++ String sp gap) + 1))
    with (String.length ((("[" ++ tag) ++ String sp gap) ++ String quote EmptyString))
    by (rewrite (append_length _ (String quote EmptyString)); unfold strlen;
        cbn [String.length]; lia).
  replace (String quote (value ++ String quote rest))
    with (String quote EmptyString ++ (value ++ String quote rest))%string by reflexivity.
  rewrite <- (append_assoc _ (String quote EmptyString)). rewrite drop_app.
  rewrite (strchr_app quote value rest Hvalue).
  rewrite clipped_prefix by exact Hsize. reflexivity.
Qed.

Lemma parse_tag_value_reads_value_witness :
  1 <= 8 /\ isspace " " = true
  /\ lacks quote_string "White" = true /\ lacks quote_string "" = true
  /\ lacks quote_string "Fischer, Robert J." = true
  /\ parse_tag_value
       ("[" ++ "White" ++ String " " ("" ++ String quote ("Fischer, Robert J." ++ String quote "]")))
       "White" 8
     = Some (prefix "Fischer, Robert J." (8 - 1)).
Proof.
  repeat (split; [first [lia | reflexivity]|]).
  apply (parse_tag_value_reads_value "White" "" "Fischer, Robert J." "]" " " 8);
    first [lia | reflexivity].
Defined.

Lemma parse_tag_value_out (line tag : string) (out_size : Z) (out : string)
    (Hsize : 1 <= out_size)
    (Hout : parse_tag_value line tag out_size = Some out) :
  (exists (sp : ascii) (rest : string),
      line = ("[" ++ tag ++ String sp rest)%string /\ isspace sp = true)
  /\ (exists before value after : string,
        line = (before ++ String quote (value ++ String quote after))%string
        /\ lacks quote_string before = true
        /\ lacks quote_string value = true
        /\ out = prefix value (out_size - 1))
  /\ strlen out <= out_size - 1
  /\ lacks quote_string out = true.
Proof.
  destruct (parse_tag_value_parts line tag out_size out Hout)
    as [Hopen (before & value & after & Hline & Hbefore & Hvalue & Hval)].
  rewrite clipped_prefix in Hval by exact Hsize.
  split; [exact Hopen|]. split; [|split].
  - exists before, value, after. repeat split; assumption.
  - subst out. unfold prefix, strlen.
    assert (H := substring_0_length (Z.to_nat (out_size - 1)) value). lia.
  - subst out. apply lacks_prefix. exact Hvalue.
Qed.

(** X20. A line that [parse_tag_value] accepts opens with a bracket,
    the tag and a white space character, so a longer tag name is never
    taken for a shorter one; the output is the text between the first
    two double quotes of the line, cut to what fits [out], and holds no
    double quote itself. *)
Theorem parse_tag_value_sound (line tag : string) (out_size : Z) (out : string)
    (Hsize : 1 <= out_size)
    (Hout : parse_tag_value line tag out_size = Some out) :
  (exists (sp : ascii) (rest : string),
      line = ("[" ++ tag ++ String sp rest)%string /\ isspace sp = true)
  /\ (exists before value after : string,
        line = (before ++ String quote (value ++ String quote after))%string
        /\ lacks quote_string before = true
        /\ lacks quote_string value = true
        /\ out = prefix value (out_size - 1))
  /\ strlen out <= out_size - 1
  /\ lacks quote_string out = true.
Proof. exact (parse_tag_value_out line tag out_size out Hsize Hout). Qed.

Lemma parse_tag_value_sound_witness :
  1 <= 128
  /\ parse_tag_value
       ("[White " ++ String quote ("Tal" ++ String quote "]")) "White" 128 = Some "Tal"%string
  /\ (exists (sp : ascii) (rest : string),
        ("[White " ++ String quote ("Tal" ++ String quote "]"))%string
        = ("[" ++ "White" ++ String sp rest)%string /\ isspace sp = true)
  /\ (exists before value after : string,
        ("[White " ++ String quote ("Tal" ++ String quote "]"))%string
        = (before ++ String quote (value ++ String quote after))%string
        /\ lacks quote_string before = true
        /\ lacks quote_string value = true
        /\ "Tal"%string = prefix value (128 - 1))
  /\ strlen "Tal" <= 128 - 1
  /\ lacks quote_string "Tal" = true.
Proof.
  split; [lia|]. split; [reflexivity|].
  apply (parse_tag_value_sound
           ("[White " ++ String quote ("Tal" ++ String quote "]")) "White" 128 "Tal");
    [lia | reflexivity].
Defined.

Ltac small_indices :=
  change (Z.to_nat 0) with 0%nat in *; change (Z.to_nat 1) with 1%nat in *;
  change (Z.to_nat 2) with 2%nat in *; change (Z.to_nat 3) with 3%nat in *;
  change (Z.to_nat 4) with 4%nat in *.

Lemma digits_prefix (date : string) :
  4 <= strlen date ->
  (isdigit (char_at date 0) = true /\ isdigit (char_at date 1) = true
   /\ isdigit (char_at date 2) = true /\ isdigit (char_at date 3) = true
   <-> all_chars isdigit (prefix date 4) = true)
  /\ strlen (prefix date 4) = 4.
Proof.
  unfold strlen, prefix, char_at. small_indices.
  destruct date as [|d0 [|d1 [|d2 [|d3 date]]]]; cbn [String.length]; try lia.
  intros _. cbn [String.get substring all_chars String.length].
  assert (E : substring 0 0 date = EmptyString) by (destruct date; reflexivity).
  rewrite E. cbn [all_chars String.length]. split; [|reflexivity].
  rewrite !andb_true_iff. tauto.
Qed.

Lemma extract_year_out (out : string) (out_size : Z) (date : string)
    (Hsize : 1 <= out_size) :
  strlen (extract_year out out_size date) < out_size
  /\ (extract_year out out_size date = EmptyString
      \/ (extract_year out out_size date = prefix date 4
          /\ strlen (prefix date 4) = 4
          /\ all_chars isdigit (prefix date 4) = true))
  /\ (5 <= out_size -> 4 <= strlen date -> all_chars isdigit (prefix date 4) = true ->
      extract_year out out_size date = prefix date 4).
Proof.
  unfold extract_year.
  destruct (out_size =? 0) eqn:E0; [apply Z.eqb_eq in E0; lia|].
  destruct (strlen date <? 4) eqn:E4; [apply Z.ltb_lt in E4 | apply Z.ltb_ge in E4].
  { split; [unfold strlen; cbn; lia|]. split; [left; reflexivity|]. intros; lia. }
  destruct (digits_prefix date E4) as [Hiff Hl].
  assert (Hall : all_chars isdigit (prefix date 4) = true ->
                 isdigit (char_at date 0) = true /\ isdigit (char_at date 1) = true
                 /\ isdigit (char_at date 2) = true /\ isdigit (char_at date 3) = true)
    by apply Hiff.
  destruct (isdigit (char_at date 0)) eqn:D0; cbn [negb].
  2:{ split; [unfold strlen; cbn; lia|]. split; [left; reflexivity|].
      intros _ _ H. apply Hall in H. destruct H as [H _]. discriminate H. }
  destruct (isdigit (char_at date 1)) eqn:D1; cbn [negb].
  2:{ split; [unfold strlen; cbn; lia|]. split; [left; reflexivity|].
      intros _ _ H. apply Hall in H. destruct H as (_ & H & _). discriminate H. }
  destruct (isdigit (char_at date 2)) eqn:D2; cbn [negb].
  2:{ split; [unfold strlen; cbn; lia|]. split; [left; reflexivity|].
      intros _ _ H. apply Hall in H. destruct H as (_ & _ & H & _). discriminate H. }
  destruct (isdigit (char_at date 3)) eqn:D3; cbn [negb].
  2:{ split; [unfold strlen; cbn; lia|]. split; [left; reflexivity|].
      intros _ _ H. apply Hall in H. destruct H as (_ & _ & _ & H). discriminate H. }
  assert (Hd : all_chars isdigit (prefix date 4) = true) by (apply Hiff; tauto).
  destruct (out_size <? 5) eqn:E5; [apply Z.ltb_lt in E5 | apply Z.ltb_ge in E5].
  - split; [unfold strlen; cbn; lia|]. split; [left; reflexivity|]. intros; lia.
  - split; [lia|]. split; [right; repeat split; assumption|]. reflexivity.
Qed.

(** X21. [extract_year] writes either nothing or exactly four decimal
    digits, the first four characters of the date; it never writes more
    than [out] can hold, and with the five bytes of a year buffer it
    writes the digits whenever the date begins with four of them. *)
Theorem extract_year_digits (out : string) (out_size : Z) (date : string)
    (Hsize : 1 <= out_size) :
  strlen (extract_year out out_size date) < out_size
  /\ (extract_year out out_size date = EmptyString
      \/ (extract_year out out_size date = prefix date 4
          /\ strlen (prefix date 4) = 4
          /\ all_chars isdigit (prefix date 4) = true))
  /\ (5 <= out_size -> 4 <= strlen date -> all_chars isdigit (prefix date 4) = true ->
      extract_year out out_size date = prefix date 4).
Proof. exact (extract_year_out out out_size date Hsize). Qed.

Lemma extract_year_digits_witness :
  1 <= 5
  /\ strlen (extract_year "" 5 "1972.07.11") < 5
  /\ (extract_year "" 5 "1972.07.11" = EmptyString
      \/ (extract_year "" 5 "1972.07.11" = prefix "1972.07.11" 4
          /\ strlen (prefix "1972.07.11" 4) = 4
          /\ all_chars isdigit (prefix "1972.07.11" 4) = true))
  /\ (5 <= 5 -> 4 <= strlen "1972.07.11" ->
      all_chars isdigit (prefix "1972.07.11" 4) = true ->
      extract_year "" 5 "1972.07.11" = prefix "1972.07.11" 4).
Proof.
  split; [lia|]. apply (extract_year_digits "" 5 "1972.07.11"). lia.
Defined.

(** ** Player names *)

Lemma skip_while_app (pred : ascii -> bool) (b rest : string) :
  match rest with EmptyString => False | String c _ => pred c = false end ->
  skip_while pred (b ++ rest) = (skip_while pred b ++ rest)%string.
Proof.
  intros Hrest. induction b as [|c b IH].
  - cbn [String.append skip_while]. destruct rest as [|d rest]; [contradiction|].
    cbn [skip_while]. rewrite Hrest. reflexivity.
  - cbn [String.append skip_while]. destruct (pred c); [exact IH | reflexivity].
Qed.

Lemma last_word_loop_step (c : ascii) (p' last_word : string) :
  last_word_loop (String c p') last_word
  = if isspace c then last_word_loop p' last_word
    else match skip_while not_space p' with
         | EmptyString => String c p'
         | String d q => last_word_loop (String d q) (String c p')
         end.
Proof.
  cbn [last_word_loop]. destruct (isspace c); [reflexivity|].
  generalize (String c p') as p. intros p.
  induction p' as [|d q IH]; [reflexivity|].
  cbn [skip_while]. unfold not_space at 1. destruct (isspace d); cbn [negb].
  - reflexivity.
  - exact IH.
Qed.

Lemma last_word_loop_spaces (s last_word : string) :
  all_chars isspace s = true -> last_word_loop s last_word = last_word.
Proof.
  induction s as [|c s IH]; intros H; [reflexivity|].
  cbn [all_chars] in H. apply andb_true_iff in H. destruct H as [Hc Hs].
  rewrite last_word_loop_step, Hc. apply IH. exact Hs.
Qed.

Lemma last_char_cons (c d : ascii) (s : string) :
  last_char (String c (String d s)) = last_char (String d s).
Proof.
  unfold last_char, strlen, char_at. cbn [String.length].
  replace (Z.to_nat (Z.of_nat (S (S (String.length s))) - 1)) with (S (String.length s)) by lia.
  replace (Z.to_nat (Z.of_nat (S (String.length s)) - 1)) with (String.length s) by lia.
  reflexivity.
Qed.

Lemma last_char_app (a s : string) :
  1 <= strlen s -> last_char (a ++ s) = last_char s.
Proof.
  intros Hs. destruct s as [|d s]; [unfold strlen in Hs; cbn in Hs; lia|].
  induction a as [|c a IH]; [reflexivity|].
  cbn [String.append]. destruct (a ++ String d s)%string as [|e t] eqn:E.
  - destruct a; discriminate E.
  - rewrite last_char_cons. exact IH.
Qed.

Lemma strlen_cons_nonzero (c : ascii) (s : string) : (strlen (String c s) =? 0) = false.
Proof. apply Z.eqb_neq. unfold strlen. cbn [String.length]. lia. Qed.

Lemma ends_at_gap_cons (c : ascii) (b : string) :
  ends_at_gap (String c b) = true -> 1 <= strlen b -> ends_at_gap b = true.
Proof.
  unfold ends_at_gap. intros H Hb.
  destruct b as [|d b]; [reflexivity|].
  rewrite last_char_cons in H. rewrite strlen_cons_nonzero in *. exact H.
Qed.

Lemma not_space_last (s : string) :
  all_chars not_space s = true -> isspace (last_char s) = false.
Proof.
  induction s as [|c s IH]; intros H; [reflexivity|].
  cbn [all_chars] in H. apply andb_true_iff in H. destruct H as [Hc Hs].
  destruct s as [|d s].
  - unfold not_space in Hc. apply negb_true_iff in Hc. exact Hc.
  - rewrite last_char_cons. apply IH. exact Hs.
Qed.

Lemma strlen_app (s t : string) : strlen (s ++ t) = strlen s + strlen t.
Proof. unfold strlen. rewrite append_length. lia. Qed.

Lemma strlen_nonneg (s : string) : 0 <= strlen s.
Proof. unfold strlen. lia. Qed.

(** The word loop on text that ends in one more word. *)
Lemma last_word_loop_last (word after : string) (n : nat) :
  all_chars not_space word = true -> 1 <= strlen word ->
  all_chars isspace after = true ->
  forall (b last_word : string),
    (String.length b <= n)%nat -> ends_at_gap b = true ->
    last_word_loop (b ++ word ++ after) last_word = (word ++ after)%string.
Proof.
  intros Hword Hne Hafter.
  assert (Hhead : match after with
                  | EmptyString => True
                  | String c _ => not_space c = false
                  end).
  { destruct after as [|c after]; [exact I|]. cbn [all_chars] in Hafter.
    apply andb_true_iff in Hafter. destruct Hafter as [Hc _]. unfold not_space.
    rewrite Hc. reflexivity. }
  assert (Hbase : forall last_word,
             last_word_loop (word ++ after) last_word = (word ++ after)%string).
  { intros last_word. destruct word as [|c w]; [unfold strlen in Hne; cbn in Hne; lia|].
    cbn [all_chars] in Hword. apply andb_true_iff in Hword. destruct Hword as [Hc Hw].
    cbn [String.append]. rewrite last_word_loop_step.
    unfold not_space in Hc. apply negb_true_iff in Hc. rewrite Hc.
    rewrite (skip_while_all not_space w after Hw Hhead).
    destruct after as [|d after]; [reflexivity|].
    apply last_word_loop_spaces. exact Hafter. }
  assert (Hword_head : match (word ++ after)%string with
                       | EmptyString => False
                       | String c _ => isspace c = false
                       end).
  { destruct word as [|c w]; [unfold strlen in Hne; cbn in Hne; lia|].
    cbn [all_chars] in Hword. apply andb_true_iff in Hword. destruct Hword as [Hc _].
    unfold not_space in Hc. apply negb_true_iff in Hc. exact Hc. }
  induction n as [|n IH]; intros b last_word Hlen Hgap.
  - destruct b; [apply Hbase | cbn in Hlen; lia].
  - destruct b as [|c b]; [apply Hbase|].
    cbn [String.length] in Hlen. cbn [String.append]. rewrite last_word_loop_step.
    destruct (isspace c) eqn:Ec.
    + destruct b as [|d b]; [apply Hbase|].
      apply IH; [lia|]. apply (ends_at_gap_cons c); [exact Hgap|].
      unfold strlen. cbn [String.length]. lia.
    + destruct (skip_while_suffix not_space b) as [skipped [Hb Hskipped]].
      assert (Hq := skip_while_head not_space b).
      destruct (skip_while not_space b) as [|d q] eqn:Eq.
      * exfalso. rewrite Hb in Hgap. clear Hb.
        assert (Hall : all_chars not_space (String c (skipped ++ "")) = true).
        { cbn [all_chars]. rewrite all_chars_app, Hskipped. unfold not_space at 1.
          rewrite Ec. reflexivity. }
        apply not_space_last in Hall. unfold ends_at_gap in Hgap. rewrite Hall in Hgap.
        unfold strlen in Hgap. cbn [String.length] in Hgap.
        rewrite orb_false_r in Hgap. apply Z.eqb_eq in Hgap. lia.
      * assert (Hd : isspace d = true).
        { unfold not_space in Hq. apply negb_false_iff in Hq. exact Hq. }
        rewrite Hb at 1. rewrite append_assoc.
        rewrite (skip_while_all not_space skipped (String d q ++ word ++ after) Hskipped)
          by (cbn [String.append]; exact Hq).
        cbn [String.append].
        change (String d (q ++ word ++ after)) with (String d q ++ word ++ after)%string.
        apply IH.
        -- assert (Hl := f_equal String.length Hb). rewrite append_length in Hl.
           cbn [String.length] in *. lia.
        -- unfold ends_at_gap in *.
           rewrite strlen_cons_nonzero in *.
           cbn [orb] in *. rewrite Hb in Hgap.
           change (String c (skipped ++ String d q))
             with (String c skipped ++ String d q)%string in Hgap.
           rewrite last_char_app in Hgap
             by (unfold strlen; cbn [String.length]; lia).
           exact Hgap.
Qed.

Lemma span_all (pred : ascii -> bool) (s rest : string) :
  all_chars pred s = true ->
  match rest with EmptyString => True | String c _ => pred c = false end ->
  span pred (s ++ rest) = strlen s.
Proof.
  induction s as [|c s IH]; intros Hs Hrest.
  - cbn [String.append]. destruct rest as [|c rest]; [reflexivity|].
    cbn [span]. rewrite Hrest. reflexivity.
  - cbn [all_chars] in Hs. apply andb_true_iff in Hs. destruct Hs as [Hc Hs].
    cbn [String.append span]. rewrite Hc, (IH Hs Hrest). unfold strlen.
    cbn [String.length]. lia.
Qed.

Lemma isspace_not_comma (c : ascii) : isspace c = true -> (c =? ",")%char = false.
Proof.
  intros H. destruct (c =? ",")%char eqn:E; [|reflexivity].
  apply Ascii.eqb_eq in E. subst c. discriminate H.
Qed.

Lemma spaces_lack_comma (s : string) :
  all_chars isspace s = true -> lacks "," s = true.
Proof.
  induction s as [|c s IH]; intros H; [reflexivity|].
  cbn [all_chars] in H. apply andb_true_iff in H. destruct H as [Hc Hs].
  apply lacks_single_intro; [apply isspace_not_comma; exact Hc | apply IH; exact Hs].
Qed.

Lemma strchr_lacks (c : ascii) (s : string) :
  lacks (String c EmptyString) s = true -> strchr s c = None.
Proof.
  induction s as [|d s IH]; intros H; [reflexivity|].
  apply lacks_single in H. destruct H as [Hd Hs].
  cbn [strchr]. rewrite Hd, (IH Hs). reflexivity.
Qed.

(** X23. For a name without comma [set_last_name] gives its last
    word, cut to what fits [out]: white space before and after the words
    does not count. *)
Theorem set_last_name_last_word (out before word after : string) (out_size : Z)
    (Hsize : 1 <= out_size)
    (Hgap : ends_at_gap before = true)
    (Hbefore : lacks "," before = true)
    (Hword : all_chars not_space word = true)
    (Hne : 1 <= strlen word)
    (Hcomma : lacks "," word = true)
    (Hafter : all_chars isspace after = true) :
  set_last_name out out_size (before ++ word ++ after) = prefix word (out_size - 1).
Proof.
  unfold set_last_name.
  assert (E0 : (out_size =? 0) = false) by (apply Z.eqb_neq; lia). rewrite E0.
  assert (Hword_head : match (word ++ after)%string with
                       | EmptyString => False
                       | String c _ => isspace c = false
                       end).
  { destruct word as [|c w]; [unfold strlen in Hne; cbn in Hne; lia|].
    cbn [all_chars] in Hword. apply andb_true_iff in Hword. destruct Hword as [Hc _].
    unfold not_space in Hc. apply negb_true_iff in Hc. exact Hc. }
  cbv zeta. rewrite (skip_while_app isspace before (word ++ after) Hword_head).
  destruct (skip_while_suffix isspace before) as [skipped [Hb _]].
  set (b := skip_while isspace before) in *.
  assert (Hbgap : ends_at_gap b = true).
  { destruct b as [|d q] eqn:Eb; [reflexivity|].
    unfold ends_at_gap in *. rewrite Hb in Hgap.
    rewrite last_char_app in Hgap by (unfold strlen; cbn [String.length]; lia).
    rewrite strlen_cons_nonzero.
    destruct (strlen (skipped ++ String d q) =? 0) eqn:Ez; [|exact Hgap].
    apply Z.eqb_eq in Ez. rewrite strlen_app in Ez.
    assert (H0 := strlen_nonneg skipped). unfold strlen in Ez at 2.
    cbn [String.length] in Ez. lia. }
  assert (Hblacks : lacks "," b = true).
  { rewrite Hb, lacks_app in Hbefore. apply andb_true_iff in Hbefore. tauto. }
  assert (Hstart : strchr (b ++ word ++ after) "," = None).
  { apply strchr_lacks. rewrite !lacks_app, Hblacks, Hcomma.
    rewrite (spaces_lack_comma after Hafter). reflexivity. }
  assert (Hnonempty : exists c s, (b ++ word ++ after)%string = String c s).
  { destruct word as [|c w]; [unfold strlen in Hne; cbn in Hne; lia|].
    destruct b as [|d q]; cbn [String.append]; eauto. }
  destruct Hnonempty as (c0 & s0 & Estart). rewrite Estart. rewrite <- Estart.
  rewrite Hstart.
  rewrite (last_word_loop_last word after (String.length b) Hword Hne Hafter b _ (le_n _) Hbgap).
  assert (Hhead : match after with
                  | EmptyString => True
                  | String c _ => not_space c = false
                  end).
  { destruct after as [|c after]; [exact I|]. cbn [all_chars] in Hafter.
    apply andb_true_iff in Hafter. destruct Hafter as [Hc _]. unfold not_space.
    rewrite Hc. reflexivity. }
  rewrite (span_all not_space word after Hword Hhead).
  apply clipped_prefix. exact Hsize.
Qed.

Lemma set_last_name_last_word_witness :
  1 <= 128 /\ ends_at_gap " Jose Raul " = true /\ lacks "," " Jose Raul " = true
  /\ all_chars not_space "Capablanca" = true /\ 1 <= strlen "Capablanca"
  /\ lacks "," "Capablanca" = true /\ all_chars isspace "  " = true
  /\ set_last_name "" 128 (" Jose Raul " ++ "Capablanca" ++ "  ")
     = prefix "Capablanca" (128 - 1).
Proof.
  repeat (split; [first [reflexivity | unfold strlen; cbn; lia]|]).
  apply (set_last_name_last_word "" " Jose Raul " "Capablanca" "  " 128);
    first [reflexivity | unfold strlen; cbn; lia].
Defined.

Lemma spaces_char_at (s : string) (k : nat) :
  all_chars isspace s = true -> (k < String.length s)%nat ->
  isspace (char_at s (Z.of_nat k)) = true.
Proof.
  revert k. induction s as [|c s IH]; intros k H Hk; [cbn in Hk; lia|].
  cbn [all_chars] in H. apply andb_true_iff in H. destruct H as [Hc Hs].
  unfold char_at. rewrite Nat2Z.id. destruct k as [|k]; [exact Hc|].
  cbn [String.get]. specialize (IH k Hs). unfold char_at in IH. rewrite Nat2Z.id in IH.
  apply IH. cbn [String.length] in Hk. lia.
Qed.

Lemma trim_end_spaces (last trail rest : string) :
  isspace (last_char last) = false ->
  all_chars isspace trail = true ->
  forall k : nat,
    (k <= String.length trail)%nat ->
    trim_end (last ++ trail ++ rest) (String.length last + k) = String.length last.
Proof.
  intros Hlast Htrail. induction k as [|k IH]; intros Hk.
  - rewrite Nat.add_0_r. destruct (String.length last) as [|n] eqn:En; [reflexivity|].
    cbn [trim_end]. rewrite char_at_app_left by (unfold strlen; lia).
    unfold last_char, strlen in Hlast. rewrite En in Hlast.
    replace (Z.of_nat (S n) - 1) with (Z.of_nat n) in Hlast by lia.
    rewrite Hlast. reflexivity.
  - rewrite Nat.add_succ_r. cbn [trim_end].
    replace (Z.of_nat (String.length last + k)) with (strlen last + Z.of_nat k)
      by (unfold strlen; lia).
    rewrite char_at_app by lia.
    rewrite char_at_app_left by (unfold strlen; lia).
    rewrite (spaces_char_at trail k Htrail) by lia.
    apply IH. lia.
Qed.

(** X22. For a name with a comma [set_last_name] gives what stands
    before the first comma, without the white space around it, cut to
    what fits [out]. *)
Theorem set_last_name_before_comma (out lead last trail rest : string) (out_size : Z)
    (Hsize : 1 <= out_size)
    (Hlead : all_chars isspace lead = true)
    (Hfirst : isspace (char_at last 0) = false)
    (Hend : isspace (last_char last) = false)
    (Hlast : lacks "," last = true)
    (Htrail : all_chars isspace trail = true) :
  set_last_name out out_size (lead ++ last ++ trail ++ String "," rest)
  = prefix last (out_size - 1).
Proof.
  unfold set_last_name.
  assert (E0 : (out_size =? 0) = false) by (apply Z.eqb_neq; lia). rewrite E0. cbv zeta.
  destruct last as [|c l].
  - cbn [String.append]. rewrite <- append_assoc.
    rewrite (skip_while_all isspace (lead ++ trail) (String "," rest))
      by (rewrite ?all_chars_app, ?Hlead, ?Htrail; reflexivity).
    cbn [strchr]. rewrite Ascii.eqb_refl. cbn [Z.to_nat trim_end Z.of_nat].
    assert (E1 : (out_size <=? 0) = false) by (apply Z.leb_gt; lia). rewrite E1.
    unfold prefix. cbn [Z.to_nat substring]. destruct (Z.to_nat (out_size - 1)); reflexivity.
  - change (isspace c = false) in Hfirst.
    rewrite (skip_while_all isspace lead (String c l ++ trail ++ String "," rest) Hlead)
      by (cbn [String.append]; exact Hfirst).
    cbn [String.append].
    change (String c (l ++ trail ++ String "," rest))
      with (String c l ++ trail ++ String "," rest)%string.
    rewrite <- (append_assoc (String c l) trail).
    assert (Hl : lacks "," (String c l ++ trail) = true).
    { rewrite lacks_app, Hlast, (spaces_lack_comma trail Htrail). reflexivity. }
    rewrite (strchr_app "," _ rest Hl). rewrite append_assoc.
    replace (Z.to_nat (strlen (String c l ++ trail)))
      with (String.length (String c l) + String.length trail)%nat
      by (unfold strlen; rewrite append_length; lia).
    rewrite (trim_end_spaces (String c l) trail (String "," rest) Hend Htrail) by lia.
    apply (clipped_prefix (String c l) (trail ++ String "," rest) out_size Hsize).
Qed.

Lemma set_last_name_before_comma_witness :
  1 <= 128 /\ all_chars isspace " " = true
  /\ isspace (char_at "van der Sterren" 0) = false
  /\ isspace (last_char "van der Sterren") = false
  /\ lacks "," "van der Sterren" = true /\ all_chars isspace " " = true
  /\ set_last_name "" 128 (" " ++ "van der Sterren" ++ " " ++ String "," " Paul")
     = prefix "van der Sterren" (128 - 1).
Proof.
  repeat (split; [first [reflexivity | unfold strlen; cbn; lia]|]).
  apply (set_last_name_before_comma "" " " "van der Sterren" " " " Paul" 128);
    first [reflexivity | unfold strlen; cbn; lia].
Defined.

(** ** Drawing *)

Lemma square_positive (output_size : option (Z * Z)) :
  1 <= square (get_board_view output_size).
Proof.
  unfold get_board_view. destruct output_size as [[w h]|]; cbn [square].
  - destruct (Z.quot (if w <? h then w else h) BOARD_SIZE <? 1) eqn:E; [lia|].
    apply Z.ltb_ge in E. exact E.
  - vm_compute. discriminate.
Qed.

Lemma view_offsets (output_size : option (Z * Z)) :
  let view := get_board_view output_size in
  board_px view = 8 * square view
  /\ offset_x view = Z.quot (screen_w view - board_px view) 2
  /\ offset_y view = Z.quot (screen_h view - board_px view) 2
  /\ (8 <= screen_w view -> 8 <= screen_h view ->
      board_px view <= screen_w view /\ board_px view <= screen_h view).
Proof.
  unfold get_board_view. destruct output_size as [[w h]|];
    cbn [square board_px offset_x offset_y screen_w screen_h].
  - unfold BOARD_SIZE. repeat split; try lia.
    all: destruct (w <? h) eqn:Ewh; [apply Z.ltb_lt in Ewh | apply Z.ltb_ge in Ewh].
    all: match goal with |- context [Z.quot ?m 8] =>
           rewrite (Z.quot_div_nonneg m 8) by lia;
           assert (Hd := Z.mul_div_le m 8 ltac:(lia));
           assert (Hp : 1 <= m / 8) by (apply Z.div_le_lower_bound; lia)
         end.
    all: match goal with |- context [?q <? 1] =>
           destruct (q <? 1) eqn:E; [apply Z.ltb_lt in E | apply Z.ltb_ge in E]
         end; lia.
  - vm_compute. repeat split; intros; discriminate.
Qed.

(** X24. On a screen of at least eight by eight pixels every square
    of the board is drawn inside the screen, in either orientation, and
    the board is centred: the margins on opposite sides differ by at
    most one pixel. *)
Theorem board_fits_screen (output_size : option (Z * Z)) (view_from_white : bool)
    (board_r board_f : Z)
    (Hw : 8 <= screen_w (get_board_view output_size))
    (Hh : 8 <= screen_h (get_board_view output_size))
    (Hon : on_board board_r board_f = true) :
  let view := get_board_view output_size in
  let x := fst (board_to_screen view_from_white view board_r board_f) in
  let y := snd (board_to_screen view_from_white view board_r board_f) in
  (0 <= x /\ x + square view <= screen_w view)
  /\ (0 <= y /\ y + square view <= screen_h view)
  /\ 0 <= (screen_w view - board_px view - offset_x view) - offset_x view <= 1
  /\ 0 <= (screen_h view - board_px view - offset_y view) - offset_y view <= 1.
Proof.
  cbv zeta. destruct (view_offsets output_size) as (Hpx & Hox & Hoy & Hfit).
  cbv zeta in Hpx, Hox, Hoy, Hfit. destruct (Hfit Hw Hh) as [Hfw Hfh].
  assert (Hsq := square_positive output_size).
  set (view := get_board_view output_size) in *.
  apply on_board_iff in Hon. unfold board_to_screen, BOARD_SIZE. cbn [fst snd].
  rewrite Z.quot_div_nonneg in Hox, Hoy by lia.
  assert (Hx1 := Z.mul_div_le (screen_w view - board_px view) 2 ltac:(lia)).
  assert (Hx2 := Z.mul_succ_div_gt (screen_w view - board_px view) 2 ltac:(lia)).
  assert (Hy1 := Z.mul_div_le (screen_h view - board_px view) 2 ltac:(lia)).
  assert (Hy2 := Z.mul_succ_div_gt (screen_h view - board_px view) 2 ltac:(lia)).
  rewrite <- Hox in Hx1, Hx2. rewrite <- Hoy in Hy1, Hy2.
  assert (Hr : 0 <= (if view_from_white then board_r else 8 - 1 - board_r) <= 7)
    by (destruct view_from_white; lia).
  assert (Hf : 0 <= (if view_from_white then board_f else 8 - 1 - board_f) <= 7)
    by (destruct view_from_white; lia).
  remember (if view_from_white then board_r else 8 - 1 - board_r) as draw_r.
  remember (if view_from_white then board_f else 8 - 1 - board_f) as draw_f.
  clear Heqdraw_r Heqdraw_f Hon Hfit.
  remember (square view) as sq. remember (offset_x view) as ox.
  remember (offset_y view) as oy. remember (screen_w view) as sw.
  remember (screen_h view) as sh. remember (board_px view) as bp.
  clear Heqsq Heqox Heqoy Heqsw Heqsh Heqbp view Hox Hoy.
  repeat split; nia.
Qed.

Lemma board_fits_screen_witness :
  8 <= screen_w (get_board_view (Some (1366, 768)))
  /\ 8 <= screen_h (get_board_view (Some (1366, 768)))
  /\ on_board 7 0 = true
  /\ let view := get_board_view (Some (1366, 768)) in
     let x := fst (board_to_screen false view 7 0) in
     let y := snd (board_to_screen false view 7 0) in
     (0 <= x /\ x + square view <= screen_w view)
     /\ (0 <= y /\ y + square view <= screen_h view)
     /\ 0 <= (screen_w view - board_px view - offset_x view) - offset_x view <= 1
     /\ 0 <= (screen_h view - board_px view - offset_y view) - offset_y view <= 1.
Proof.
  split; [vm_compute; discriminate|]. split; [vm_compute; discriminate|].
  split; [reflexivity|].
  apply (board_fits_screen (Some (1366, 768)) false 7 0);
    [vm_compute; discriminate | vm_compute; discriminate | reflexivity].
Defined.

(** X25. Whatever the size of the screen, two different squares of
    the board are drawn on areas that do not overlap, and a board square
    is drawn on the same area in one orientation as the square opposite
    to it through the centre in the other, which has the same colour. *)
Theorem squares_do_not_overlap (output_size : option (Z * Z)) (view_from_white : bool)
    (r f r' f' : Z)
    (Hon : on_board r f = true)
    (Hon' : on_board r' f' = true) :
  let view := get_board_view output_size in
  let at_rf := board_to_screen view_from_white view r f in
  let at_rf' := board_to_screen view_from_white view r' f' in
  ((r, f) = (r', f')
    \/ fst at_rf + square view <= fst at_rf' \/ fst at_rf' + square view <= fst at_rf
    \/ snd at_rf + square view <= snd at_rf' \/ snd at_rf' + square view <= snd at_rf)
  /\ (board_to_screen (negb view_from_white) view r' f' = at_rf ->
      r' = 7 - r /\ f' = 7 - f /\ light_square r' f' = light_square r f).
Proof.
  cbv zeta. assert (Hsq := square_positive output_size).
  set (view := get_board_view output_size) in *.
  apply on_board_iff in Hon, Hon'. unfold board_to_screen, BOARD_SIZE. cbn [fst snd].
  remember (square view) as sq. remember (offset_x view) as ox.
  remember (offset_y view) as oy.
  clear Heqsq Heqox Heqoy view. split.
  - destruct (Z.eq_dec r r') as [Er|Er]; destruct (Z.eq_dec f f') as [Ef|Ef].
    + left. subst. reflexivity.
    + right. destruct view_from_white;
        (assert (Hc : f + 1 <= f' \/ f' + 1 <= f) by lia; destruct Hc;
           first [left; nia | right; left; nia]).
    + right. right. right. destruct view_from_white;
        (assert (Hc : r + 1 <= r' \/ r' + 1 <= r) by lia; destruct Hc;
           first [left; nia | right; nia]).
    + right. destruct view_from_white;
        (assert (Hc : f + 1 <= f' \/ f' + 1 <= f) by lia; destruct Hc;
           first [left; nia | right; left; nia]).
  - intros H. assert (Hx := f_equal fst H). assert (Hy := f_equal snd H).
    cbn [fst snd] in Hx, Hy. clear H.
    assert (Hr : r' = 7 - r).
    { destruct view_from_white; cbn [negb] in Hy;
        (match type of Hy with _ + ?a * _ = _ + ?b * _ =>
           assert (E : a = b) by (apply (Z.mul_reg_r a b sq); lia) end); lia. }
    assert (Hf : f' = 7 - f).
    { destruct view_from_white; cbn [negb] in Hx;
        (match type of Hx with _ + ?a * _ = _ + ?b * _ =>
           assert (E : a = b) by (apply (Z.mul_reg_r a b sq); lia) end); lia. }
    split; [exact Hr|]. split; [exact Hf|]. subst r' f'. unfold light_square.
    rewrite !Z.rem_mod_nonneg by lia.
    replace (7 - r + (7 - f)) with ((r + f) + (7 - r - f) * 2) by lia.
    rewrite Z.mod_add by lia.
    reflexivity.
Qed.

Lemma squares_do_not_overlap_witness :
  on_board 7 0 = true /\ on_board 0 7 = true
  /\ let view := get_board_view (Some (5, 3)) in
     let at_rf := board_to_screen true view 7 0 in
     let at_rf' := board_to_screen true view 0 7 in
     ((7, 0) = (0, 7)
       \/ fst at_rf + square view <= fst at_rf' \/ fst at_rf' + square view <= fst at_rf
       \/ snd at_rf + square view <= snd at_rf' \/ snd at_rf' + square view <= snd at_rf)
     /\ (board_to_screen (negb true) view 0 7 = at_rf ->
         0 = 7 - 7 /\ 7 = 7 - 0 /\ light_square 0 7 = light_square 7 0).
Proof.
  split; [reflexivity|]. split; [reflexivity|].
  apply (squares_do_not_overlap (Some (5, 3)) true 7 0 0 7); reflexivity.
Defined.

(** ** Loading games *)

Lemma prefix_length (s : string) (n : Z) :
  strlen (prefix s n) <= Z.max 0 n /\ strlen (prefix s n) <= strlen s.
Proof.
  unfold strlen, prefix. split.
  - assert (H := substring_0_length (Z.to_nat n) s). lia.
  - assert (H := subsequence_length (substring 0 (Z.to_nat n) s) s).
    assert (Hs : subsequence (substring 0 (Z.to_nat n) s) s).
    { generalize (Z.to_nat n) as k. clear. intros k. revert s.
      induction k as [|k IH]; intros s.
      - destruct s; [constructor|]. cbn [substring].
        clear. induction (String a s) as [|c t IHt]; constructor; assumption.
      - destruct s as [|c s]; [constructor|]. cbn [substring].
        apply subsequence_keep. apply IH. }
    specialize (H Hs). lia.
Qed.

Lemma prefix_nonempty (s : string) (n : Z) :
  1 <= strlen s -> 1 <= n -> 1 <= strlen (prefix s n) /\ char_at (prefix s n) 0 = char_at s 0.
Proof.
  intros Hs Hn. unfold prefix. destruct (Z.to_nat n) as [|k] eqn:E; [lia|].
  destruct s as [|c s]; [unfold strlen in Hs; cbn in Hs; lia|].
  cbn [substring]. unfold strlen. cbn [String.length]. split; [lia | reflexivity].
Qed.

Lemma not_nul_nonempty (s : string) :
  negb (is_nul (char_at s 0)) = true -> 1 <= strlen s.
Proof.
  destruct s as [|c s]; [discriminate|]. intros _. unfold strlen. cbn [String.length]. lia.
Qed.

(** What the loop of [load_games] keeps true of its variables. *)
Definition loader_ok (st : Loader) : Prop :=
  Forall stored_game (games st)
  /\ (move_buffer st = EmptyString
      \/ (1 <= strlen (move_buffer st) <= MOVE_BUFFER_SIZE - 1
          /\ char_at (move_buffer st) 0 = " "%char))
  /\ strlen (current_white st) <= NAME_LEN - 1
  /\ strlen (current_black st) <= NAME_LEN - 1
  /\ (current_year st = EmptyString
      \/ (strlen (current_year st) = 4 /\ all_chars isdigit (current_year st) = true))
  /\ strlen (current_result st) <= RESULT_LEN - 1.

Lemma or_default_name (s fallback : string) :
  1 <= strlen fallback <= NAME_LEN - 1 ->
  strlen s <= NAME_LEN - 1 ->
  1 <= strlen (prefix (or_default s fallback) (NAME_LEN - 1)) <= NAME_LEN - 1.
Proof.
  intros Hf Hs. unfold or_default.
  destruct (negb (is_nul (char_at s 0))) eqn:E.
  - apply not_nul_nonempty in E. rewrite prefix_all by (unfold strlen in *; lia). lia.
  - rewrite prefix_all by (unfold strlen in *; lia). lia.
Qed.

Lemma push_game_ok (st : Loader) :
  loader_ok st ->
  negb (is_nul (char_at (move_buffer st) 0)) = true ->
  Forall stored_game
    (push_game (games st) (move_buffer st) (current_white st) (current_black st)
       (current_year st) (current_result st)).
Proof.
  intros (Hgames & Hbuf & Hw & Hb & Hy & Hr) Hne. unfold push_game.
  apply Forall_app. split; [exact Hgames|]. constructor; [|constructor].
  unfold stored_game. cbn [moves white black year result].
  split; [|split; [|split; [|split]]].
  - destruct Hbuf as [Hbuf|Hbuf]; [rewrite Hbuf in Hne; discriminate Hne | exact Hbuf].
  - apply or_default_name; [unfold strlen, NAME_LEN; cbn; lia | exact Hw].
  - apply or_default_name; [unfold strlen, NAME_LEN; cbn; lia | exact Hb].
  - unfold or_default. destruct Hy as [Hy|[Hy1 Hy2]].
    + left. rewrite Hy. reflexivity.
    + right. destruct (negb (is_nul (char_at (current_year st) 0))) eqn:E.
      * rewrite prefix_all by (unfold strlen, YEAR_LEN in *; lia). split; assumption.
      * exfalso. destruct (current_year st) as [|c y]; [unfold strlen in Hy1; cbn in Hy1; lia|].
        cbn [all_chars] in Hy2. apply andb_true_iff in Hy2. destruct Hy2 as [Hc _].
        apply negb_false_iff in E. apply Ascii.eqb_eq in E. change (c = zero) in E.
        subst c. discriminate Hc.
  - unfold or_default. destruct (negb (is_nul (char_at (current_result st) 0))).
    + rewrite prefix_all by (unfold strlen, RESULT_LEN in *; lia). exact Hr.
    + apply Z.leb_le. reflexivity.
Qed.

Lemma read_tag_fits (line tag out : string) (out_size : Z) :
  1 <= out_size -> strlen out <= out_size - 1 ->
  strlen (read_tag line tag out out_size) <= out_size - 1.
Proof.
  intros Hsize Hout. unfold read_tag.
  destruct (parse_tag_value line tag out_size) as [value|] eqn:E; [|exact Hout].
  apply (parse_tag_value_out line tag out_size value Hsize E).
Qed.

Lemma strncat_prefix (n : nat) :
  forall (x s : string),
    (String.length x <= n)%nat ->
    (x ++ substring 0 (n - String.length x) s)%string = substring 0 n (x ++ s).
Proof.
  induction n as [|n IH]; intros x s Hx.
  - destruct x; [|cbn in Hx; lia]. cbn [String.append String.length Nat.sub]. reflexivity.
  - destruct x as [|c x].
    + cbn [String.append String.length]. rewrite Nat.sub_0_r. reflexivity.
    + cbn [String.append String.length substring]. cbn [String.length] in Hx.
      replace (S n - S (String.length x))%nat with (n - String.length x)%nat by lia.
      rewrite IH by lia. reflexivity.
Qed.

Lemma strncat_fits (x s : string) (size : Z) :
  strlen x <= size ->
  strncat x s (size - strlen x) = prefix (x ++ s) size.
Proof.
  intros Hx. unfold strncat, prefix, strlen in *.
  replace (Z.to_nat (size - Z.of_nat (String.length x)))
    with (Z.to_nat size - String.length x)%nat by lia.
  apply strncat_prefix. lia.
Qed.

Lemma prefix_prefix_app (n : nat) :
  forall (u v : string),
    substring 0 n (substring 0 n u ++ v) = substring 0 n (u ++ v).
Proof.
  induction n as [|n IH]; intros u v.
  - destruct u; destruct v; reflexivity.
  - destruct u as [|c u]; [reflexivity|].
    cbn [substring String.append]. rewrite IH. reflexivity.
Qed.

(** The buffer after a movetext line. *)
Lemma append_movetext (buffer trim : string) :
  strlen buffer <= MOVE_BUFFER_SIZE - 1 ->
  strncat (strncat buffer " " (MOVE_BUFFER_SIZE - strlen buffer - 1)) trim
    (MOVE_BUFFER_SIZE - strlen (strncat buffer " " (MOVE_BUFFER_SIZE - strlen buffer - 1)) - 1)
  = prefix (buffer ++ " " ++ trim) (MOVE_BUFFER_SIZE - 1).
Proof.
  intros Hb.
  replace (MOVE_BUFFER_SIZE - strlen buffer - 1) with (MOVE_BUFFER_SIZE - 1 - strlen buffer) by lia.
  rewrite (strncat_fits buffer " " (MOVE_BUFFER_SIZE - 1) Hb).
  set (b1 := prefix (buffer ++ " ") (MOVE_BUFFER_SIZE - 1)).
  assert (H1 : strlen b1 <= MOVE_BUFFER_SIZE - 1).
  { destruct (prefix_length (buffer ++ " ") (MOVE_BUFFER_SIZE - 1)) as [H _].
    unfold MOVE_BUFFER_SIZE in *. subst b1. lia. }
  replace (MOVE_BUFFER_SIZE - strlen b1 - 1) with (MOVE_BUFFER_SIZE - 1 - strlen b1) by lia.
  rewrite (strncat_fits b1 trim (MOVE_BUFFER_SIZE - 1) H1).
  subst b1. unfold prefix. rewrite prefix_prefix_app. rewrite append_assoc. reflexivity.
Qed.

Lemma load_line_ok (st : Loader) (line : string) :
  loader_ok st -> loader_ok (load_line st line).
Proof.
  intros Hok. assert (Hok' := Hok).
  destruct Hok' as (Hgames & Hbuf & Hw & Hb & Hy & Hr).
  unfold load_line. cbv zeta.
  set (trim := skip_while isspace (clean_line line)).
  destruct (strncmp_eq trim "[Event" 6).
  { destruct (in_game st && negb (is_nul (char_at (move_buffer st) 0))) eqn:E.
    - apply andb_true_iff in E. destruct E as [_ E].
      unfold loader_ok. cbn [games move_buffer current_white current_black current_year
                               current_result].
      split; [apply push_game_ok; assumption|].
      unfold strlen, NAME_LEN, RESULT_LEN. cbn. repeat split; try lia; left; reflexivity.
    - unfold loader_ok. cbn [games move_buffer current_white current_black current_year
                               current_result].
      split; [exact Hgames|]. split; [exact Hbuf|].
      unfold strlen, NAME_LEN, RESULT_LEN. cbn. repeat split; try lia. left; reflexivity. }
  destruct (in_game st && (char_at trim 0 =? "[")%char).
  { destruct (parse_tag_value trim "Date" NAME_LEN) as [date|] eqn:Ed.
    - unfold loader_ok. cbn [games move_buffer current_white current_black current_year
                               current_result].
      split; [exact Hgames|]. split; [exact Hbuf|].
      split; [apply read_tag_fits; [unfold NAME_LEN; lia | exact Hw]|].
      split; [apply read_tag_fits; [unfold NAME_LEN; lia | exact Hb]|].
      split; [|apply read_tag_fits; [unfold RESULT_LEN; lia | exact Hr]].
      destruct (extract_year_out (current_year st) YEAR_LEN date ltac:(unfold YEAR_LEN; lia))
        as (_ & [He|(He & Hl & Hd)] & _).
      + left. exact He.
      + right. rewrite He. split; assumption.
    - unfold loader_ok. cbn [games move_buffer current_white current_black current_year
                               current_result].
      split; [exact Hgames|]. split; [exact Hbuf|].
      split; [apply read_tag_fits; [unfold NAME_LEN; lia | exact Hw]|].
      split; [apply read_tag_fits; [unfold NAME_LEN; lia | exact Hb]|].
      split; [exact Hy|apply read_tag_fits; [unfold RESULT_LEN; lia | exact Hr]]. }
  destruct (in_game st && negb (char_at trim 0 =? "[")%char && negb (is_nul (char_at trim 0)));
    [|exact Hok].
  unfold loader_ok. cbn [games move_buffer current_white current_black current_year
                           current_result].
  split; [exact Hgames|]. split; [|tauto].
  right.
  assert (Hlen : strlen (move_buffer st) <= MOVE_BUFFER_SIZE - 1).
  { destruct Hbuf as [Hbuf|Hbuf]; [rewrite Hbuf; unfold strlen, MOVE_BUFFER_SIZE; cbn; lia|].
    lia. }
  rewrite (append_movetext (move_buffer st) trim Hlen).
  assert (Hne : 1 <= strlen (move_buffer st ++ " " ++ trim)).
  { rewrite !strlen_app. assert (H0 := strlen_nonneg (move_buffer st)).
    assert (H1 := strlen_nonneg trim). unfold strlen at 2. cbn [String.length]. lia. }
  destruct (prefix_nonempty (move_buffer st ++ " " ++ trim) (MOVE_BUFFER_SIZE - 1) Hne
              ltac:(unfold MOVE_BUFFER_SIZE; lia)) as [Hp1 Hp2].
  destruct (prefix_length (move_buffer st ++ " " ++ trim) (MOVE_BUFFER_SIZE - 1)) as [Hp3 _].
  split; [unfold MOVE_BUFFER_SIZE in *; lia|].
  rewrite Hp2. destruct Hbuf as [Hbuf|[Hbuf1 Hbuf2]].
  - rewrite Hbuf. reflexivity.
  - rewrite char_at_app_left by lia. exact Hbuf2.
Qed.

Lemma fold_load_line_ok (lines : list string) :
  forall st : Loader, loader_ok st -> loader_ok (fold_left load_line lines st).
Proof.
  induction lines as [|line lines IH]; intros st Hok; [exact Hok|].
  cbn [fold_left]. apply IH. apply load_line_ok. exact Hok.
Qed.

Lemma loader_start_ok : loader_ok loader_start.
Proof.
  unfold loader_ok, loader_start. cbn [games move_buffer current_white current_black
                                         current_year current_result].
  split; [constructor|]. split; [left; reflexivity|].
  unfold strlen, NAME_LEN, RESULT_LEN. cbn. repeat split; try lia. left; reflexivity.
Qed.

(** X26. Every game that [load_games] returns has movetext: between 1
    and 65535 characters that begin with a space.  Its player names are
    not empty and fit their 128 bytes, its year is empty or four decimal
    digits, and its result fits its 16 bytes. *)
Theorem load_games_stored (lines : list string) :
  Forall stored_game (load_games lines).
Proof.
  unfold load_games. cbv zeta.
  assert (Hok := fold_load_line_ok lines loader_start loader_start_ok).
  destruct (in_game (fold_left load_line lines loader_start)
            && negb (is_nul (char_at (move_buffer (fold_left load_line lines loader_start)) 0)))
    eqn:E.
  - apply andb_true_iff in E. destruct E as [_ E]. apply push_game_ok; assumption.
  - apply Hok.
Qed.

Lemma load_line_before_event (st : Loader) (line : string) :
  in_game st = false -> event_line line = false -> load_line st line = st.
Proof.
  intros Hin Hev. unfold load_line. cbv zeta. unfold event_line in Hev.
  rewrite Hev, Hin. reflexivity.
Qed.

Lemma fold_before_event (pre : list string) :
  forallb (fun line => negb (event_line line)) pre = true ->
  fold_left load_line pre loader_start = loader_start.
Proof.
  induction pre as [|line pre IH]; intros H; [reflexivity|].
  cbn [forallb] in H. apply andb_true_iff in H. destruct H as [Hl Hp].
  apply negb_true_iff in Hl. cbn [fold_left].
  rewrite load_line_before_event by (exact Hl || reflexivity). apply IH. exact Hp.
Qed.

(** Games stored or under way. *)
Definition games_begun (st : Loader) : nat :=
  (length (games st) + if in_game st then 1 else 0)%nat.

Lemma load_line_begun (st : Loader) (line : string) :
  (games_begun (load_line st line)
   <= games_begun st + if event_line line then 1 else 0)%nat.
Proof.
  unfold load_line, event_line, games_begun. cbv zeta.
  set (trim := skip_while isspace (clean_line line)).
  destruct (strncmp_eq trim "[Event" 6).
  { destruct (in_game st) eqn:Ein; cbn [andb].
    - destruct (negb (is_nul (char_at (move_buffer st) 0))); cbn [games in_game].
      + unfold push_game. rewrite length_app. cbn [length]. lia.
      + lia.
    - cbn [games in_game]. lia. }
  destruct (in_game st && (char_at trim 0 =? "[")%char).
  { destruct (parse_tag_value trim "Date" NAME_LEN); cbn [games in_game]; lia. }
  destruct (in_game st && negb (char_at trim 0 =? "[")%char && negb (is_nul (char_at trim 0)));
    cbn [games in_game]; lia.
Qed.

Lemma fold_begun (lines : list string) :
  forall st : Loader,
    (games_begun (fold_left load_line lines st) <= games_begun st + count_events lines)%nat.
Proof.
  unfold count_events. induction lines as [|line lines IH]; intros st.
  - cbn [fold_left filter length]. lia.
  - cbn [fold_left filter]. specialize (IH (load_line st line)).
    assert (H := load_line_begun st line).
    destruct (event_line line); cbn [length]; lia.
Qed.

(** X27. [load_games] takes no notice of the lines before the first
    line that opens a game, and it returns at most one game for each
    line that opens one. *)
Theorem load_games_events (pre lines : list string)
    (Hpre : forallb (fun line => negb (event_line line)) pre = true) :
  load_games (pre ++ lines) = load_games lines
  /\ (length (load_games lines) <= count_events lines)%nat.
Proof.
  split.
  - unfold load_games. rewrite fold_left_app, (fold_before_event pre Hpre). reflexivity.
  - unfold load_games. cbv zeta.
    assert (H := fold_begun lines loader_start). unfold games_begun in H.
    cbn [games in_game loader_start length] in H.
    destruct (in_game (fold_left load_line lines loader_start)); cbn [andb].
    + destruct (negb (is_nul (char_at (move_buffer (fold_left load_line lines loader_start)) 0)));
        unfold push_game; rewrite ?length_app; cbn [length]; lia.
    + lia.
Qed.

Lemma load_games_events_witness :
  forallb (fun line => negb (event_line line)) ["% export"; "1. d4 d5"]%string = true
  /\ load_games (["% export"; "1. d4 d5"]%string
                 ++ ["[Event]"; "1. e4 e5"; "[Event]"; "1. c4"]%string)%list
     = load_games ["[Event]"; "1. e4 e5"; "[Event]"; "1. c4"]%string
  /\ (length (load_games ["[Event]"; "1. e4 e5"; "[Event]"; "1. c4"]%string)
      <= count_events ["[Event]"; "1. e4 e5"; "[Event]"; "1. c4"]%string)%nat.
Proof.
  split; [reflexivity|].
  apply (load_games_events ["% export"; "1. d4 d5"]%string
           ["[Event]"; "1. e4 e5"; "[Event]"; "1. c4"]%string).
  reflexivity.
Defined.

Lemma append_empty (s : string) : (s ++ "")%string = s.
Proof. induction s as [|c s IH]; [reflexivity|]. cbn [String.append]. rewrite IH. reflexivity. Qed.

(** The loader with another move buffer. *)
Definition with_buffer (st : Loader) (buffer : string) : Loader :=
  mkLoader (games st) buffer (current_white st) (current_black st) (current_date st)
    (current_year st) (current_result st) (in_game st).

Lemma fold_movetext (body : list string) :
  forall st : Loader,
    in_game st = true ->
    strlen (move_buffer st) <= MOVE_BUFFER_SIZE - 1 ->
    forallb movetext_line body = true ->
    fold_left load_line body st
    = with_buffer st (prefix (move_buffer st ++ movetext body) (MOVE_BUFFER_SIZE - 1)).
Proof.
  induction body as [|line body IH]; intros st Hin Hlen Hbody.
  - cbn [fold_left movetext]. rewrite append_empty, prefix_all by exact Hlen.
    destruct st; reflexivity.
  - cbn [forallb] in Hbody. apply andb_true_iff in Hbody. destruct Hbody as [Hline Hbody].
    unfold movetext_line in Hline. apply andb_true_iff in Hline. destruct Hline as [Hev Hbr].
    apply negb_true_iff in Hev. unfold event_line in Hev.
    cbn [fold_left movetext]. unfold movetext_of_line. cbv zeta.
    assert (Hstep : load_line st line
                    = with_buffer st
                        (prefix (move_buffer st
                                 ++ (if is_nul (char_at (skip_while isspace (clean_line line)) 0)
                                     then EmptyString
                                     else " " ++ skip_while isspace (clean_line line)))
                           (MOVE_BUFFER_SIZE - 1))).
    { unfold load_line. cbv zeta. rewrite Hev, Hin. cbn [andb].
      apply negb_true_iff in Hbr. rewrite Hbr. cbn [negb andb].
      destruct (is_nul (char_at (skip_while isspace (clean_line line)) 0)); cbn [negb].
      - rewrite append_empty, prefix_all by exact Hlen. destruct st; reflexivity.
      - rewrite (append_movetext _ _ Hlen). unfold with_buffer. rewrite Hin. reflexivity. }
    rewrite Hstep. rewrite IH; [| exact Hin | | exact Hbody].
    + unfold with_buffer. cbn [games move_buffer current_white current_black current_date
                                 current_year current_result in_game].
      unfold prefix. rewrite prefix_prefix_app, append_assoc. reflexivity.
    + cbn [with_buffer move_buffer].
      match goal with |- strlen (prefix ?s ?n) <= _ =>
        destruct (prefix_length s n) as [H _] end.
      unfold MOVE_BUFFER_SIZE in *. lia.
Qed.

(** X28. The movetext of the last game of a file is what its lines
    add up to: each line that is not blank after cleaning adds a space
    and its cleaned text without leading white space, and the whole is
    cut to the 65535 characters of the buffer.  The game is stored when
    this text is not empty. *)
Theorem load_games_movetext (head body : list string)
    (Hin : in_game (fold_left load_line head loader_start) = true)
    (Hbody : forallb movetext_line body = true) :
  let st := fold_left load_line head loader_start in
  let buffer := prefix (move_buffer st ++ movetext body) (MOVE_BUFFER_SIZE - 1) in
  load_games (head ++ body)
  = if negb (is_nul (char_at buffer 0))
    then push_game (games st) buffer (current_white st) (current_black st)
           (current_year st) (current_result st)
    else games st.
Proof.
  cbv zeta. unfold load_games. cbv zeta. rewrite fold_left_app.
  assert (Hok := fold_load_line_ok head loader_start loader_start_ok).
  set (st := fold_left load_line head loader_start) in *.
  assert (Hlen : strlen (move_buffer st) <= MOVE_BUFFER_SIZE - 1).
  { destruct Hok as (_ & [Hbuf|Hbuf] & _);
      [rewrite Hbuf; apply Z.leb_le; reflexivity | lia]. }
  rewrite (fold_movetext body st Hin Hlen Hbody).
  cbn [with_buffer games move_buffer current_white current_black current_year
         current_result in_game].
  rewrite Hin. reflexivity.
Qed.

Lemma load_games_movetext_witness :
  in_game (fold_left load_line ["[Event]"; "[Round 1]"]%string loader_start) = true
  /\ forallb movetext_line ["1. e4 {best} e5"; "  "; " 2. Nf3 ; file"]%string = true
  /\ let st := fold_left load_line ["[Event]"; "[Round 1]"]%string loader_start in
     let buffer :=
       prefix (move_buffer st ++ movetext ["1. e4 {best} e5"; "  "; " 2. Nf3 ; file"]%string)
         (MOVE_BUFFER_SIZE - 1) in
     load_games (["[Event]"; "[Round 1]"]%string
                 ++ ["1. e4 {best} e5"; "  "; " 2. Nf3 ; file"]%string)%list
     = if negb (is_nul (char_at buffer 0))
       then push_game (games st) buffer (current_white st) (current_black st)
              (current_year st) (current_result st)
       else games st.
Proof.
  split; [reflexivity|]. split; [reflexivity|].
  apply (load_games_movetext ["[Event]"; "[Round 1]"]%string
           ["1. e4 {best} e5"; "  "; " 2. Nf3 ; file"]%string); reflexivity.
Defined.

Lemma event_prefix (rest : string) : event_line ("[Event" ++ rest) = true.
Proof.
  unfold event_line, clean_line.
  rewrite (clean_loop_keeps "[Event" rest eq_refl). reflexivity.
Qed.

(** X29. Every line that begins with [[Event] opens a game, whatever
    follows these six characters, a longer tag name included: the game
    under way is stored if it has movetext, and the names, the date, the
    year and the result read from the headers so far are cleared. *)
Theorem event_prefix_opens_game (st : Loader) (rest : string) :
  let st' := load_line st ("[Event" ++ rest) in
  in_game st' = true
  /\ current_white st' = EmptyString /\ current_black st' = EmptyString
  /\ current_date st' = EmptyString /\ current_year st' = EmptyString
  /\ current_result st' = EmptyString
  /\ games st'
     = (if in_game st && negb (is_nul (char_at (move_buffer st) 0))
        then push_game (games st) (move_buffer st) (current_white st) (current_black st)
               (current_year st) (current_result st)
        else games st).
Proof.
  cbv zeta. unfold load_line. cbv zeta.
  assert (H := event_prefix rest). unfold event_line in H. rewrite H.
  destruct (in_game st && negb (is_nul (char_at (move_buffer st) 0)));
    cbn [games in_game current_white current_black current_date current_year current_result];
    repeat split; reflexivity.
Qed.

(** ** Shuffling *)

Lemma store_length {A : Type} (games : list A) :
  forall (n : nat) (x : A), length (store games n x) = length games.
Proof.
  induction games as [|g games IH]; intros n x; [reflexivity|].
  destruct n; cbn [store length]; [reflexivity|]. rewrite IH. reflexivity.
Qed.

Lemma store_permutation {A : Type} (games : list A) :
  forall (n : nat) (x y : A),
    nth_error games n = Some y ->
    Permutation (x :: games) (y :: store games n x).
Proof.
  induction games as [|g games IH]; intros n x y Hn; [destruct n; discriminate|].
  destruct n as [|n]; cbn [nth_error store] in *.
  - injection Hn as ->. apply perm_swap.
  - apply perm_trans with (g :: x :: games); [apply perm_swap|].
    apply perm_trans with (g :: y :: store games n x); [|apply perm_swap].
    apply perm_skip. apply IH. exact Hn.
Qed.

Lemma exchange_permutation {A : Type} (games : list A) :
  forall (i j : nat) (gi gj : A),
    nth_error games i = Some gi -> nth_error games j = Some gj ->
    Permutation games (store (store games i gj) j gi).
Proof.
  induction games as [|g games IH]; intros i j gi gj Hi Hj; [destruct i; discriminate|].
  destruct i as [|i]; destruct j as [|j]; cbn [nth_error store] in *.
  - injection Hi as ->. injection Hj as ->. apply Permutation_refl.
  - injection Hi as ->. apply store_permutation. exact Hj.
  - injection Hj as ->. apply store_permutation. exact Hi.
  - apply perm_skip. apply IH; assumption.
Qed.

Lemma nth_error_some {A : Type} (games : list A) (n : nat) :
  (n < length games)%nat -> exists g, nth_error games n = Some g.
Proof.
  intros H. destruct (nth_error games n) as [g|] eqn:E; [exists g; reflexivity|].
  apply nth_error_None in E. lia.
Qed.

Lemma shuffle_loop_permutation {A : Type} (rand : nat -> Z) (i : nat) :
  (forall k, 0 <= rand k) ->
  forall (calls : nat) (games : list A),
    (i < length games)%nat \/ i = 0%nat ->
    exists out, shuffle_loop rand calls i games = Some out /\ Permutation games out.
Proof.
  intros Hrand. induction i as [|i IH]; intros calls games Hi.
  - exists games. split; [reflexivity | apply Permutation_refl].
  - destruct Hi as [Hi|Hi]; [|discriminate]. cbn [shuffle_loop]. cbv zeta.
    set (j := Z.rem (rand calls) (Z.of_nat (S i) + 1)).
    assert (Hj : 0 <= j < Z.of_nat (S i) + 1) by (apply Z.rem_bound_pos; [apply Hrand | lia]).
    unfold exchange.
    assert (E1 : (Z.of_nat (S i) <? 0) = false) by (apply Z.ltb_ge; lia).
    assert (E2 : (j <? 0) = false) by (apply Z.ltb_ge; lia).
    rewrite E1, E2. cbn [orb].
    rewrite Nat2Z.id.
    destruct (nth_error_some games (S i) Hi) as [gi Hgi].
    destruct (nth_error_some games (Z.to_nat j) ltac:(lia)) as [gj Hgj].
    rewrite Hgi, Hgj. cbn [bind].
    destruct (IH (S calls) (store (store games (S i) gj) (Z.to_nat j) gi)) as [out [Hout Hperm]].
    { left. rewrite !store_length. lia. }
    exists out. split; [exact Hout|].
    apply perm_trans with (store (store games (S i) gj) (Z.to_nat j) gi); [|exact Hperm].
    apply exchange_permutation; assumption.
Qed.

(** X30. [shuffle_games] stays inside the array of [count] games and
    only rearranges it: for any results of [rand()], none of them
    negative, the array holds the same games afterwards, each as often
    as before. *)
Theorem shuffle_games_permutation {A : Type} (rand : nat -> Z) (games : list A) (count : Z)
    (Hrand : forall k, 0 <= rand k)
    (Hcount : count <= Z.of_nat (length games)) :
  exists out, shuffle_games rand games count = Some out /\ Permutation games out.
Proof.
  unfold shuffle_games. apply shuffle_loop_permutation; [exact Hrand|]. lia.
Qed.

Lemma shuffle_games_permutation_witness :
  (forall k : nat, 0 <= (fun n => 7 * Z.of_nat n + 5) k)
  /\ 4 <= Z.of_nat (length ["a"; "b"; "c"; "d"]%string)
  /\ exists out,
       shuffle_games (fun n => 7 * Z.of_nat n + 5) ["a"; "b"; "c"; "d"]%string 4 = Some out
       /\ Permutation ["a"; "b"; "c"; "d"]%string out.
Proof.
  split; [intros k; lia|]. split; [cbn; lia|].
  apply (shuffle_games_permutation (fun n => 7 * Z.of_nat n + 5) ["a"; "b"; "c"; "d"]%string 4);
    [intros k; lia | cbn; lia].
Defined.
